(** * AriaSH process-orchestration core: a shallow embedding

    The development follows the C++ sources of the hex-stream fabric:

    - [job_state.hpp] / [job_state.cpp]     : [JobState], [JobEvent],
      [TransitionResult], [StateMachine::transition];
    - [stream_controller.hpp] / [.cpp]      : [RingBuffer], [HexStreamPipes],
      [StreamDrainer::drainLoop], [StreamController];
    - [process.hpp] / [process.cpp]         : [HexStreamProcess::wait];
    - [job_control.hpp] / [job_control.cpp] : [JobControlBlock],
      [JobManager::foreground], [JobManager::reapJob].

    Machine integers ([size_t], [int], [ssize_t]) are [Z] with the
    wrap-around of unsigned arithmetic written out; byte buffers are
    [list Z]; the kernel's descriptor table and the job table are finite
    maps. *)

From Stdlib Require Import ZArith List Bool String Lia.
From stdpp Require Import base gmap list strings.

Local Open Scope Z_scope.

(* ===================================================================== *)
(** ** job_state.hpp : states, events, transition results                 *)
(* ===================================================================== *)

Inductive JobState : Type :=
| NONE
| FOREGROUND
| BACKGROUND
| STOPPED
| TERMINATED.

Inductive JobEvent : Type :=
| SPAWN
| SPAWN_BG
| CTRL_C
| CTRL_Z
| FG_CMD
| BG_CMD
| CHILD_EXIT
| CHILD_STOP
| TTY_READ
| TIMEOUT
| ERROR.

#[global] Instance JobState_eq_dec : EqDecision JobState.
Proof. solve_decision. Defined.

#[global] Instance JobEvent_eq_dec : EqDecision JobEvent.
Proof. solve_decision. Defined.

Record TransitionResult : Type := mkTransitionResult {
  valid : bool;
  newState : JobState;
  error : string
}.

Module TransitionResult.
Definition ok (state : JobState) : TransitionResult :=
  mkTransitionResult true state "".
Definition fail (msg : string) : TransitionResult :=
  mkTransitionResult false NONE msg.
End TransitionResult.

(* ===================================================================== *)
(** ** job_state.cpp : StateMachine                                       *)
(* ===================================================================== *)

Module StateMachine.

Definition transition (current : JobState) (event : JobEvent)
  : TransitionResult :=
  match current with
  | NONE =>
      match event with
      | SPAWN => TransitionResult.ok FOREGROUND
      | SPAWN_BG => TransitionResult.ok BACKGROUND
      | _ => TransitionResult.fail "Invalid event for NONE state"
      end
  | FOREGROUND =>
      match event with
      | CTRL_Z => TransitionResult.ok STOPPED
      | CTRL_C => TransitionResult.ok TERMINATED
      | CHILD_EXIT => TransitionResult.ok TERMINATED
      | CHILD_STOP => TransitionResult.ok STOPPED
      | ERROR => TransitionResult.ok TERMINATED
      | _ => TransitionResult.fail "Invalid event for FOREGROUND state"
      end
  | BACKGROUND =>
      match event with
      | FG_CMD => TransitionResult.ok FOREGROUND
      | BG_CMD => TransitionResult.ok BACKGROUND
      | CHILD_EXIT => TransitionResult.ok TERMINATED
      | CHILD_STOP => TransitionResult.ok STOPPED
      | TTY_READ => TransitionResult.ok STOPPED
      | ERROR => TransitionResult.ok TERMINATED
      | _ => TransitionResult.fail "Invalid event for BACKGROUND state"
      end
  | STOPPED =>
      match event with
      | FG_CMD => TransitionResult.ok FOREGROUND
      | BG_CMD => TransitionResult.ok BACKGROUND
      | CTRL_C => TransitionResult.ok TERMINATED
      | CHILD_EXIT => TransitionResult.ok TERMINATED
      | ERROR => TransitionResult.ok TERMINATED
      | _ => TransitionResult.fail "Invalid event for STOPPED state"
      end
  | TERMINATED => TransitionResult.fail "Job already terminated"
  end.

Definition canTransition (current : JobState) (event : JobEvent) : bool :=
  valid (transition current event).

Definition allEvents : list JobEvent :=
  [SPAWN; SPAWN_BG; CTRL_C; CTRL_Z; FG_CMD; BG_CMD;
   CHILD_EXIT; CHILD_STOP; TTY_READ; TIMEOUT; ERROR].

Definition validEvents (state : JobState) : list JobEvent :=
  filter (fun e => canTransition state e = true) allEvents.

End StateMachine.

(** The transition table of the design document, row by row.  [None] is
    a dash of the table.  The table has ten columns: [TIMEOUT] is not one
    of them. *)
Definition table_events : list JobEvent :=
  [SPAWN; SPAWN_BG; CTRL_C; CTRL_Z; FG_CMD; BG_CMD;
   CHILD_EXIT; CHILD_STOP; TTY_READ; ERROR].

Definition table_row (s : JobState) : list (option JobState) :=
  match s with
  (*               Spawn            SpawnBg          CtrlC            CtrlZ         FgCmd            BgCmd            ChildExit        ChildStop     TtyRead       Error *)
  | NONE       => [Some FOREGROUND; Some BACKGROUND; None;            None;         None;            None;            None;            None;         None;         None]
  | FOREGROUND => [None;            None;            Some TERMINATED; Some STOPPED; None;            None;            Some TERMINATED; Some STOPPED; None;         Some TERMINATED]
  | BACKGROUND => [None;            None;            None;            None;         Some FOREGROUND; Some BACKGROUND; Some TERMINATED; Some STOPPED; Some STOPPED; Some TERMINATED]
  | STOPPED    => [None;            None;            Some TERMINATED; None;         Some FOREGROUND; Some BACKGROUND; Some TERMINATED; None;         None;         Some TERMINATED]
  | TERMINATED => [None;            None;            None;            None;         None;            None;            None;            None;         None;         None]
  end.

Definition table_column (e : JobEvent) : option nat :=
  match e with
  | SPAWN => Some 0%nat
  | SPAWN_BG => Some 1%nat
  | CTRL_C => Some 2%nat
  | CTRL_Z => Some 3%nat
  | FG_CMD => Some 4%nat
  | BG_CMD => Some 5%nat
  | CHILD_EXIT => Some 6%nat
  | CHILD_STOP => Some 7%nat
  | TTY_READ => Some 8%nat
  | TIMEOUT => None
  | ERROR => Some 9%nat
  end.

(** The cell of the table for a state and one of its ten events. *)
Definition table_cell (s : JobState) (e : JobEvent) : option JobState :=
  match table_column e with
  | Some c => mjoin (table_row s !! c)
  | None => None
  end.

(** What a caller observes of a result: the new state when the result is
    valid, nothing otherwise. *)
Definition outcome (r : TransitionResult) : option JobState :=
  if valid r then Some (newState r) else None.

(* ===================================================================== *)
(** ** stream_controller.hpp / .cpp : RingBuffer                          *)
(* ===================================================================== *)

(** [size_t] is a 64-bit unsigned integer: every arithmetic result is
    reduced modulo [2^64]. *)
Definition SIZE_WIDTH : Z := 64.
Definition size_t (z : Z) : Z := z mod 2 ^ SIZE_WIDTH.

(** No [std::vector<uint8_t>] holds more than [PTRDIFF_MAX] bytes. *)
Definition PTRDIFF_MAX : Z := 2 ^ 63 - 1.

(** [std::memcpy(dst + off, src, n)] on a byte vector: the [n] bytes of
    [src] replace the bytes of [dst] at positions [off .. off + n - 1].
    A copy that runs past the end of the vector is undefined behaviour in
    the source; here the list grows, which no caller reaches on a
    well-formed ring. *)
Definition memcpy (dst : list Z) (off : Z) (src : list Z) : list Z :=
  take (Z.to_nat off) dst ++ src ++
  drop (Z.to_nat off + length src) dst.

(** The bytes [src[from .. from + n - 1]]. *)
Definition bytes_at (src : list Z) (from n : Z) : list Z :=
  take (Z.to_nat n) (drop (Z.to_nat from) src).

Record RingBuffer : Type := mkRingBuffer {
  buffer : list Z;
  readPos : Z;
  writePos : Z;
  capacity : Z
}.

Module RingBuffer.

(** [RingBuffer(cap)]: a zero-filled vector of [cap] bytes, both
    positions at 0. *)
Definition new (cap : Z) : RingBuffer :=
  mkRingBuffer (replicate (Z.to_nat cap) 0) 0 0 cap.

Definition available (rb : RingBuffer) : Z :=
  let w := writePos rb in
  let r := readPos rb in
  if w >=? r then size_t (w - r) else size_t (capacity rb - r + w).

Definition freeSpace (rb : RingBuffer) : Z :=
  size_t (capacity rb - available rb - 1).

Definition empty (rb : RingBuffer) : bool := available rb =? 0.

Definition full (rb : RingBuffer) : bool := freeSpace rb =? 0.

Definition clear (rb : RingBuffer) : RingBuffer :=
  mkRingBuffer (buffer rb) 0 0 (capacity rb).

(** [write(data, size)]: [data] carries its [size] as its length.
    Returns the ring after the call and the number of bytes written.
    (With a capacity of 0 the source divides by zero in
    [% capacity]; [wf] below excludes it.) *)
Definition write (rb : RingBuffer) (data : list Z) : RingBuffer * Z :=
  let size := Z.of_nat (length data) in
  let free := freeSpace rb in
  let toWrite := Z.min size free in
  if toWrite =? 0 then (rb, 0)
  else
    let wpos := writePos rb in
    let firstPart := Z.min toWrite (size_t (capacity rb - wpos)) in
    let buf1 := memcpy (buffer rb) wpos (bytes_at data 0 firstPart) in
    let buf2 :=
      if toWrite >? firstPart
      then memcpy buf1 0 (bytes_at data firstPart (toWrite - firstPart))
      else buf1 in
    (mkRingBuffer buf2 (readPos rb)
       (size_t (wpos + toWrite) mod capacity rb) (capacity rb),
     toWrite).

(** [read(data, maxSize)]: returns the ring after the call and the bytes
    copied to the caller's buffer; the count returned by the source is
    their number. *)
Definition read (rb : RingBuffer) (maxSize : Z) : RingBuffer * list Z :=
  let avail := available rb in
  let toRead := Z.min maxSize avail in
  if toRead =? 0 then (rb, [])
  else
    let rpos := readPos rb in
    let firstPart := Z.min toRead (size_t (capacity rb - rpos)) in
    let part1 := bytes_at (buffer rb) rpos firstPart in
    let part2 :=
      if toRead >? firstPart
      then bytes_at (buffer rb) 0 (toRead - firstPart)
      else [] in
    (mkRingBuffer (buffer rb) (size_t (rpos + toRead) mod capacity rb)
       (writePos rb) (capacity rb),
     part1 ++ part2).

Definition peek (rb : RingBuffer) (maxSize : Z) : list Z :=
  let avail := available rb in
  let toPeek := Z.min maxSize avail in
  if toPeek =? 0 then []
  else
    let rpos := readPos rb in
    let firstPart := Z.min toPeek (size_t (capacity rb - rpos)) in
    bytes_at (buffer rb) rpos firstPart ++
    (if toPeek >? firstPart
     then bytes_at (buffer rb) 0 (toPeek - firstPart)
     else []).

(** The representation invariant every ring of the program satisfies:
    a positive capacity that a vector can have, a vector of that many
    bytes and both positions inside it. *)
Definition wf (rb : RingBuffer) : Prop :=
  0 < capacity rb <= PTRDIFF_MAX /\
  Z.of_nat (length (buffer rb)) = capacity rb /\
  0 <= readPos rb < capacity rb /\
  0 <= writePos rb < capacity rb.

(** An empty ring: nothing written is unread. *)
Definition is_empty (rb : RingBuffer) : Prop := readPos rb = writePos rb.

End RingBuffer.

(* ===================================================================== *)
(** ** The host: descriptors, pipes and the system calls the code makes   *)
(* ===================================================================== *)

(** A pipe has two ends; a descriptor names one end of one pipe and
    carries its close-on-exec flag. *)
Inductive PipeEnd : Type :=
| ReadEnd
| WriteEnd.

#[global] Instance PipeEnd_eq_dec : EqDecision PipeEnd.
Proof. solve_decision. Defined.

Record Descriptor : Type := mkDescriptor {
  d_pipe : nat;
  d_end : PipeEnd;
  d_cloexec : bool
}.

#[global] Instance Descriptor_eq_dec : EqDecision Descriptor.
Proof. solve_decision. Defined.

(** The part of a process and its kernel the code observes: the
    descriptor table (after [fork] the child starts from a copy of its
    parent's), the bytes in flight in every pipe, the number of pipes made
    so far, the descriptor limit and [errno]. *)
Record Host : Type := mkHost {
  fdtable : gmap Z Descriptor;
  pipedata : gmap nat (list Z);
  next_pipe : nat;
  nofile : Z;
  errno : Z
}.

Definition EINTR : Z := 4.
Definition EBADF : Z := 9.
Definition EAGAIN : Z := 11.
Definition EMFILE : Z := 24.

Definition STDIN_FILENO : Z := 0.
Definition STDOUT_FILENO : Z := 1.
Definition STDERR_FILENO : Z := 2.

Module Sys.

Definition set_errno (h : Host) (e : Z) : Host :=
  mkHost (fdtable h) (pipedata h) (next_pipe h) (nofile h) e.

Definition set_fdtable (h : Host) (t : gmap Z Descriptor) : Host :=
  mkHost t (pipedata h) (next_pipe h) (nofile h) (errno h).

(** The lowest descriptor number at or above [from] that is not open. *)
Fixpoint lowest_free (t : gmap Z Descriptor) (from : Z) (fuel : nat) : Z :=
  match fuel with
  | O => from
  | S fuel' =>
      match t !! from with
      | None => from
      | Some _ => lowest_free t (from + 1) fuel'
      end
  end.

Definition alloc_fd (t : gmap Z Descriptor) : Z :=
  lowest_free t 0 (size t).

(** [pipe2(pipefd, flags)]: a new pipe on the two lowest free descriptors,
    read end first; fails with [EMFILE] at the descriptor limit. *)
Definition pipe2 (h : Host) (cloexec : bool) : option (Z * Z) * Host :=
  let r := alloc_fd (fdtable h) in
  let t1 := <[r := mkDescriptor (next_pipe h) ReadEnd cloexec]> (fdtable h) in
  let w := alloc_fd t1 in
  if nofile h <=? w then (None, set_errno h EMFILE)
  else
    let t2 := <[w := mkDescriptor (next_pipe h) WriteEnd cloexec]> t1 in
    (Some (r, w),
     mkHost t2 (<[next_pipe h := []]> (pipedata h)) (S (next_pipe h))
       (nofile h) (errno h)).

(** The descriptor [dup2] makes: the same end of the same pipe, with
    close-on-exec cleared. *)
Definition duplicate (d : Descriptor) : Descriptor :=
  mkDescriptor (d_pipe d) (d_end d) false.

(** [dup2(oldfd, newfd)]: [newfd] becomes a copy of [oldfd] with
    close-on-exec cleared; nothing happens when they are equal. *)
Definition dup2 (h : Host) (oldfd newfd : Z) : Z * Host :=
  match fdtable h !! oldfd with
  | None => (-1, set_errno h EBADF)
  | Some d =>
      if (newfd <? 0) || (nofile h <=? newfd) then (-1, set_errno h EBADF)
      else if oldfd =? newfd then (newfd, h)
      else
        (newfd,
         set_fdtable h (<[newfd := duplicate d]> (fdtable h)))
  end.

(** [close(fd)]. *)
Definition close (h : Host) (fd : Z) : Z * Host :=
  match fdtable h !! fd with
  | None => (-1, set_errno h EBADF)
  | Some _ => (0, set_fdtable h (delete fd (fdtable h)))
  end.

(** [write(fd, data, size)] on a pipe: the bytes are appended to the pipe
    behind a write end (the pipe is taken to have room and a reader;
    [SysPipe.write] further down is the call without these two
    assumptions); every other descriptor value, a negative one included,
    fails with [EBADF] and writes nothing. *)
Definition write (h : Host) (fd : Z) (data : list Z) : Z * Host :=
  if fd <? 0 then (-1, set_errno h EBADF)
  else
    match fdtable h !! fd with
    | Some (mkDescriptor p WriteEnd _) =>
        (Z.of_nat (length data),
         mkHost (fdtable h)
           (<[p := default [] (pipedata h !! p) ++ data]> (pipedata h))
           (next_pipe h) (nofile h) (errno h))
    | _ => (-1, set_errno h EBADF)
    end.

End Sys.

(* ===================================================================== *)
(** ** stream_controller.hpp / .cpp : HexStreamPipes                      *)
(* ===================================================================== *)

Inductive StreamIndex : Type :=
| STDIN
| STDOUT
| STDERR
| STDDBG
| STDDATI
| STDDATO.

#[global] Instance StreamIndex_eq_dec : EqDecision StreamIndex.
Proof. solve_decision. Defined.

Definition stream_int (s : StreamIndex) : nat :=
  match s with
  | STDIN => 0
  | STDOUT => 1
  | STDERR => 2
  | STDDBG => 3
  | STDDATI => 4
  | STDDATO => 5
  end.

Definition STREAM_COUNT : nat := 6.

(** [int fds[12]]: [fds[2i]] and [fds[2i + 1]] belong to stream [i]. *)
Record HexStreamPipes : Type := mkHexStreamPipes {
  fds : list Z
}.

Module HexStreamPipes.

(** The constructor: twelve closed slots. *)
Definition new : HexStreamPipes := mkHexStreamPipes (replicate 12 (-1)).

(** [fds[i]]. *)
Definition get (p : HexStreamPipes) (i : nat) : Z := default (-1) (fds p !! i).

(** [fds[i] = v]. *)
Definition set (p : HexStreamPipes) (i : nat) (v : Z) : HexStreamPipes :=
  mkHexStreamPipes (<[i := v]> (fds p)).

(** The body of the loop of [close()] for one index. *)
Definition close_one (acc : HexStreamPipes * Host) (i : nat)
  : HexStreamPipes * Host :=
  let '(p, h) := acc in
  if get p i >=? 0 then (set p i (-1), (Sys.close h (get p i)).2)
  else (p, h).

Definition close (p : HexStreamPipes) (h : Host) : HexStreamPipes * Host :=
  foldl close_one (p, h) (seq 0 12).

Definition isValid (p : HexStreamPipes) : bool :=
  (get p 0 >=? 0) && (get p 2 >=? 0) && (get p 4 >=? 0).

End HexStreamPipes.

(* ===================================================================== *)
(** ** stream_controller.hpp / .cpp : StreamDrainer                       *)
(* ===================================================================== *)

Definition POLLIN : Z := 1.
Definition POLLERR : Z := 8.
Definition POLLHUP : Z := 16.

(** Size of the drainer's local read buffer. *)
Definition READ_BUFFER_SIZE : Z := 4096.

(** The drainer's fields.  [buffer_] points to a ring owned by the
    controller; the ring is passed next to the drainer wherever the
    source follows the pointer. *)
Record StreamDrainer : Type := mkStreamDrainer {
  stream_ : StreamIndex;
  fd_ : Z;
  dropOnOverflow_ : bool;
  bytesTransferred_ : Z;
  active_ : bool
}.

(** What the host answers during one turn of the drain loop. *)
Inductive PollOutcome : Type :=
| PollFail (e : Z)
| PollTimeout
| PollReady (revents : Z).

Inductive ReadOutcome : Type :=
| ReadBytes (pending : list Z)
| ReadFail (e : Z).

(** What happens at one turn of the back-pressure loop: the stop token is
    set, or the consumer of the ring reads some bytes meanwhile. *)
Inductive Yield : Type :=
| StopRequested
| ConsumerReads (k : Z).

Record Turn : Type := mkTurn {
  stop_requested : bool;
  polled : PollOutcome;
  got : ReadOutcome;
  yields : list Yield
}.

Module StreamDrainer.

(** The constructor; the worker thread then runs [drainLoop]. *)
Definition new (stream : StreamIndex) (fd : Z) (dropOnOverflow : bool)
  : StreamDrainer :=
  mkStreamDrainer stream fd dropOnOverflow 0 false.

Definition bytesTransferred (d : StreamDrainer) : Z := bytesTransferred_ d.
Definition isActive (d : StreamDrainer) : bool := active_ d.
Definition getStream (d : StreamDrainer) : StreamIndex := stream_ d.

Definition set_active (d : StreamDrainer) (a : bool) : StreamDrainer :=
  mkStreamDrainer (stream_ d) (fd_ d) (dropOnOverflow_ d)
    (bytesTransferred_ d) a.

Definition add_transferred (d : StreamDrainer) (n : Z) : StreamDrainer :=
  mkStreamDrainer (stream_ d) (fd_ d) (dropOnOverflow_ d)
    (bytesTransferred_ d + n) (active_ d).

(** [read(fd_, readBuffer.data(), readBuffer.size())]: at most 4096 of
    the pending bytes. *)
Definition read_chunk (pending : list Z) : list Z :=
  take (Z.to_nat READ_BUFFER_SIZE) pending.

(** BLOCK MODE: the loop [while (remaining > 0 && !stop_requested)].  A
    trace of yields that ends leaves the loop as a stop request does. *)
Fixpoint backpressure (rb : RingBuffer) (remainingData : list Z)
    (ys : list Yield) : RingBuffer :=
  match remainingData, ys with
  | [], _ => rb
  | _, [] => rb
  | _, StopRequested :: _ => rb
  | _, ConsumerReads k :: ys' =>
      let '(rb1, chunk) := RingBuffer.write rb remainingData in
      let rb2 := (RingBuffer.read rb1 k).1 in
      if chunk =? 0 then backpressure rb2 remainingData ys'
      else backpressure rb2 (drop (Z.to_nat chunk) remainingData) ys'
  end.

(** The branch [if (n > 0)]: one successful read of [data]. *)
Definition on_data (d : StreamDrainer) (rb : RingBuffer) (data : list Z)
    (ys : list Yield) : StreamDrainer * RingBuffer :=
  let n := Z.of_nat (length data) in
  let '(rb1, written) := RingBuffer.write rb data in
  let rb2 :=
    if written <? n then
      if dropOnOverflow_ d then rb1
      else backpressure rb1 (drop (Z.to_nat written) data) ys
    else rb1 in
  (add_transferred d n, rb2).

(** One turn of the [while] loop after the stop token was found clear.
    The boolean is [true] when the loop goes on and [false] on [break]. *)
Definition turn (d : StreamDrainer) (rb : RingBuffer) (t : Turn)
  : StreamDrainer * RingBuffer * bool :=
  match polled t with
  | PollFail e => (d, rb, e =? EINTR)
  | PollTimeout => (d, rb, true)
  | PollReady revents =>
      let '(d1, rb1, go) :=
        if negb (Z.land revents POLLIN =? 0) then
          match got t with
          | ReadBytes pending =>
              let data := read_chunk pending in
              if 0 <? Z.of_nat (length data) then
                let '(d1, rb1) := on_data d rb data (yields t) in
                (d1, rb1, true)
              else (d, rb, false)
          | ReadFail e =>
              (d, rb, negb (negb (e =? EAGAIN) && negb (e =? EINTR)))
          end
        else (d, rb, true) in
      if go then
        (d1, rb1, Z.land revents (Z.lor POLLHUP POLLERR) =? 0)
      else (d1, rb1, false)
  end.

(** The [while] loop over a trace of turns; the boolean tells whether
    the loop was left before the trace ended. *)
Fixpoint turns (d : StreamDrainer) (rb : RingBuffer) (ts : list Turn)
  : StreamDrainer * RingBuffer * bool :=
  match ts with
  | [] => (d, rb, false)
  | t :: ts' =>
      if stop_requested t then (d, rb, true)
      else
        let '(d1, rb1, go) := turn d rb t in
        if go then turns d1 rb1 ts' else (d1, rb1, true)
  end.

Definition drainLoop (d : StreamDrainer) (rb : RingBuffer) (ts : list Turn)
  : StreamDrainer * RingBuffer :=
  let '(d1, rb1, exited) := turns (set_active d true) rb ts in
  (if exited then set_active d1 false else d1, rb1).

End StreamDrainer.

(** A turn in which the endpoint is readable and [read] returns [data]. *)
Definition data_turn (data : list Z) : Turn :=
  mkTurn false (PollReady POLLIN) (ReadBytes data) [].

(* ===================================================================== *)
(** ** stream_controller.hpp / .cpp : StreamController                    *)
(* ===================================================================== *)

Record StreamController : Type := mkStreamController {
  pipes : HexStreamPipes;
  buffers : list RingBuffer;
  drainers : list (option StreamDrainer);
  callbacks : list nat;
  foregroundMode : bool
}.

Module StreamController.

(** Capacity of each ring the constructor allocates. *)
Definition RING_CAPACITY : Z := 1024 * 1024.

Definition new : StreamController :=
  mkStreamController HexStreamPipes.new
    (replicate STREAM_COUNT (RingBuffer.new RING_CAPACITY))
    (replicate 4 None) [] true.

Definition set_pipes (sc : StreamController) (p : HexStreamPipes)
  : StreamController :=
  mkStreamController p (buffers sc) (drainers sc) (callbacks sc)
    (foregroundMode sc).

Definition set_drainers (sc : StreamController)
    (ds : list (option StreamDrainer)) : StreamController :=
  mkStreamController (pipes sc) (buffers sc) ds (callbacks sc)
    (foregroundMode sc).

Definition set_buffers (sc : StreamController) (bs : list RingBuffer)
  : StreamController :=
  mkStreamController (pipes sc) bs (drainers sc) (callbacks sc)
    (foregroundMode sc).

(** [buffers[idx]]. *)
Definition ring (sc : StreamController) (stream : StreamIndex) : RingBuffer :=
  default (RingBuffer.new RING_CAPACITY) (buffers sc !! stream_int stream).

Definition stopDraining (sc : StreamController) : StreamController :=
  set_drainers sc (replicate 4 None).

Definition close (sc : StreamController) (h : Host)
  : StreamController * Host :=
  let sc1 := stopDraining sc in
  let '(p, h1) := HexStreamPipes.close (pipes sc1) h in
  (set_pipes sc1 p, h1).

(** The loop of [createPipes] from index [i] on. *)
Fixpoint createPipes_from (todo : list nat) (sc : StreamController)
    (h : Host) : bool * StreamController * Host :=
  match todo with
  | [] => (true, sc, h)
  | i :: todo' =>
      match Sys.pipe2 h true with
      | (None, h1) =>
          let '(sc1, h2) := close sc h1 in (false, sc1, h2)
      | (Some (r, w), h1) =>
          let p1 := HexStreamPipes.set (pipes sc) (i * 2) r in
          let p2 := HexStreamPipes.set p1 (i * 2 + 1) w in
          createPipes_from todo' (set_pipes sc p2) h1
      end
  end.

Definition createPipes (sc : StreamController) (h : Host)
  : bool * StreamController * Host :=
  createPipes_from (seq 0 6) sc h.

(** A run of [if (dup2(pipes.fds[src], dst) < 0) return false;]
    statements, in order. *)
Fixpoint redirect (p : HexStreamPipes) (plan : list (nat * Z)) (h : Host)
  : bool * Host :=
  match plan with
  | [] => (true, h)
  | (src, dst) :: plan' =>
      let '(r, h1) := Sys.dup2 h (HexStreamPipes.get p src) dst in
      if r <? 0 then (false, h1) else redirect p plan' h1
  end.

(** The loop closing all original pipe descriptors. *)
Definition close_originals (p : HexStreamPipes) (h : Host) : Host :=
  foldl (fun h i =>
           if HexStreamPipes.get p i >=? 0
           then (Sys.close h (HexStreamPipes.get p i)).2
           else h)
        h (seq 0 12).

(** [setupChild], run in the child between [fork] and [exec]. *)
Definition setupChild (sc : StreamController) (h : Host) : bool * Host :=
  match redirect (pipes sc)
          [(1%nat, STDIN_FILENO); (3%nat, STDOUT_FILENO);
           (5%nat, STDERR_FILENO); (7%nat, 3); (9%nat, 4); (11%nat, 5)] h with
  | (false, h1) => (false, h1)
  | (true, h1) => (true, close_originals (pipes sc) h1)
  end.

(** One [::close(pipes.fds[i]); pipes.fds[i] = -1;] pair of
    [setupParent]. *)
Definition close_child_side (acc : HexStreamPipes * Host) (i : nat)
  : HexStreamPipes * Host :=
  let '(p, h) := acc in
  (HexStreamPipes.set p i (-1), (Sys.close h (HexStreamPipes.get p i)).2).

Definition setupParent (sc : StreamController) (h : Host)
  : bool * StreamController * Host :=
  let '(p, h1) :=
    foldl close_child_side (pipes sc, h) [0; 3; 5; 7; 8; 11]%nat in
  (true, set_pipes sc p, h1).

(** [startDraining]: a drainer for each output stream whose read end is
    open; only the telemetry drainer drops on overflow. *)
Definition start_one (p : HexStreamPipes) (old : option StreamDrainer)
    (stream : StreamIndex) (i : nat) (dropOnOverflow : bool)
  : option StreamDrainer :=
  if HexStreamPipes.get p i >=? 0
  then Some (StreamDrainer.new stream (HexStreamPipes.get p i) dropOnOverflow)
  else old.

Definition startDraining (sc : StreamController) : bool * StreamController :=
  let p := pipes sc in
  let old (k : nat) := mjoin (drainers sc !! k) in
  (true,
   set_drainers sc
     [start_one p (old 0%nat) STDOUT 2 false;
      start_one p (old 1%nat) STDERR 4 false;
      start_one p (old 2%nat) STDDBG 6 true;
      start_one p (old 3%nat) STDDATO 10 false]).

(** [writeStdin]: [write(pipes.fds[1], data, size)]. *)
Definition writeStdin (sc : StreamController) (h : Host) (data : list Z)
  : Z * Host :=
  Sys.write h (HexStreamPipes.get (pipes sc) 1) data.

Definition closeStdin (sc : StreamController) (h : Host)
  : StreamController * Host :=
  if HexStreamPipes.get (pipes sc) 1 >=? 0 then
    (set_pipes sc (HexStreamPipes.set (pipes sc) 1 (-1)),
     (Sys.close h (HexStreamPipes.get (pipes sc) 1)).2)
  else (sc, h).

Definition readBuffer (sc : StreamController) (stream : StreamIndex)
    (maxSize : Z) : StreamController * list Z :=
  let '(rb, out) := RingBuffer.read (ring sc stream) maxSize in
  (set_buffers sc (<[stream_int stream := rb]> (buffers sc)), out).

Definition availableData (sc : StreamController) (stream : StreamIndex) : Z :=
  RingBuffer.available (ring sc stream).

Definition hasPendingData (sc : StreamController) (stream : StreamIndex)
  : bool :=
  availableData sc stream >? 0.

Definition setForegroundMode (sc : StreamController) (foreground : bool)
  : StreamController :=
  mkStreamController (pipes sc) (buffers sc) (drainers sc) (callbacks sc)
    foreground.

End StreamController.

(** The older, [select]-based [stream_controller.cpp] differs in
    [setupChild] by the pipe ends it duplicates. *)
Module StreamControllerSelect.

Definition setupChild (sc : StreamController) (h : Host) : bool * Host :=
  match StreamController.redirect (pipes sc)
          [(1%nat, STDIN_FILENO); (2%nat, STDOUT_FILENO);
           (4%nat, STDERR_FILENO); (6%nat, 3); (9%nat, 4); (10%nat, 5)] h with
  | (false, h1) => (false, h1)
  | (true, h1) => (true, StreamController.close_originals (pipes sc) h1)
  end.

End StreamControllerSelect.

(* ===================================================================== *)
(** ** <sys/wait.h> : decoding a wait status (Linux, glibc)               *)
(* ===================================================================== *)

Definition WTERMSIG (status : Z) : Z := Z.land status 127.

Definition WEXITSTATUS (status : Z) : Z :=
  Z.shiftr (Z.land status 65280) 8.

Definition WIFEXITED (status : Z) : bool := WTERMSIG status =? 0.

(** [((signed char) ((status & 0x7f) + 1) >> 1) > 0]. *)
Definition WIFSIGNALED (status : Z) : bool :=
  let v := Z.land status 127 + 1 in
  let signed_char := if v >=? 128 then v - 256 else v in
  Z.shiftr signed_char 1 >? 0.

Definition WIFSTOPPED (status : Z) : bool := Z.land status 255 =? 127.

Definition WSTOPSIG (status : Z) : Z := WEXITSTATUS status.

(** The status words the kernel builds: [W_EXITCODE(ret, sig)] for a
    child that ended, [W_STOPCODE(sig)] for one that stopped. *)
Definition W_EXITCODE (ret sig : Z) : Z := Z.lor (Z.shiftl ret 8) sig.
Definition W_STOPCODE (sig : Z) : Z := Z.lor (Z.shiftl sig 8) 127.
Definition WCOREFLAG : Z := 128.

Definition WNOHANG : Z := 1.

Definition SIGCONT : Z := 18.
Definition SIGTSTP : Z := 20.

(* ===================================================================== *)
(** ** hexstream/process.hpp / .cpp : HexStreamProcess                    *)
(* ===================================================================== *)

Record ProcessConfig : Type := mkProcessConfig {
  executable : string;
  arguments : list string;
  environment : list string;
  enableStdDbg : bool;
  enableStdDatI : bool;
  enableStdDatO : bool;
  cfg_foregroundMode : bool
}.

(** [exitCallback_] is an empty [std::function] until [onExit] stores a
    callback; callbacks are named by a number. *)
Record HexStreamProcess : Type := mkHexStreamProcess {
  config_ : ProcessConfig;
  pid_ : Z;
  exitCode_ : Z;
  running_ : bool;
  pidfd_ : Z;
  exitCallback_ : option nat;
  streamController_ : StreamController
}.

(** What a call does to the outside, in order. *)
Inductive Effect : Type :=
| Poll (fd : Z) (timeout : Z)
| Waitpid (pid : Z) (options : Z)
| ExitCallback (cb : nat) (exitCode : Z).

Module HexStreamProcess.

(** The constructor. *)
Definition new (config : ProcessConfig) : HexStreamProcess :=
  mkHexStreamProcess config (-1) (-1) false (-1) None StreamController.new.

Definition onExit (p : HexStreamProcess) (callback : nat)
  : HexStreamProcess :=
  mkHexStreamProcess (config_ p) (pid_ p) (exitCode_ p) (running_ p)
    (pidfd_ p) (Some callback) (streamController_ p).

Definition isRunning (p : HexStreamProcess) : bool := running_ p.

(** The decoding at the end of the POSIX branch of [wait]. *)
Definition decode_status (status : Z) : Z :=
  if WIFEXITED status then WEXITSTATUS status
  else if WIFSIGNALED status then 128 + WTERMSIG status
  else -1.

(** [wait()].  [status] is what the [int status] holds once [waitpid]
    has returned.  The result is the returned exit code, the process
    object after the call and the effects of the call. *)
Definition wait (p : HexStreamProcess) (status : Z)
  : Z * HexStreamProcess * list Effect :=
  if negb (running_ p) then (exitCode_ p, p, [])
  else
    let reaped :=
      if pidfd_ p >=? 0
      then [Poll (pidfd_ p) (-1); Waitpid (pid_ p) WNOHANG]
      else [Waitpid (pid_ p) 0] in
    let code := decode_status status in
    let p1 :=
      mkHexStreamProcess (config_ p) (pid_ p) code false (pidfd_ p)
        (exitCallback_ p) (streamController_ p) in
    let called :=
      match exitCallback_ p with
      | Some cb => [ExitCallback cb code]
      | None => []
      end in
    (code, p1, reaped ++ called).

End HexStreamProcess.

(* ===================================================================== *)
(** ** job/job_control.hpp / .cpp : JobControlBlock, JobManager           *)
(* ===================================================================== *)

Record termios : Type := mkTermios {
  c_iflag : Z;
  c_oflag : Z;
  c_cflag : Z;
  c_lflag : Z;
  c_cc : list Z
}.

Record ProcessHandle : Type := mkProcessHandle {
  pidfd : Z;
  pid : Z
}.

Record JobControlBlock : Type := mkJobControlBlock {
  jobId : Z;
  command : string;
  pgid : Z;
  processes : list ProcessHandle;
  state : JobState;
  notified : bool;
  savedModes : termios;
  hasSavedModes : bool;
  exitCode : Z;
  exitedNormally : bool;
  stoppedBySignal : bool;
  stopSignal : Z;
  streams : StreamController;
  startTime : Z;
  endTime : Z
}.

Record JobManager : Type := mkJobManager {
  jobs : gmap Z JobControlBlock;
  nextJobId : Z;
  statusCallbacks : list nat;
  ttyFd : Z;
  shellPgid : Z;
  shellModes : termios;
  inRawMode : bool;
  hasTty : bool
}.

(** What job control acts on outside the manager: the terminal (its
    foreground process group and its modes), the signals sent so far and
    the status notifications delivered so far. *)
Record World : Type := mkWorld {
  tty_pgrp : Z;
  tty_modes : termios;
  signals_sent : list (Z * Z);
  notifications : list (nat * Z * JobState * JobState)
}.

Module World.

Definition kill (w : World) (target sig : Z) : World :=
  mkWorld (tty_pgrp w) (tty_modes w) (signals_sent w ++ [(target, sig)])
    (notifications w).

Definition tcsetpgrp (w : World) (pgrp : Z) : World :=
  mkWorld pgrp (tty_modes w) (signals_sent w) (notifications w).

Definition tcsetattr (w : World) (modes : termios) : World :=
  mkWorld (tty_pgrp w) modes (signals_sent w) (notifications w).

Definition notify (w : World) (cbs : list nat) (job : Z)
    (oldState newState : JobState) : World :=
  mkWorld (tty_pgrp w) (tty_modes w) (signals_sent w)
    (notifications w ++ map (fun cb => (cb, job, oldState, newState)) cbs).

End World.

Module JobControlBlock.

Definition set_state (job : JobControlBlock) (s : JobState)
  : JobControlBlock :=
  mkJobControlBlock (jobId job) (command job) (pgid job) (processes job)
    s (notified job) (savedModes job) (hasSavedModes job) (exitCode job)
    (exitedNormally job) (stoppedBySignal job) (stopSignal job)
    (streams job) (startTime job) (endTime job).

Definition set_streams (job : JobControlBlock) (sc : StreamController)
  : JobControlBlock :=
  mkJobControlBlock (jobId job) (command job) (pgid job) (processes job)
    (state job) (notified job) (savedModes job) (hasSavedModes job)
    (exitCode job) (exitedNormally job) (stoppedBySignal job)
    (stopSignal job) sc (startTime job) (endTime job).

Definition set_exit (job : JobControlBlock) (code : Z) (normally : bool)
  : JobControlBlock :=
  mkJobControlBlock (jobId job) (command job) (pgid job) (processes job)
    (state job) (notified job) (savedModes job) (hasSavedModes job)
    code normally (stoppedBySignal job) (stopSignal job)
    (streams job) (startTime job) (endTime job).

Definition set_endTime (job : JobControlBlock) (t : Z) : JobControlBlock :=
  mkJobControlBlock (jobId job) (command job) (pgid job) (processes job)
    (state job) (notified job) (savedModes job) (hasSavedModes job)
    (exitCode job) (exitedNormally job) (stoppedBySignal job)
    (stopSignal job) (streams job) (startTime job) t.

End JobControlBlock.

Module JobManager.

Definition getJob (jm : JobManager) (id : Z) : option JobControlBlock :=
  jobs jm !! id.

Definition set_job (jm : JobManager) (id : Z) (job : JobControlBlock)
  : JobManager :=
  mkJobManager (<[id := job]> (jobs jm)) (nextJobId jm) (statusCallbacks jm)
    (ttyFd jm) (shellPgid jm) (shellModes jm) (inRawMode jm) (hasTty jm).

Definition notifyStatusChange (jm : JobManager) (w : World) (id : Z)
    (oldState newState : JobState) : World :=
  World.notify w (statusCallbacks jm) id oldState newState.

(** [foreground(jobId)]. *)
Definition foreground (jm : JobManager) (w : World) (id : Z)
  : bool * JobManager * World :=
  match getJob jm id with
  | None => (false, jm, w)
  | Some job =>
      let current := state job in
      let result := StateMachine.transition current FG_CMD in
      if negb (valid result) then (false, jm, w)
      else
        let w1 :=
          if decide (current = STOPPED)
          then World.kill w (- pgid job) SIGCONT else w in
        let w2 :=
          if hasTty jm then
            let w' := World.tcsetpgrp w1 (pgid job) in
            if hasSavedModes job
            then World.tcsetattr w' (savedModes job) else w'
          else w1 in
        let job1 :=
          JobControlBlock.set_streams job
            (StreamController.setForegroundMode (streams job) true) in
        let oldState := state job1 in
        let job2 := JobControlBlock.set_state job1 (newState result) in
        (true, set_job jm id job2,
         notifyStatusChange jm w2 id oldState (newState result))
  end.

(** [background(jobId, resume)]. *)
Definition background (jm : JobManager) (w : World) (id : Z) (resume : bool)
  : bool * JobManager * World :=
  match getJob jm id with
  | None => (false, jm, w)
  | Some job =>
      let current := state job in
      let result := StateMachine.transition current BG_CMD in
      if negb (valid result) then (false, jm, w)
      else
        let w1 :=
          if resume && bool_decide (current = STOPPED)
          then World.kill w (- pgid job) SIGCONT else w in
        let w2 :=
          if hasTty jm then World.tcsetpgrp w1 (shellPgid jm) else w1 in
        let job1 :=
          JobControlBlock.set_streams job
            (StreamController.setForegroundMode (streams job) false) in
        let oldState := state job1 in
        let job2 := JobControlBlock.set_state job1 (newState result) in
        (true, set_job jm id job2,
         notifyStatusChange jm w2 id oldState (newState result))
  end.

(** The body of the loop of [reapJob] for one process: [answer] is what
    [waitpid(proc.pid, &status, WNOHANG)] returns and the status it
    stores. *)
Definition reap_one (job : JobControlBlock)
    (proc_answer : ProcessHandle * (Z * Z)) : JobControlBlock :=
  let '(proc, (ret, status)) := proc_answer in
  if pid proc >? 0 then
    if ret >? 0 then
      if WIFEXITED status
      then JobControlBlock.set_exit job (WEXITSTATUS status) true
      else if WIFSIGNALED status
      then JobControlBlock.set_exit job (128 + WTERMSIG status) false
      else job
    else job
  else job.

(** [reapJob(job)]: [answers] are the answers of [waitpid] for the
    processes of the job, in order (a process left without an answer is
    one [waitpid] has nothing to report for), and [now] the clock. *)
Definition reapJob (jm : JobManager) (w : World) (job : JobControlBlock)
    (answers : list (Z * Z)) (now : Z) : JobControlBlock * World :=
  let job1 := foldl reap_one job (zip (processes job) answers) in
  let job2 := JobControlBlock.set_endTime job1 now in
  let oldState := state job2 in
  (JobControlBlock.set_state job2 TERMINATED,
   notifyStatusChange jm w (jobId job) oldState TERMINATED).

End JobManager.

(* ===================================================================== *)
(** ** Hosts and observations used to exercise the controller             *)
(* ===================================================================== *)

(** A process whose open descriptors are [0 .. n - 1], as inherited from
    its own parent (ends of pipes numbered from 100 on). *)
Definition host_with (n : nat) : Host :=
  mkHost
    (list_to_map
       (map (fun i => (Z.of_nat i, mkDescriptor (100 + i) WriteEnd false))
            (seq 0 n)))
    ∅ 0 1024 0.

(** The pipe and the end behind each descriptor of a list. *)
Definition ends_at (h : Host) (l : list Z) : list (option (nat * PipeEnd)) :=
  map (fun fd => (fun d => (d_pipe d, d_end d)) <$> fdtable h !! fd) l.

(** A controller before [createPipes]; its rings play no part here. *)
Definition blank_controller : StreamController :=
  mkStreamController HexStreamPipes.new [] (replicate 4 None) [] true.

(** The calls a client can make on a controller once its pipes exist
    ([createPipes], which makes new pipes, is not among them). *)
Inductive Call : Type :=
| CallSetupParent
| CallStartDraining
| CallStopDraining
| CallWriteStdin (data : list Z)
| CallCloseStdin
| CallReadBuffer (stream : StreamIndex) (maxSize : Z)
| CallSetForegroundMode (foreground : bool)
| CallClose.

Definition call (st : StreamController * Host) (c : Call)
  : StreamController * Host :=
  let '(sc, h) := st in
  match c with
  | CallSetupParent =>
      let '(_, sc1, h1) := StreamController.setupParent sc h in (sc1, h1)
  | CallStartDraining => ((StreamController.startDraining sc).2, h)
  | CallStopDraining => (StreamController.stopDraining sc, h)
  | CallWriteStdin data => (sc, (StreamController.writeStdin sc h data).2)
  | CallCloseStdin => StreamController.closeStdin sc h
  | CallReadBuffer stream maxSize =>
      ((StreamController.readBuffer sc stream maxSize).1, h)
  | CallSetForegroundMode foreground =>
      (StreamController.setForegroundMode sc foreground, h)
  | CallClose => StreamController.close sc h
  end.

(* ===================================================================== *)
(** ** Executions: a producer, the drainer and the consumer of a ring     *)
(* ===================================================================== *)

(** Successive [write] calls on a ring nobody reads, with the total
    number of bytes accepted. *)
Fixpoint write_all (rb : RingBuffer) (chunks : list (list Z))
  : RingBuffer * Z :=
  match chunks with
  | [] => (rb, 0)
  | data :: chunks' =>
      let '(rb1, n) := RingBuffer.write rb data in
      let '(rb2, m) := write_all rb1 chunks' in
      (rb2, n + m)
  end.

(** The number of bytes in a list of chunks. *)
Fixpoint total_bytes (chunks : list (list Z)) : Z :=
  match chunks with
  | [] => 0
  | data :: chunks' => Z.of_nat (length data) + total_bytes chunks'
  end.

(** A step of an execution around one drainer and its ring: the drainer
    reads [data] from its endpoint in a turn of its loop, or the consumer
    calls [read] for up to [k] bytes. *)
Inductive Step : Type :=
| Produce (data : list Z)
| Consume (k : Z).

(** The states the execution goes through, and the number of bytes the
    ring did not accept along the way (produced minus observed). *)
Fixpoint run (d : StreamDrainer) (rb : RingBuffer) (steps : list Step)
  : StreamDrainer * RingBuffer * Z :=
  match steps with
  | [] => (d, rb, 0)
  | Produce data :: steps' =>
      let lost := Z.of_nat (length data) - (RingBuffer.write rb data).2 in
      let '(d1, rb1, _) := StreamDrainer.turn d rb (data_turn data) in
      let '(d2, rb2, dropped) := run d1 rb1 steps' in
      (d2, rb2, lost + dropped)
  | Consume k :: steps' =>
      run d (RingBuffer.read rb k).1 steps'
  end.

(** The number of bytes the drainer read from its endpoint along an
    execution. *)
Fixpoint produced (steps : list Step) : Z :=
  match steps with
  | [] => 0
  | Produce data :: steps' => Z.of_nat (length data) + produced steps'
  | Consume _ :: steps' => produced steps'
  end.

(** Chunks a single [read] of the drainer can return. *)
Definition readable_chunk (data : list Z) : Prop :=
  0 < Z.of_nat (length data) <= READ_BUFFER_SIZE.

Definition readable_step (s : Step) : Prop :=
  match s with
  | Produce data => readable_chunk data
  | Consume k => 0 <= k
  end.

(** The drop counter the design document asks for: a quantity observable
    on the drainer and its ring that grows, along every execution in drop
    mode, by exactly the number of bytes that were produced but not
    accepted into the ring. *)
Definition is_drop_counter (counter : StreamDrainer -> RingBuffer -> Z)
  : Prop :=
  forall (d : StreamDrainer) (rb : RingBuffer) (steps : list Step),
    RingBuffer.wf rb ->
    dropOnOverflow_ d = true ->
    Forall readable_step steps ->
    counter (run d rb steps).1.1 (run d rb steps).1.2 =
      counter d rb + (run d rb steps).2.

(** What a drop-mode drainer and its ring look like after a stretch of
    the loop, next to what they were before: the ring has gained the
    bytes read from the endpoint, as far as they fit. *)
Definition filled_by (d : StreamDrainer) (rb : RingBuffer)
    (d' : StreamDrainer) (rb' : RingBuffer) : Prop :=
  RingBuffer.wf rb' /\ capacity rb' = capacity rb /\ dropOnOverflow_ d' = true /\
  bytesTransferred_ d <= bytesTransferred_ d' /\
  RingBuffer.available rb' =
    Z.min (RingBuffer.available rb + (bytesTransferred_ d' - bytesTransferred_ d))
      (capacity rb - 1).

(* ===================================================================== *)
(** ** The unread bytes of a ring, and runs of ring operations            *)
(* ===================================================================== *)

(** The bytes of a ring that are written and not yet read, oldest first:
    what [peek] shows when asked for all of them. *)
Definition contents (rb : RingBuffer) : list Z :=
  RingBuffer.peek rb (RingBuffer.available rb).

(** A call on a ring: [write(data, size)] or [read(data, maxSize)]. *)
Inductive RingOp : Type :=
| RingWrite (data : list Z)
| RingRead (maxSize : Z).

(** [maxSize] is a [size_t]. *)
Definition ring_op_ok (op : RingOp) : Prop :=
  match op with
  | RingWrite _ => True
  | RingRead maxSize => 0 <= maxSize
  end.

(** A sequence of calls on a ring: the ring at the end, the bytes the
    reads returned and the bytes the writes accepted, both in order. *)
Fixpoint ring_run (rb : RingBuffer) (ops : list RingOp)
  : RingBuffer * list Z * list Z :=
  match ops with
  | [] => (rb, [], [])
  | RingWrite data :: ops' =>
      let '(rb1, n) := RingBuffer.write rb data in
      let '(rb2, out, acc) := ring_run rb1 ops' in
      (rb2, out, take (Z.to_nat n) data ++ acc)
  | RingRead maxSize :: ops' =>
      let '(rb1, got) := RingBuffer.read rb maxSize in
      let '(rb2, out, acc) := ring_run rb1 ops' in
      (rb2, got ++ out, acc)
  end.

(* ===================================================================== *)
(** ** stream_controller.cpp : statistics, callbacks and flushing         *)
(* ===================================================================== *)

(** The six streams, in the order of their indices. *)
Definition all_streams : list StreamIndex :=
  [STDIN; STDOUT; STDERR; STDDBG; STDDATI; STDDATO].

Module StreamControllerOps.

(** [getTotalBytesTransferred]: the sum over the drainers that exist. *)
Definition getTotalBytesTransferred (sc : StreamController) : Z :=
  foldl (fun total d =>
           match d with
           | Some dr => size_t (total + StreamDrainer.bytesTransferred dr)
           | None => total
           end) 0 (drainers sc).

(** [getActiveThreadCount]: the drainers that exist and are in their
    loop. *)
Definition getActiveThreadCount (sc : StreamController) : Z :=
  foldl (fun count d =>
           match d with
           | Some dr => if StreamDrainer.isActive dr then count + 1 else count
           | None => count
           end) 0 (drainers sc).

(** [onData]: the callback is appended to the list. *)
Definition onData (sc : StreamController) (callback : nat)
  : StreamController :=
  mkStreamController (pipes sc) (buffers sc) (drainers sc)
    (callbacks sc ++ [callback]) (foregroundMode sc).

(** [notifyData]: every callback is called with the stream and the
    bytes, in the order of registration.  A call is recorded as the
    callback, the stream and the bytes. *)
Definition notifyData (sc : StreamController) (stream : StreamIndex)
    (data : list Z) : list (nat * StreamIndex * list Z) :=
  map (fun cb => (cb, stream, data)) (callbacks sc).

(** The loop [while (!buffers[i]->empty())] of [flushBuffers] on one
    ring, with the chunks it hands to [notifyData]. *)
Fixpoint flush_ring (fuel : nat) (rb : RingBuffer)
  : RingBuffer * list (list Z) :=
  match fuel with
  | O => (rb, [])
  | S fuel' =>
      if RingBuffer.empty rb then (rb, [])
      else
        let '(rb1, got) := RingBuffer.read rb READ_BUFFER_SIZE in
        let '(rb2, chunks) := flush_ring fuel' rb1 in
        (rb2, if 0 <? Z.of_nat (length got) then got :: chunks else chunks)
  end.

(** The body of the outer loop of [flushBuffers] for one stream.  Every
    turn of the inner loop on a ring that is not empty removes a byte, so
    as many turns as there are unread bytes end it. *)
Definition flush_stream (acc : StreamController * list (nat * StreamIndex * list Z))
    (stream : StreamIndex)
  : StreamController * list (nat * StreamIndex * list Z) :=
  let '(sc, calls) := acc in
  let rb := StreamController.ring sc stream in
  let '(rb', chunks) :=
    flush_ring (Z.to_nat (RingBuffer.available rb)) rb in
  (StreamController.set_buffers sc
     (<[stream_int stream := rb']> (buffers sc)),
   calls ++ concat (map (notifyData sc stream) chunks)).

Definition flushBuffers (sc : StreamController)
  : StreamController * list (nat * StreamIndex * list Z) :=
  foldl flush_stream (sc, []) all_streams.

End StreamControllerOps.

(** The bytes one callback received for one stream, in order. *)
Definition delivered (calls : list (nat * StreamIndex * list Z))
    (cb : nat) (stream : StreamIndex) : list Z :=
  concat (omap (fun c => if decide (c.1.1 = cb /\ c.1.2 = stream)
                         then Some c.2 else None) calls).

(* ===================================================================== *)
(** ** stream_controller.cpp : the back-pressure loop, observed           *)
(* ===================================================================== *)

(** The back-pressure loop of [drainLoop] once more, with two
    observations added: the bytes the consumer took out of the ring
    while the loop ran, and the bytes still unwritten when the loop is
    left. *)
Fixpoint backpressure_log (rb : RingBuffer) (remainingData : list Z)
    (ys : list Yield) : RingBuffer * list Z * list Z :=
  match remainingData, ys with
  | [], _ => (rb, [], [])
  | _, [] => (rb, [], remainingData)
  | _, StopRequested :: _ => (rb, [], remainingData)
  | _, ConsumerReads k :: ys' =>
      let '(rb1, chunk) := RingBuffer.write rb remainingData in
      let '(rb2, taken) := RingBuffer.read rb1 k in
      let '(rb3, consumed, unwritten) :=
        backpressure_log rb2
          (if chunk =? 0 then remainingData
           else drop (Z.to_nat chunk) remainingData) ys' in
      (rb3, taken ++ consumed, unwritten)
  end.

(** A consumer asks for a number of bytes that is not negative. *)
Definition yield_ok (y : Yield) : Prop :=
  match y with
  | StopRequested => True
  | ConsumerReads k => 0 <= k
  end.

(** What a drainer never changes about itself and its ring. *)
Definition same_drainer (d d' : StreamDrainer) : Prop :=
  stream_ d' = stream_ d /\ fd_ d' = fd_ d /\
  dropOnOverflow_ d' = dropOnOverflow_ d.

(* ===================================================================== *)
(** ** The host: a write to a pipe that other processes share             *)
(* ===================================================================== *)

Definition EPIPE : Z := 32.

(** What a [Host] does not show of the system it runs in: whether a
    process other than this one holds a read end of pipe [q] open (after
    [fork] the child does, for the pipes of its streams), and how many
    bytes pipe [q] holds at most. *)
Record Outside : Type := mkOutside {
  reader_elsewhere : nat -> bool;
  pipe_capacity : nat -> Z
}.

(** Whether a descriptor of the table is a read end of pipe [q]. *)
Definition holds_read_end (t : gmap Z Descriptor) (q : nat) : bool :=
  bool_decide
    (Exists (fun entry => d_pipe entry.2 = q /\ d_end entry.2 = ReadEnd)
       (map_to_list t)).

Module SysPipe.

(** [write(fd, data, size)] on a blocking descriptor, as the kernel
    answers it.  The result is the returned value, the host after the
    call and whether [SIGPIPE] was raised; there is none when the call
    waits for a reader to make room.  A descriptor that is not an open
    write end fails with [EBADF]; a write of no bytes returns 0; a write
    to a pipe no read end of which is open anywhere raises [SIGPIPE] and,
    if the process survives it, returns -1 with [EPIPE]; otherwise the
    bytes are queued behind those in the pipe and their number is
    returned once all of them fit. *)
Definition write (out : Outside) (h : Host) (fd : Z) (data : list Z)
  : option (Z * Host * bool) :=
  if fd <? 0 then Some (-1, Sys.set_errno h EBADF, false)
  else
    match fdtable h !! fd with
    | Some (mkDescriptor p WriteEnd _) =>
        let size := Z.of_nat (length data) in
        let queued := default [] (pipedata h !! p) in
        if size =? 0 then Some (0, h, false)
        else if negb (holds_read_end (fdtable h) p || reader_elsewhere out p)
        then Some (-1, Sys.set_errno h EPIPE, true)
        else if Z.of_nat (length queued) + size <=? pipe_capacity out p
        then
          Some (size,
                mkHost (fdtable h) (<[p := queued ++ data]> (pipedata h))
                  (next_pipe h) (nofile h) (errno h),
                false)
        else None
    | _ => Some (-1, Sys.set_errno h EBADF, false)
    end.

End SysPipe.

Module StreamControllerIO.

(** [writeStdin]: [write(pipes.fds[1], data, size)], in a system. *)
Definition writeStdin (out : Outside) (sc : StreamController) (h : Host)
    (data : list Z) : option (Z * Host * bool) :=
  SysPipe.write out h (HexStreamPipes.get (pipes sc) 1) data.

End StreamControllerIO.

(* ===================================================================== *)
(** ** job_state.cpp : a job's state along a sequence of events           *)
(* ===================================================================== *)

(** The state of a job after the events of [es], each applied with
    [StateMachine::transition] to the state the one before gave; [None]
    as soon as one of them is refused. *)
Fixpoint after_events (s : JobState) (es : list JobEvent)
  : option JobState :=
  match es with
  | [] => Some s
  | e :: es' =>
      let result := StateMachine.transition s e in
      if valid result then after_events (newState result) es' else None
  end.

(* ===================================================================== *)
(** ** hexstream/process.hpp / .cpp : HexStreamPipeline                   *)
(* ===================================================================== *)

Record Connection : Type := mkConnection {
  srcIdx : nat;
  dstIdx : nat;
  conn_stream : StreamIndex
}.

Record HexStreamPipeline : Type := mkHexStreamPipeline {
  processes_ : list HexStreamProcess;
  connections_ : list Connection
}.

Module HexStreamPipeline.

(** [addProcess(config)]: the index of the new process and the pipeline
    with it. *)
Definition addProcess (pl : HexStreamPipeline) (config : ProcessConfig)
  : nat * HexStreamPipeline :=
  (length (processes_ pl),
   mkHexStreamPipeline (processes_ pl ++ [HexStreamProcess.new config])
     (connections_ pl)).

Definition connect (pl : HexStreamPipeline) (src dst : nat)
    (stream : StreamIndex) : HexStreamPipeline :=
  mkHexStreamPipeline (processes_ pl)
    (connections_ pl ++ [mkConnection src dst stream]).

(** The body of the loop of [waitAll] for one process; [status_of pid] is
    the status [waitpid] stores for the process [pid]. *)
Definition wait_next (status_of : Z -> Z)
    (acc : list Z * list HexStreamProcess * list Effect)
    (proc : HexStreamProcess)
  : list Z * list HexStreamProcess * list Effect :=
  let '(exitCodes, waited, effects) := acc in
  let '(code, proc', effs) :=
    HexStreamProcess.wait proc (status_of (pid_ proc)) in
  (exitCodes ++ [code], waited ++ [proc'], effects ++ effs).

(** [waitAll()]: the exit codes, the pipeline after the call and the
    effects of the call. *)
Definition waitAll (pl : HexStreamPipeline) (status_of : Z -> Z)
  : list Z * HexStreamPipeline * list Effect :=
  let '(exitCodes, waited, effects) :=
    foldl (wait_next status_of) ([], [], []) (processes_ pl) in
  (exitCodes, mkHexStreamPipeline waited (connections_ pl), effects).

End HexStreamPipeline.

(* ===================================================================== *)
(** ** job_control.cpp : the terminal modes of the shell                  *)
(* ===================================================================== *)

(** <termios.h> on Linux. *)
Definition ISIG : Z := 1.
Definition ICANON : Z := 2.
Definition ECHO : Z := 8.
Definition ICRNL : Z := 256.
Definition IXON : Z := 1024.
Definition VTIME : nat := 5.
Definition VMIN : nat := 6.
Definition NCCS : nat := 32.

(** [flags &= ~(mask)] on a [tcflag_t], an unsigned integer of 32 bits. *)
Definition clear_flags (flags mask : Z) : Z :=
  Z.land flags (Z.lnot mask mod 2 ^ 32).

Module JobManagerTerminal.

Definition set_shellModes (jm : JobManager) (modes : termios) : JobManager :=
  mkJobManager (jobs jm) (nextJobId jm) (statusCallbacks jm) (ttyFd jm)
    (shellPgid jm) modes (inRawMode jm) (hasTty jm).

Definition set_inRawMode (jm : JobManager) (raw : bool) : JobManager :=
  mkJobManager (jobs jm) (nextJobId jm) (statusCallbacks jm) (ttyFd jm)
    (shellPgid jm) (shellModes jm) raw (hasTty jm).

(** In the four functions below [attr_ok] tells whether the call of
    [tcgetattr] or [tcsetattr] succeeds; a call that fails leaves the
    terminal and the structure it was given as they were. *)

Definition saveTerminalModes (jm : JobManager) (w : World) (attr_ok : bool)
  : bool * JobManager :=
  if negb (hasTty jm) then (true, jm)
  else if attr_ok then (true, set_shellModes jm (tty_modes w))
  else (false, jm).

Definition restoreTerminalModes (jm : JobManager) (w : World)
    (attr_ok : bool) : bool * World :=
  if negb (hasTty jm) then (true, w)
  else if attr_ok then (true, World.tcsetattr w (shellModes jm))
  else (false, w).

(** The modes [enterRawMode] builds from the modes of the shell. *)
Definition raw_modes (modes : termios) : termios :=
  mkTermios
    (clear_flags (c_iflag modes) (Z.lor IXON ICRNL))
    (c_oflag modes)
    (c_cflag modes)
    (clear_flags (c_lflag modes) (Z.lor (Z.lor ICANON ECHO) ISIG))
    (<[VTIME := 0]> (<[VMIN := 1]> (c_cc modes))).

Definition enterRawMode (jm : JobManager) (w : World) (attr_ok : bool)
  : bool * JobManager * World :=
  if negb (hasTty jm) then (true, jm, w)
  else
    let raw := raw_modes (shellModes jm) in
    if attr_ok
    then (true, set_inRawMode jm true, World.tcsetattr w raw)
    else (false, jm, w).

Definition exitRawMode (jm : JobManager) (w : World) (attr_ok : bool)
  : bool * JobManager * World :=
  if negb (hasTty jm) then (true, jm, w)
  else if attr_ok
  then (true, set_inRawMode jm false, World.tcsetattr w (shellModes jm))
  else (false, jm, w).

End JobManagerTerminal.

(** A [termios] as the kernel hands it out: flags of 32 bits and [NCCS]
    control characters. *)
Definition termios_ok (modes : termios) : Prop :=
  0 <= c_iflag modes < 2 ^ 32 /\ 0 <= c_lflag modes < 2 ^ 32 /\
  length (c_cc modes) = NCCS.

(* ===================================================================== *)
(** ** job_control.cpp : JobManager::spawn, in the shell's process        *)
(* ===================================================================== *)

(** The fields of [SpawnOptions] that [spawn] reads. *)
Record SpawnOptions : Type := mkSpawnOptions {
  opt_command : string;
  opt_args : list string;
  opt_background : bool;
  opt_createPipeGroup : bool
}.

(** [std::make_unique<JobControlBlock>()] initialises the block's
    [savedModes] with zeros. *)
Definition zero_termios : termios := mkTermios 0 0 0 0 (replicate NCCS 0).

(** What a descriptor of the shell refers to: an end of a pipe, as the
    descriptors of a [Host] do, or a child process (a pidfd). *)
Inductive OpenFile : Type :=
  | PipeFile (d : Descriptor)
  | PidFile (child : Z).

(** What a call of [spawn] leaves in the shell: the returned job id, the
    manager, the kernel's pipes with the shell's ends of them
    ([sp_host]), every descriptor the shell holds ([sp_files]: those of
    [sp_host] and the pidfd, when [pidfd_open] made one), what
    [epoll_ctl] was asked to add (a descriptor and the job id attached
    to it) and the world. *)
Record Spawned : Type := mkSpawned {
  sp_jobId : Z;
  sp_manager : JobManager;
  sp_host : Host;
  sp_files : gmap Z OpenFile;
  sp_registered : option (Z * Z);
  sp_world : World
}.

Module JobManagerSpawn.

Definition set_nextJobId (jm : JobManager) (n : Z) : JobManager :=
  mkJobManager (jobs jm) n (statusCallbacks jm) (ttyFd jm) (shellPgid jm)
    (shellModes jm) (inRawMode jm) (hasTty jm).

(** [syscall(SYS_pidfd_open, pid, 0)] in a process whose descriptors are
    those of [h]: the lowest free descriptor, or -1 when the kernel does
    not grant the call ([granted] false: it does not know the call, or
    lacks memory) or the descriptor limit is reached. *)
Definition pidfd_open (h : Host) (granted : bool) : Z :=
  let fd := Sys.alloc_fd (fdtable h) in
  if granted && (fd <? nofile h) then fd else -1.

(** [spawn(options)] as it runs in the shell: [pid] is what [fork]
    returns there (negative when it fails, the child's pid otherwise),
    [granted] tells whether the kernel grants [pidfd_open], [epollFd] is
    [impl->epollFd] and [now] the clock.  On the two failing paths the
    job control block is destroyed on return, and its stream controller
    with it, whose destructor closes the pipes.  The descriptor of the
    pidfd is allocated after the pipes are made and before
    [setupParent] closes the child's ends; it is none of the pipes'
    descriptors, so that closing these leaves it open. *)
Definition spawn (jm : JobManager) (h : Host) (w : World)
    (options : SpawnOptions) (pid : Z) (granted : bool) (epollFd now : Z)
  : Spawned :=
  let jobId := nextJobId jm in
  let jm1 := set_nextJobId jm ((jobId + 1) mod 2 ^ 32) in
  let st := if opt_background options then BACKGROUND else FOREGROUND in
  match StreamController.createPipes StreamController.new h with
  | (false, sc1, h1) =>
      let h2 := (StreamController.close sc1 h1).2 in
      mkSpawned 0 jm1 h2 (PipeFile <$> fdtable h2) None w
  | (true, sc1, h1) =>
      if pid <? 0
      then
        let h2 := (StreamController.close sc1 h1).2 in
        mkSpawned 0 jm1 h2 (PipeFile <$> fdtable h2) None w
      else
        let childfd := pidfd_open h1 granted in
        let registered :=
          if (childfd >=? 0) && (epollFd >=? 0)
          then Some (childfd, jobId) else None in
        let '(_, sc2, h2) := StreamController.setupParent sc1 h1 in
        let files :=
          if childfd >=? 0
          then <[childfd := PidFile pid]> (PipeFile <$> fdtable h2)
          else PipeFile <$> fdtable h2 in
        let sc3 := (StreamController.startDraining sc2).2 in
        let saves := negb (opt_background options) && hasTty jm in
        let w1 := if saves then World.tcsetpgrp w pid else w in
        let sc4 :=
          StreamController.setForegroundMode sc3
            (negb (opt_background options)) in
        let jcb :=
          mkJobControlBlock jobId (opt_command options) pid
            [mkProcessHandle childfd pid] st false
            (if saves then tty_modes w else zero_termios) saves
            0 false false 0 sc4 now 0 in
        mkSpawned jobId (JobManager.set_job jm1 jobId jcb) h2 files
          registered w1
  end.

End JobManagerSpawn.

(* ===================================================================== *)
(** ** Small instances used to exercise the theorems                      *)
(* ===================================================================== *)

(** A ring of capacity 5 whose three unread bytes [10; 20; 30] wrap
    around the end of the storage. *)
Definition ring_wrapped : RingBuffer :=
  mkRingBuffer [30; 40; 50; 10; 20] 3 1 5.

(** A controller with small rings, unread bytes on [STDOUT] and one
    callback. *)
Definition small_controller : StreamController :=
  StreamControllerOps.onData
    (mkStreamController HexStreamPipes.new
       [RingBuffer.new 4; ring_wrapped; RingBuffer.new 4;
        RingBuffer.new 4; RingBuffer.new 4; RingBuffer.new 4]
       (replicate 4 None) [] true)
    7.

(** A job that is stopped, in a manager that has a terminal. *)
Definition stopped_job : JobControlBlock :=
  mkJobControlBlock 1 "sleep" 4242 [mkProcessHandle 7 4242] STOPPED
    false (mkTermios 0 0 0 0 []) true 0 true false 0 blank_controller 10 20.

Definition one_job_manager : JobManager :=
  mkJobManager {[1 := stopped_job]} 2 [0%nat] 3 100
    (mkTermios 1280 5 191 35387 (replicate 32 0)) false true.

Definition quiet_world : World :=
  mkWorld 100 (mkTermios 1280 5 191 35387 (replicate 32 0)) [] [].

(* ===================================================================== *)
(** * Theorems                                                            *)
(* ===================================================================== *)

(** C1. For every state and every one of the ten events of the table,
    [StateMachine::transition] returns a valid result carrying exactly the
    state of the table's cell, and an invalid result ([valid = false]) for
    every dash; being a function, equal inputs give equal results. *)
Theorem transition_matches_table :
  forall (s : JobState) (e : JobEvent),
    e ∈ table_events ->
    outcome (StateMachine.transition s e) = table_cell s e /\
    (forall s', table_cell s e = Some s' ->
       valid (StateMachine.transition s e) = true /\
       newState (StateMachine.transition s e) = s') /\
    (table_cell s e = None ->
       valid (StateMachine.transition s e) = false).
Proof.
  intros s e _.
  destruct s, e; cbn; (split; [reflexivity|]); split;
    intros; simplify_eq; auto.
Qed.

Lemma transition_matches_table_witness :
  outcome (StateMachine.transition STOPPED FG_CMD) = Some FOREGROUND /\
  valid (StateMachine.transition FOREGROUND FG_CMD) = false.
Proof.
  split.
  - apply (transition_matches_table STOPPED FG_CMD).
    unfold table_events. set_solver.
  - apply (transition_matches_table FOREGROUND FG_CMD); [|reflexivity].
    unfold table_events. set_solver.
Defined.

(* --------------------------------------------------------------------- *)
(** ** RingBuffer: counts, positions and contents                         *)
(* --------------------------------------------------------------------- *)

Section RingBufferProofs.
Import RingBuffer.

Local Ltac szlia := unfold PTRDIFF_MAX, SIZE_WIDTH in *; lia.

Lemma size_t_small z : 0 <= z < 2 ^ SIZE_WIDTH -> size_t z = z.
Proof. intros H. unfold size_t. by apply Z.mod_small. Qed.

Lemma memcpy_length dst off src :
  0 <= off -> off + Z.of_nat (length src) <= Z.of_nat (length dst) ->
  length (memcpy dst off src) = length dst.
Proof.
  intros Hoff Hfit. unfold memcpy.
  rewrite !length_app, length_take, length_drop. szlia.
Qed.

Lemma bytes_at_length src from n :
  0 <= from -> 0 <= n -> from + n <= Z.of_nat (length src) ->
  Z.of_nat (length (bytes_at src from n)) = n.
Proof.
  intros Hf Hn Hfit. unfold bytes_at.
  rewrite length_take, length_drop. szlia.
Qed.

Lemma available_wf rb :
  wf rb ->
  available rb = (writePos rb - readPos rb) mod capacity rb /\
  0 <= available rb <= capacity rb - 1.
Proof.
  intros (Hc & _ & Hr & Hw). unfold available.
  destruct (Z.geb_spec (writePos rb) (readPos rb)) as [Hge | Hlt].
  - rewrite size_t_small by szlia. rewrite Z.mod_small by szlia. szlia.
  - rewrite size_t_small by szlia.
    replace (writePos rb - readPos rb)
      with (capacity rb - readPos rb + writePos rb + (-1) * capacity rb) by szlia.
    rewrite Z.mod_add by szlia. rewrite Z.mod_small by szlia. szlia.
Qed.

Lemma freeSpace_wf rb :
  wf rb -> freeSpace rb = capacity rb - 1 - available rb.
Proof.
  intros Hwf. destruct (available_wf rb Hwf) as [_ Hav].
  destruct Hwf as (Hc & _). unfold freeSpace.
  rewrite size_t_small by szlia. szlia.
Qed.

Lemma write_count rb data :
  wf rb ->
  (write rb data).2 = Z.min (Z.of_nat (length data)) (freeSpace rb).
Proof.
  intros Hwf. unfold write.
  destruct (Z.eqb_spec (Z.min (Z.of_nat (length data)) (freeSpace rb)) 0)
    as [-> | _]; reflexivity.
Qed.

Lemma write_accepts_bounds rb data :
  wf rb ->
  0 <= (write rb data).2 <= Z.of_nat (length data) /\
  (write rb data).2 <= freeSpace rb.
Proof.
  intros Hwf. rewrite write_count by done.
  pose proof (freeSpace_wf rb Hwf). destruct (available_wf rb Hwf). szlia.
Qed.

Lemma write_positions rb data :
  wf rb ->
  readPos (write rb data).1 = readPos rb /\
  capacity (write rb data).1 = capacity rb /\
  writePos (write rb data).1 =
    (writePos rb + (write rb data).2) mod capacity rb.
Proof.
  intros Hwf.
  pose proof (write_accepts_bounds rb data Hwf) as [Hn Hfree].
  pose proof (freeSpace_wf rb Hwf) as Hfs.
  destruct (available_wf rb Hwf) as [_ Hav].
  destruct Hwf as (Hc & _ & _ & Hw).
  revert Hn Hfree. unfold write.
  destruct (Z.eqb_spec (Z.min (Z.of_nat (length data)) (freeSpace rb)) 0)
    as [Hz | Hnz]; cbn [fst snd readPos capacity writePos]; intros Hn Hfree.
  - rewrite Z.add_0_r, Z.mod_small by szlia. done.
  - rewrite size_t_small by szlia. done.
Qed.

Lemma write_length rb data :
  wf rb -> length (buffer (write rb data).1) = length (buffer rb).
Proof.
  intros Hwf.
  pose proof (write_accepts_bounds rb data Hwf) as [Hn Hfree].
  pose proof (freeSpace_wf rb Hwf) as Hfs.
  destruct (available_wf rb Hwf) as [_ Hav].
  destruct Hwf as (Hc & Hlen & _ & Hw).
  revert Hn Hfree. unfold write.
  set (toWrite := Z.min (Z.of_nat (length data)) (freeSpace rb)).
  destruct (Z.eqb_spec toWrite 0) as [Hz | Hnz];
    cbn [fst snd buffer]; intros Hn Hfree; [done|].
  rewrite (size_t_small (capacity rb - writePos rb)) by szlia.
  set (firstPart := Z.min toWrite (capacity rb - writePos rb)).
  assert (Hfp : Z.of_nat (length (bytes_at data 0 firstPart)) = firstPart)
    by (apply bytes_at_length; szlia).
  assert (Hl1 : length (memcpy (buffer rb) (writePos rb)
                          (bytes_at data 0 firstPart)) = length (buffer rb))
    by (apply memcpy_length; szlia).
  destruct (Z.gtb_spec toWrite firstPart) as [Hgt | Hle]; [|done].
  rewrite memcpy_length; [done | szlia |].
  rewrite bytes_at_length by szlia. szlia.
Qed.

Lemma write_wf rb data : wf rb -> wf (write rb data).1.
Proof.
  intros Hwf.
  destruct (write_positions rb data Hwf) as (Hr & Hc & Hw).
  pose proof (write_length rb data Hwf) as Hl.
  destruct Hwf as (Hcap & Hlen & Hrp & Hwp).
  unfold wf. rewrite Hr, Hc, Hw, Hl.
  pose proof (Z.mod_pos_bound (writePos rb + (write rb data).2) (capacity rb)).
  szlia.
Qed.

Lemma write_available rb data :
  wf rb ->
  available (write rb data).1 = available rb + (write rb data).2.
Proof.
  intros Hwf.
  pose proof (write_accepts_bounds rb data Hwf) as [Hn Hfree].
  pose proof (freeSpace_wf rb Hwf) as Hfs.
  destruct (available_wf (write rb data).1 (write_wf rb data Hwf)) as [-> _].
  destruct (available_wf rb Hwf) as [Hav Hab].
  destruct (write_positions rb data Hwf) as (-> & -> & ->).
  rewrite Zminus_mod_idemp_l.
  replace (writePos rb + (write rb data).2 - readPos rb)
    with ((writePos rb - readPos rb) + (write rb data).2) by szlia.
  rewrite <- Zplus_mod_idemp_l, <- Hav.
  apply Z.mod_small. szlia.
Qed.

Lemma bytes_at_memcpy_same dst off src n :
  0 <= off <= Z.of_nat (length dst) -> n = Z.of_nat (length src) ->
  bytes_at (memcpy dst off src) off n = src.
Proof.
  intros Hoff ->. unfold bytes_at, memcpy.
  rewrite drop_app_length' by (rewrite length_take; lia).
  apply take_app_length'. lia.
Qed.

Lemma bytes_at_memcpy_after dst off src a n :
  0 <= off -> off + Z.of_nat (length src) <= a ->
  a <= Z.of_nat (length dst) ->
  bytes_at (memcpy dst off src) a n = bytes_at dst a n.
Proof.
  intros Hoff Ha Hfit. unfold bytes_at, memcpy. f_equal.
  rewrite app_assoc.
  rewrite drop_app_ge by (rewrite length_app, length_take; lia).
  rewrite length_app, length_take, drop_drop. f_equal. lia.
Qed.

Lemma bytes_at_prefix data n : bytes_at data 0 n = take (Z.to_nat n) data.
Proof. unfold bytes_at. by rewrite drop_0. Qed.

Lemma bytes_at_split data f n :
  0 <= f <= n ->
  bytes_at data 0 f ++ bytes_at data f (n - f) = take (Z.to_nat n) data.
Proof.
  intros Hf. unfold bytes_at. rewrite drop_0, take_take_drop.
  f_equal. lia.
Qed.

Lemma read_positions rb maxSize :
  wf rb -> 0 <= maxSize ->
  buffer (read rb maxSize).1 = buffer rb /\
  writePos (read rb maxSize).1 = writePos rb /\
  capacity (read rb maxSize).1 = capacity rb /\
  readPos (read rb maxSize).1 =
    (readPos rb + Z.min maxSize (available rb)) mod capacity rb.
Proof.
  intros Hwf Hm.
  destruct (available_wf rb Hwf) as [_ Hav].
  destruct Hwf as (Hc & _ & Hr & _).
  unfold read.
  destruct (Z.eqb_spec (Z.min maxSize (available rb)) 0) as [Hz | Hnz];
    cbn [fst buffer readPos writePos capacity].
  - rewrite Hz, Z.add_0_r, Z.mod_small by lia. done.
  - rewrite size_t_small by szlia. done.
Qed.

Lemma read_wf rb maxSize : wf rb -> 0 <= maxSize -> wf (read rb maxSize).1.
Proof.
  intros Hwf Hm.
  destruct (read_positions rb maxSize Hwf Hm) as (Hb & Hw & Hc & Hr).
  destruct Hwf as (Hcap & Hlen & Hrp & Hwp).
  unfold wf. rewrite Hb, Hw, Hc, Hr.
  pose proof (Z.mod_pos_bound
                (readPos rb + Z.min maxSize (available rb)) (capacity rb)).
  lia.
Qed.

Lemma read_available rb maxSize :
  wf rb -> 0 <= maxSize ->
  available (read rb maxSize).1 =
    available rb - Z.min maxSize (available rb).
Proof.
  intros Hwf Hm.
  destruct (available_wf (read rb maxSize).1 (read_wf rb maxSize Hwf Hm))
    as [-> _].
  destruct (available_wf rb Hwf) as [Hav Hab].
  destruct (read_positions rb maxSize Hwf Hm) as (_ & -> & -> & ->).
  rewrite Zminus_mod_idemp_r.
  replace (writePos rb - (readPos rb + Z.min maxSize (available rb)))
    with ((writePos rb - readPos rb) - Z.min maxSize (available rb)) by lia.
  rewrite <- Zminus_mod_idemp_l, <- Hav.
  apply Z.mod_small. lia.
Qed.

Lemma empty_positions rb : wf rb -> empty rb = true -> is_empty rb.
Proof.
  intros (Hc & _ & Hr & Hw) He.
  unfold empty in He. apply Z.eqb_eq in He. revert He.
  unfold available, is_empty.
  destruct (Z.geb_spec (writePos rb) (readPos rb));
    rewrite size_t_small by szlia; lia.
Qed.

Lemma available_empty rb : wf rb -> is_empty rb -> available rb = 0.
Proof.
  intros Hwf He. destruct (available_wf rb Hwf) as [-> _].
  unfold is_empty in He. rewrite He, Z.sub_diag. apply Z.mod_0_l.
  destruct Hwf as (Hc & _). lia.
Qed.

(** The bytes a reader gets back from an empty ring after one write. *)
Lemma write_read_contents rb data maxSize :
  wf rb -> is_empty rb -> (write rb data).2 <= maxSize ->
  (read (write rb data).1 maxSize).2 =
    take (Z.to_nat (write rb data).2) data.
Proof.
  intros Hwf He Hmax.
  pose proof (write_accepts_bounds rb data Hwf) as [Hn Hfree].
  pose proof (freeSpace_wf rb Hwf) as Hfs.
  pose proof (write_available rb data Hwf) as Hav1.
  pose proof (available_empty rb Hwf He) as Hav0.
  rewrite Hav0, Z.add_0_l in Hav1. rewrite Hav0 in Hfs.
  unfold is_empty in He.
  destruct Hwf as (Hc & Hlen & Hr & Hw).
  unfold read at 1. rewrite Hav1.
  rewrite Z.min_r by lia.
  revert Hn Hfree Hmax Hav1. unfold write.
  set (n := Z.min (Z.of_nat (length data)) (freeSpace rb)).
  destruct (Z.eqb_spec n 0) as [Hz | Hnz]; cbn [fst snd];
    intros Hn Hfree Hmax Hav1.
  - done.
  - destruct (Z.eqb_spec n 0) as [? | _]; [done|].
    cbn [snd buffer readPos capacity]. rewrite He.
    rewrite !(size_t_small (capacity rb - writePos rb)) by szlia.
    set (f := Z.min n (capacity rb - writePos rb)).
    assert (Hf : Z.of_nat (length (bytes_at data 0 f)) = f)
      by (apply bytes_at_length; lia).
    destruct (Z.gtb_spec n f) as [Hgt | Hle].
    + assert (Hd2 : Z.of_nat (length (bytes_at data f (n - f))) = n - f)
        by (apply bytes_at_length; lia).
      assert (Hl1 : length (memcpy (buffer rb) (writePos rb)
                              (bytes_at data 0 f)) = length (buffer rb))
        by (apply memcpy_length; lia).
      rewrite bytes_at_memcpy_after by lia.
      rewrite bytes_at_memcpy_same by lia.
      rewrite bytes_at_memcpy_same by lia.
      apply bytes_at_split. lia.
    + rewrite bytes_at_memcpy_same by lia.
      rewrite app_nil_r. replace f with n by lia. apply bytes_at_prefix.
Qed.

(** C5. Writing a byte sequence into an empty ring accepts between 0 and
    [len(data)] bytes; a following read of at least that many bytes
    returns exactly the accepted prefix of [data], in order, and leaves
    [available() = 0]. *)
Theorem ring_write_read_roundtrip rb data maxSize :
  wf rb -> empty rb = true ->
  0 <= (write rb data).2 <= Z.of_nat (length data) /\
  ((write rb data).2 <= maxSize ->
   (read (write rb data).1 maxSize).2 =
     take (Z.to_nat (write rb data).2) data /\
   Z.of_nat (length (read (write rb data).1 maxSize).2) =
     (write rb data).2 /\
   available (read (write rb data).1 maxSize).1 = 0).
Proof.
  intros Hwf Hempty.
  pose proof (empty_positions rb Hwf Hempty) as He.
  pose proof (write_accepts_bounds rb data Hwf) as [Hn _].
  split; [done|]. intros Hmax.
  pose proof (write_read_contents rb data maxSize Hwf He Hmax) as Hout.
  split; [done|]. split.
  - rewrite Hout, length_take. lia.
  - rewrite read_available by (auto using write_wf; lia).
    rewrite write_available, (available_empty rb) by done. lia.
Qed.

Lemma ring_write_read_roundtrip_witness :
  let rb := mkRingBuffer [9; 9; 9; 9; 9] 3 3 5 in
  let data := [1; 2; 3; 4; 5; 6] in
  (write rb data).2 = 4 /\
  (read (write rb data).1 10).2 = [1; 2; 3; 4] /\
  available (read (write rb data).1 10).1 = 0.
Proof.
  intros rb data.
  assert (Hwf : wf rb) by (unfold wf, PTRDIFF_MAX; cbn; lia).
  assert (He : empty rb = true) by reflexivity.
  destruct (ring_write_read_roundtrip rb data 10 Hwf He) as [_ Hread].
  destruct Hread as (Hout & _ & Hav); [vm_compute; discriminate|].
  split; [reflexivity|]. split; [exact Hout | exact Hav].
Defined.

End RingBufferProofs.

(* --------------------------------------------------------------------- *)
(** ** HexStreamPipes                                                     *)
(* --------------------------------------------------------------------- *)

Lemma pipes_get_set_ne p i j v :
  i ≠ j -> HexStreamPipes.get (HexStreamPipes.set p i v) j = HexStreamPipes.get p j.
Proof.
  intros Hne. unfold HexStreamPipes.get, HexStreamPipes.set. cbn [fds].
  by rewrite list_lookup_insert_ne.
Qed.

Lemma pipes_get_set_eq p i v :
  HexStreamPipes.get (HexStreamPipes.set p i v) i = v \/
  (HexStreamPipes.get (HexStreamPipes.set p i v) i = -1 /\
   HexStreamPipes.get p i = -1).
Proof.
  unfold HexStreamPipes.get, HexStreamPipes.set. cbn [fds].
  destruct (decide (i < length (fds p))%nat) as [Hlt | Hge].
  - left. by rewrite list_lookup_insert_eq.
  - right. rewrite list_insert_ge by lia.
    rewrite lookup_ge_None_2 by lia. done.
Qed.

(** C9. [HexStreamPipes::isValid] is true exactly when the descriptors at
    indices 0, 2 and 4 are open (non-negative); changing any other slot
    never changes the answer, and a pipe set whose slots 6 to 11
    (telemetry and data streams) are all closed is still valid. *)
Theorem isValid_reads_slots_0_2_4 :
  forall p : HexStreamPipes,
    (HexStreamPipes.isValid p = true <->
       0 <= HexStreamPipes.get p 0 /\
       0 <= HexStreamPipes.get p 2 /\
       0 <= HexStreamPipes.get p 4) /\
    (forall (i : nat) (v : Z),
       i ≠ 0%nat -> i ≠ 2%nat -> i ≠ 4%nat ->
       HexStreamPipes.isValid (HexStreamPipes.set p i v) =
         HexStreamPipes.isValid p) /\
    (forall a0 a1 a2 a3 a4 a5 : Z,
       0 <= a0 -> 0 <= a2 -> 0 <= a4 ->
       HexStreamPipes.isValid
         (mkHexStreamPipes [a0; a1; a2; a3; a4; a5; -1; -1; -1; -1; -1; -1])
       = true).
Proof.
  intros p. split; [|split].
  - unfold HexStreamPipes.isValid.
    rewrite !andb_true_iff, !Z.geb_le. tauto.
  - intros i v H0 H2 H4. unfold HexStreamPipes.isValid.
    by rewrite !pipes_get_set_ne.
  - intros a0 a1 a2 a3 a4 a5 H0 H2 H4.
    unfold HexStreamPipes.isValid, HexStreamPipes.get. cbn.
    rewrite !andb_true_iff, !Z.geb_le. lia.
Qed.

Lemma isValid_reads_slots_0_2_4_witness :
  HexStreamPipes.isValid
    (HexStreamPipes.set (mkHexStreamPipes [3; 4; 5; 6; 7; 8; 9; 10; 11; 12; 13; 14])
       7 (-1)) = true /\
  HexStreamPipes.isValid
    (mkHexStreamPipes [3; 4; 5; 6; 7; 8; -1; -1; -1; -1; -1; -1]) = true.
Proof.
  split.
  - destruct (isValid_reads_slots_0_2_4
                (mkHexStreamPipes [3; 4; 5; 6; 7; 8; 9; 10; 11; 12; 13; 14]))
      as (_ & Hset & _).
    rewrite (Hset 7%nat (-1)); [reflexivity | lia | lia | lia].
  - destruct (isValid_reads_slots_0_2_4 HexStreamPipes.new) as (_ & _ & Hex).
    apply Hex; lia.
Defined.

(* --------------------------------------------------------------------- *)
(** ** StreamController: standard input                                   *)
(* --------------------------------------------------------------------- *)

Lemma closeStdin_slot_closed sc h :
  HexStreamPipes.get (pipes (StreamController.closeStdin sc h).1) 1 < 0.
Proof.
  unfold StreamController.closeStdin.
  destruct (Z.geb_spec (HexStreamPipes.get (pipes sc) 1) 0) as [Hge | Hlt];
    cbn [fst pipes StreamController.set_pipes]; [|lia].
  destruct (pipes_get_set_eq (pipes sc) 1 (-1)) as [-> | [-> _]]; lia.
Qed.

Lemma sys_write_negative h fd data :
  fd < 0 -> Sys.write h fd data = (-1, Sys.set_errno h EBADF).
Proof.
  intros Hfd. unfold Sys.write.
  destruct (Z.ltb_spec fd 0); [done | lia].
Qed.

Lemma pipes_set_closed_stays p i :
  HexStreamPipes.get p 1 < 0 ->
  HexStreamPipes.get (HexStreamPipes.set p i (-1)) 1 < 0.
Proof.
  intros Hneg. destruct (decide (i = 1%nat)) as [-> | Hne].
  - destruct (pipes_get_set_eq p 1 (-1)) as [-> | [-> _]]; lia.
  - by rewrite pipes_get_set_ne.
Qed.

Lemma close_one_keeps_closed acc i :
  HexStreamPipes.get acc.1 1 < 0 ->
  HexStreamPipes.get (HexStreamPipes.close_one acc i).1 1 < 0.
Proof.
  destruct acc as [p h]. cbn [fst]. intros Hneg.
  unfold HexStreamPipes.close_one.
  destruct (HexStreamPipes.get p i >=? 0); cbn [fst]; [|done].
  by apply pipes_set_closed_stays.
Qed.

Lemma close_child_side_keeps_closed acc i :
  HexStreamPipes.get acc.1 1 < 0 ->
  HexStreamPipes.get (StreamController.close_child_side acc i).1 1 < 0.
Proof.
  destruct acc as [p h]. cbn [fst]. intros Hneg.
  by apply pipes_set_closed_stays.
Qed.

Lemma foldl_keeps_closed (f : HexStreamPipes * Host -> nat -> HexStreamPipes * Host)
    (l : list nat) acc :
  (forall acc i, HexStreamPipes.get acc.1 1 < 0 ->
                 HexStreamPipes.get (f acc i).1 1 < 0) ->
  HexStreamPipes.get acc.1 1 < 0 ->
  HexStreamPipes.get (foldl f acc l).1 1 < 0.
Proof.
  intros Hf. revert acc. induction l as [|i l IH]; intros acc Hneg; [done|].
  cbn [foldl]. apply IH. by apply Hf.
Qed.

(** No call other than [createPipes] reopens a closed standard input. *)
Lemma call_keeps_stdin_closed st c :
  HexStreamPipes.get (pipes st.1) 1 < 0 ->
  HexStreamPipes.get (pipes (call st c).1) 1 < 0.
Proof.
  destruct st as [sc h]. cbn [fst]. intros Hneg.
  destruct c; cbn [call]; try done.
  - unfold StreamController.setupParent.
    pose proof (foldl_keeps_closed StreamController.close_child_side
                  [0; 3; 5; 7; 8; 11]%nat (pipes sc, h)
                  close_child_side_keeps_closed Hneg) as Hfold.
    destruct (foldl StreamController.close_child_side (pipes sc, h) _)
      as [p h1]. done.
  - apply closeStdin_slot_closed.
  - unfold StreamController.readBuffer.
    by destruct (RingBuffer.read _ _).
  - unfold StreamController.close, HexStreamPipes.close.
    pose proof (foldl_keeps_closed HexStreamPipes.close_one (seq 0 12)
                  (pipes (StreamController.stopDraining sc), h)
                  close_one_keeps_closed Hneg) as Hfold.
    destruct (foldl HexStreamPipes.close_one _ _) as [p h1]. done.
Qed.

Lemma calls_keep_stdin_closed st calls :
  HexStreamPipes.get (pipes st.1) 1 < 0 ->
  HexStreamPipes.get (pipes (foldl call st calls).1) 1 < 0.
Proof.
  revert st. induction calls as [|c calls IH]; intros st Hneg; [done|].
  cbn [foldl]. apply IH. by apply call_keeps_stdin_closed.
Qed.

(** C8. Once [closeStdin] has been called, every later [writeStdin],
    whatever calls on the controller came in between and whatever state
    the host is in, fails: it returns -1, the error recorded is [EBADF]
    (the input is closed), and no byte reaches any pipe; the descriptor
    table is untouched as well. *)
Theorem writeStdin_after_closeStdin :
  forall (sc : StreamController) (h h' : Host) (calls : list Call)
         (data : list Z),
    let sc1 := (foldl call (StreamController.closeStdin sc h) calls).1 in
    (StreamController.writeStdin sc1 h' data).1 = -1 /\
    errno (StreamController.writeStdin sc1 h' data).2 = EBADF /\
    pipedata (StreamController.writeStdin sc1 h' data).2 = pipedata h' /\
    fdtable (StreamController.writeStdin sc1 h' data).2 = fdtable h'.
Proof.
  intros sc h h' calls data sc1. unfold StreamController.writeStdin.
  rewrite sys_write_negative; [done|].
  apply calls_keep_stdin_closed, closeStdin_slot_closed.
Qed.

(* --------------------------------------------------------------------- *)
(** ** HexStreamProcess::wait                                             *)
(* --------------------------------------------------------------------- *)

(** C10. [wait()] on a process that is not running returns the stored
    exit code at once: no [poll], no [waitpid], no exit callback, and the
    object is unchanged; the stored code of a fresh object is -1; and
    whatever the first [wait()] returned, a second one returns the same
    code without any effect. *)
Theorem wait_when_not_running :
  (forall (p : HexStreamProcess) (status : Z),
     running_ p = false ->
     HexStreamProcess.wait p status = (exitCode_ p, p, [])) /\
  (forall (config : ProcessConfig) (status : Z),
     HexStreamProcess.wait (HexStreamProcess.new config) status =
       (-1, HexStreamProcess.new config, [])) /\
  (forall (p : HexStreamProcess) (status1 status2 : Z),
     HexStreamProcess.wait (HexStreamProcess.wait p status1).1.2 status2 =
       ((HexStreamProcess.wait p status1).1.1,
        (HexStreamProcess.wait p status1).1.2, [])).
Proof.
  assert (Hidle : forall p status, running_ p = false ->
            HexStreamProcess.wait p status = (exitCode_ p, p, [])).
  { intros p status Hr. unfold HexStreamProcess.wait. by rewrite Hr. }
  split; [exact Hidle|]. split.
  - intros config status. by apply Hidle.
  - intros p status1 status2.
    destruct (running_ p) eqn:Hr.
    + unfold HexStreamProcess.wait at 2 3 4. rewrite Hr. cbn [negb fst snd].
      by rewrite Hidle.
    + rewrite (Hidle p status1 Hr). cbn [fst snd]. by apply Hidle.
Qed.

Lemma wait_when_not_running_witness :
  let p :=
    mkHexStreamProcess (mkProcessConfig "/bin/cat" [] [] true true true false)
      4242 0 false 7 (Some 1%nat) StreamController.new in
  HexStreamProcess.wait p 9 = (0, p, []).
Proof.
  intros p. apply (proj1 wait_when_not_running p 9). reflexivity.
Defined.

(* --------------------------------------------------------------------- *)
(** ** JobManager::foreground                                             *)
(* --------------------------------------------------------------------- *)

(** C7. [foreground(jobId)] on a job whose state is [TERMINATED]: the
    transition on [FG_CMD] is invalid, the call returns [false], and the
    manager (the job's state with it) and the world (terminal owner,
    terminal modes, signals, notifications) are exactly as before. *)
Theorem foreground_terminated_job :
  forall (jm : JobManager) (w : World) (id : Z) (job : JobControlBlock),
    JobManager.getJob jm id = Some job ->
    state job = TERMINATED ->
    valid (StateMachine.transition (state job) FG_CMD) = false /\
    JobManager.foreground jm w id = (false, jm, w).
Proof.
  intros jm w id job Hjob Hst.
  unfold JobManager.foreground. rewrite Hjob, Hst. done.
Qed.

Lemma foreground_terminated_job_witness :
  let modes := mkTermios 0 0 0 0 [] in
  let job :=
    mkJobControlBlock 1 "sleep" 4242 [mkProcessHandle 7 4242] TERMINATED
      false modes true 0 true false 0 StreamController.new 10 20 in
  let jm := mkJobManager {[1 := job]} 2 [0%nat] 3 100 modes false true in
  let w := mkWorld 100 modes [] [] in
  JobManager.foreground jm w 1 = (false, jm, w).
Proof.
  intros modes job jm w.
  apply (foreground_terminated_job jm w 1 job).
  - apply lookup_singleton_eq.
  - reflexivity.
Defined.

(* --------------------------------------------------------------------- *)
(** ** Exit codes: decoding wait statuses                                 *)
(* --------------------------------------------------------------------- *)

(** A property checked on every number below [n] holds on that range. *)
Lemma forall_below (P : Z -> bool) (n : nat) :
  forallb P (map Z.of_nat (seq 0 n)) = true ->
  forall z, 0 <= z < Z.of_nat n -> P z = true.
Proof.
  intros Hall z Hz. rewrite forallb_forall in Hall. apply Hall.
  apply in_map_iff. exists (Z.to_nat z). split; [lia|].
  apply in_seq. lia.
Qed.

Lemma status_of_exit e :
  0 <= e <= 255 ->
  WIFEXITED (W_EXITCODE e 0) = true /\ WEXITSTATUS (W_EXITCODE e 0) = e.
Proof.
  intros He.
  pose proof (forall_below
    (fun e => WIFEXITED (W_EXITCODE e 0) && (WEXITSTATUS (W_EXITCODE e 0) =? e))
    256 eq_refl e ltac:(lia)) as H.
  apply andb_true_iff in H as [H1 H2]. by apply Z.eqb_eq in H2.
Qed.

Lemma status_of_signal n core :
  1 <= n <= 126 -> core = 0 \/ core = WCOREFLAG ->
  WIFEXITED (W_EXITCODE 0 (Z.lor n core)) = false /\
  WIFSIGNALED (W_EXITCODE 0 (Z.lor n core)) = true /\
  WTERMSIG (W_EXITCODE 0 (Z.lor n core)) = n.
Proof.
  intros Hn Hcore.
  pose proof (forall_below
    (fun n =>
       forallb (fun core =>
         (n =? 0) ||
         (negb (WIFEXITED (W_EXITCODE 0 (Z.lor n core))) &&
          WIFSIGNALED (W_EXITCODE 0 (Z.lor n core)) &&
          (WTERMSIG (W_EXITCODE 0 (Z.lor n core)) =? n)))
         [0; WCOREFLAG])
    127 eq_refl n ltac:(lia)) as H.
  rewrite forallb_forall in H.
  specialize (H core). rewrite orb_true_iff, !andb_true_iff in H.
  destruct H as [H | [[H1 H2] H3]].
  - destruct Hcore as [-> | ->]; [by left | right; by left].
  - lia.
  - apply negb_true_iff in H1. apply Z.eqb_eq in H3. done.
Qed.

(** Where [waitpid] reports nothing, or a status that tells neither an
    exit nor a signal, the loop of [reapJob] records no exit code. *)
Lemma reap_one_undetermined job proc ret status :
  ret <= 0 \/ (WIFEXITED status = false /\ WIFSIGNALED status = false) ->
  JobManager.reap_one job (proc, (ret, status)) = job.
Proof.
  intros Hno. unfold JobManager.reap_one.
  destruct (pid proc >? 0); [|done].
  destruct (Z.gtb_spec ret 0) as [Hpos | Hle]; [|done].
  destruct Hno as [Hret | [-> ->]]; [lia | done].
Qed.

(** C4, as the code has it.  For a running process, [wait] returns the
    child's own exit status (any value from 0 to 255) after a non-signal
    exit, [128 + n] after a termination by signal [n], and -1 for every
    status word that is neither; the returned code is also the one
    stored.  [reapJob] decodes exits and signals in the same way. *)
Theorem wait_exit_code_decoding :
  forall p : HexStreamProcess,
    running_ p = true ->
    (forall e, 0 <= e <= 255 ->
       (HexStreamProcess.wait p (W_EXITCODE e 0)).1.1 = e) /\
    (forall n core, 1 <= n <= 126 -> core = 0 \/ core = WCOREFLAG ->
       (HexStreamProcess.wait p (W_EXITCODE 0 (Z.lor n core))).1.1 = 128 + n) /\
    (forall status, WIFEXITED status = false -> WIFSIGNALED status = false ->
       (HexStreamProcess.wait p status).1.1 = -1) /\
    (forall status,
       exitCode_ (HexStreamProcess.wait p status).1.2 =
         (HexStreamProcess.wait p status).1.1) /\
    (forall job proc ret, 0 < pid proc -> 0 < ret ->
       (forall e, 0 <= e <= 255 ->
          exitCode (JobManager.reap_one job (proc, (ret, W_EXITCODE e 0))) = e) /\
       (forall n core, 1 <= n <= 126 -> core = 0 \/ core = WCOREFLAG ->
          exitCode (JobManager.reap_one job
                      (proc, (ret, W_EXITCODE 0 (Z.lor n core)))) = 128 + n)).
Proof.
  intros p Hrun.
  assert (Hw : forall status,
            (HexStreamProcess.wait p status).1.1 =
              HexStreamProcess.decode_status status).
  { intros status. unfold HexStreamProcess.wait. by rewrite Hrun. }
  repeat split.
  - intros e He. rewrite Hw. unfold HexStreamProcess.decode_status.
    by destruct (status_of_exit e He) as [-> ->].
  - intros n core Hn Hc. rewrite Hw. unfold HexStreamProcess.decode_status.
    by destruct (status_of_signal n core Hn Hc) as (-> & -> & ->).
  - intros status He Hs. rewrite Hw. unfold HexStreamProcess.decode_status.
    by rewrite He, Hs.
  - intros status. unfold HexStreamProcess.wait. by rewrite Hrun.
  - intros e He. unfold JobManager.reap_one.
    destruct (Z.gtb_spec (pid proc) 0); [|lia].
    destruct (Z.gtb_spec ret 0); [|lia].
    by destruct (status_of_exit e He) as [-> ->].
  - intros n core Hn Hc. unfold JobManager.reap_one.
    destruct (Z.gtb_spec (pid proc) 0); [|lia].
    destruct (Z.gtb_spec ret 0); [|lia].
    by destruct (status_of_signal n core Hn Hc) as (-> & -> & ->).
Qed.

Lemma wait_exit_code_decoding_witness :
  let p :=
    mkHexStreamProcess (mkProcessConfig "/bin/sh" [] [] true true true false)
      4242 (-1) true (-1) None StreamController.new in
  (HexStreamProcess.wait p (W_EXITCODE 3 0)).1.1 = 3 /\
  (HexStreamProcess.wait p (W_EXITCODE 0 (Z.lor 9 0))).1.1 = 137.
Proof.
  intros p.
  destruct (wait_exit_code_decoding p eq_refl) as (Hexit & Hsig & _).
  split.
  - apply Hexit. lia.
  - apply (Hsig 9 0); [lia | by left].
Defined.

(** C4 fails as stated: a child that exits with status 200 makes [wait]
    return 200, outside 0..127 (and equal to no [128 + n] of a signal
    that killed it); and when [waitpid] reports nothing, [reapJob] leaves
    the job's exit code at its initial 0 instead of -1. *)
Lemma exit_code_convention_counterexample :
  let p :=
    mkHexStreamProcess (mkProcessConfig "/bin/sh" [] [] true true true false)
      4242 (-1) true (-1) None StreamController.new in
  let modes := mkTermios 0 0 0 0 [] in
  let job :=
    mkJobControlBlock 1 "sh" 4242 [mkProcessHandle 7 4242] FOREGROUND
      false modes false 0 false false 0 StreamController.new 10 0 in
  let jm := mkJobManager {[1 := job]} 2 [] 3 100 modes false true in
  let w := mkWorld 4242 modes [] [] in
  WIFEXITED (W_EXITCODE 200 0) = true /\
  (HexStreamProcess.wait p (W_EXITCODE 200 0)).1.1 = 200 /\
  ~ (0 <= (HexStreamProcess.wait p (W_EXITCODE 200 0)).1.1 <= 127) /\
  exitCode (JobManager.reapJob jm w job [(-1, 0)] 20).1 = 0 /\
  exitCode (JobManager.reapJob jm w job [(-1, 0)] 20).1 ≠ -1.
Proof.
  intros p modes job jm w.
  assert (Hw : (HexStreamProcess.wait p (W_EXITCODE 200 0)).1.1 = 200)
    by reflexivity.
  assert (Hr : exitCode (JobManager.reapJob jm w job [(-1, 0)] 20).1 = 0)
    by reflexivity.
  rewrite Hw, Hr. repeat split; lia.
Qed.

(* --------------------------------------------------------------------- *)
(** ** The telemetry drainer: drop on overflow                            *)
(* --------------------------------------------------------------------- *)

Section DrainerProofs.
Import RingBuffer.

Local Ltac szlia := unfold PTRDIFF_MAX, SIZE_WIDTH in *; lia.

Lemma new_wf cap : 0 < cap <= PTRDIFF_MAX -> wf (new cap).
Proof.
  intros Hcap. unfold wf, new. cbn [capacity buffer readPos writePos].
  rewrite length_replicate. lia.
Qed.

Lemma new_is_empty cap : is_empty (new cap).
Proof. reflexivity. Qed.

Lemma read_chunk_readable data :
  readable_chunk data -> StreamDrainer.read_chunk data = data.
Proof.
  intros [_ Hle]. unfold StreamDrainer.read_chunk. apply take_ge. lia.
Qed.

(** A data turn of a drainer in drop mode is one [write] and one
    addition to [bytesTransferred_]. *)
Lemma drop_turn_unfold d rb data :
  dropOnOverflow_ d = true -> readable_chunk data ->
  StreamDrainer.turn d rb (data_turn data) =
    (StreamDrainer.add_transferred d (Z.of_nat (length data)),
     (write rb data).1, true).
Proof.
  intros Hdrop Hchunk.
  unfold StreamDrainer.turn, data_turn. cbn [polled got yields].
  rewrite (read_chunk_readable data Hchunk).
  destruct Hchunk as [Hpos _].
  destruct (Z.ltb_spec 0 (Z.of_nat (length data))) as [_ | ?]; [|lia].
  unfold StreamDrainer.on_data. rewrite Hdrop.
  destruct (write rb data) as [rb1 written]. cbn [fst].
  by destruct (written <? Z.of_nat (length data)).
Qed.

(** Along an execution in drop mode, [bytesTransferred_] counts the
    bytes produced, and the bytes lost are some of them. *)
Lemma run_tally steps :
  forall d rb,
    wf rb -> dropOnOverflow_ d = true -> Forall readable_step steps ->
    wf (run d rb steps).1.2 /\
    0 <= (run d rb steps).2 <= produced steps /\
    bytesTransferred_ (run d rb steps).1.1 =
      bytesTransferred_ d + produced steps.
Proof.
  induction steps as [|[data | k] steps IH]; intros d rb Hwf Hdrop Hall.
  - cbn [run produced fst snd]. split; [done|]. lia.
  - apply Forall_cons in Hall as [Hchunk Hall].
    cbn [run produced readable_step] in *.
    rewrite drop_turn_unfold by done.
    pose proof (write_accepts_bounds rb data Hwf) as [Hn _].
    destruct (IH (StreamDrainer.add_transferred d (Z.of_nat (length data)))
                (write rb data).1 (write_wf rb data Hwf) Hdrop Hall)
      as (Hwf' & Hlost & Hbt).
    destruct (run _ (write rb data).1 steps) as [[d2 rb2] dropped].
    cbn [fst snd bytesTransferred_ StreamDrainer.add_transferred] in *.
    split; [done|]. lia.
  - apply Forall_cons in Hall as [Hk Hall].
    cbn [run produced readable_step] in *.
    apply IH; [by apply read_wf | done | done].
Qed.

(** C3, as the code has it.  On every turn in which the drop-mode
    drainer reads [n] bytes, the ring accepts [min(n, freeSpace)] of
    them, never more than were produced, and what is readable in the
    ring grows by just that; the other bytes are discarded; the drainer's
    one counter, [bytesTransferred_], grows by the [n] bytes produced,
    the discarded ones included, and nothing else in the drainer
    changes.  Along every execution, with the consumer reading in
    between, the bytes lost are between 0 and the bytes produced, and
    [bytesTransferred_] has grown by the bytes produced. *)
Theorem drop_turn_discards_excess :
  forall (d : StreamDrainer) (rb : RingBuffer),
    wf rb ->
    dropOnOverflow_ d = true ->
    (forall data : list Z,
       readable_chunk data ->
       let n := Z.of_nat (length data) in
       let written := (write rb data).2 in
       let '(d', rb', continue) := StreamDrainer.turn d rb (data_turn data) in
       rb' = (write rb data).1 /\
       written = Z.min n (freeSpace rb) /\
       0 <= written <= n /\
       available rb' = available rb + written /\
       d' = mkStreamDrainer (stream_ d) (fd_ d) (dropOnOverflow_ d)
              (bytesTransferred_ d + n) (active_ d) /\
       continue = true) /\
    (forall steps : list Step,
       Forall readable_step steps ->
       0 <= (run d rb steps).2 <= produced steps /\
       bytesTransferred_ (run d rb steps).1.1 =
         bytesTransferred_ d + produced steps).
Proof.
  intros d rb Hwf Hdrop. split.
  - intros data Hchunk n written.
    rewrite drop_turn_unfold by done.
    pose proof (write_accepts_bounds rb data Hwf) as [Hn _].
    repeat split; try done; try lia.
    + by apply write_count.
    + by apply write_available.
  - intros steps Hall.
    by destruct (run_tally steps d rb Hwf Hdrop Hall) as (_ & ? & ?).
Qed.

Lemma drop_turn_discards_excess_witness :
  let d := StreamDrainer.new STDDBG 9 true in
  let rb := RingBuffer.new 4 in
  StreamDrainer.turn d rb (data_turn [1; 2; 3; 4; 5]) =
    (mkStreamDrainer STDDBG 9 true 5 false,
     mkRingBuffer [1; 2; 3; 0] 0 3 4, true).
Proof.
  intros d rb.
  assert (Hwf : wf rb) by (apply new_wf; unfold PTRDIFF_MAX; lia).
  assert (Hchunk : readable_chunk [1; 2; 3; 4; 5])
    by (unfold readable_chunk, READ_BUFFER_SIZE; cbn; lia).
  pose proof (proj1 (drop_turn_discards_excess d rb Hwf eq_refl)
                [1; 2; 3; 4; 5] Hchunk) as H.
  cbv zeta in H.
  destruct (StreamDrainer.turn d rb (data_turn [1; 2; 3; 4; 5]))
    as [[d' rb'] continue].
  destruct H as (-> & _ & _ & _ & -> & ->). reflexivity.
Defined.

(** C3 fails as stated: nothing observable on the drainer and its ring is
    a drop counter.  Two executions from the same state, a ring of four
    bytes served by the telemetry drainer, end in the same state; the
    first loses no byte, the second loses four. *)
Lemma no_drop_counter : ~ exists counter, is_drop_counter counter.
Proof.
  intros [counter Hcounter].
  set (d := StreamDrainer.new STDDBG 9 true).
  set (rb := RingBuffer.new 4).
  set (z := fun n : nat => replicate n 0).
  set (lossless :=
         [Produce (z 2%nat); Consume 2; Produce (z 2%nat); Consume 2;
          Produce (z 2%nat); Consume 2; Produce (z 2%nat); Consume 2]).
  set (lossy :=
         [Produce (z 3%nat); Produce (z 4%nat); Consume 3;
          Produce (z 1%nat); Consume 1]).
  assert (Hwf : wf rb) by (apply new_wf; unfold PTRDIFF_MAX; lia).
  assert (H1 : Forall readable_step lossless)
    by (repeat constructor; cbn; unfold READ_BUFFER_SIZE; lia).
  assert (H2 : Forall readable_step lossy)
    by (repeat constructor; cbn; unfold READ_BUFFER_SIZE; lia).
  pose proof (Hcounter d rb lossless Hwf eq_refl H1) as Ha.
  pose proof (Hcounter d rb lossy Hwf eq_refl H2) as Hb.
  assert (Hsame : (run d rb lossless).1 = (run d rb lossy).1)
    by (vm_compute; reflexivity).
  assert (Hnone : (run d rb lossless).2 = 0) by (vm_compute; reflexivity).
  assert (Hfour : (run d rb lossy).2 = 4) by (vm_compute; reflexivity).
  rewrite Hsame, Hnone in Ha. rewrite Hfour in Hb. lia.
Qed.

End DrainerProofs.

(* --------------------------------------------------------------------- *)
(** ** Filling a ring that nobody reads                                   *)
(* --------------------------------------------------------------------- *)

Section FillProofs.
Import RingBuffer.

Local Ltac szlia := unfold PTRDIFF_MAX, SIZE_WIDTH in *; lia.

Lemma total_bytes_nonneg chunks : 0 <= total_bytes chunks.
Proof. induction chunks as [|data chunks IH]; cbn [total_bytes]; lia. Qed.

Lemma total_bytes_replicate (k : nat) (data : list Z) :
  total_bytes (replicate k data) = Z.of_nat k * Z.of_nat (length data).
Proof. induction k as [|k IH]; cbn [replicate total_bytes]; lia. Qed.

(** Successive writes into an unread ring accept bytes until the free
    space is used up, and nothing after that. *)
Lemma write_all_total rb chunks :
  wf rb ->
  wf (write_all rb chunks).1 /\
  (write_all rb chunks).2 = Z.min (total_bytes chunks) (freeSpace rb) /\
  available (write_all rb chunks).1 =
    available rb + (write_all rb chunks).2.
Proof.
  revert rb. induction chunks as [|data chunks IH]; intros rb Hwf.
  - cbn [write_all total_bytes fst snd].
    pose proof (freeSpace_wf rb Hwf). destruct (available_wf rb Hwf).
    split; [done|]. lia.
  - cbn [write_all total_bytes].
    pose proof (write_count rb data Hwf) as Hn.
    pose proof (write_available rb data Hwf) as Hav.
    pose proof (write_wf rb data Hwf) as Hwf1.
    pose proof (freeSpace_wf rb Hwf) as Hfs.
    pose proof (freeSpace_wf _ Hwf1) as Hfs1.
    destruct (write_positions rb data Hwf) as (_ & Hcap & _).
    destruct (available_wf rb Hwf) as [_ Hab].
    destruct (write rb data) as [rb1 n]. cbn [fst snd] in *.
    destruct (IH rb1 Hwf1) as (Hwf2 & Hm & Hav2).
    destruct (write_all rb1 chunks) as [rb2 m]. cbn [fst snd] in *.
    pose proof (total_bytes_nonneg chunks).
    split; [done|]. lia.
Qed.

Lemma add_transferred_0 d : StreamDrainer.add_transferred d 0 = d.
Proof. destruct d. unfold StreamDrainer.add_transferred. cbn. by rewrite Z.add_0_r. Qed.

Lemma add_transferred_add d a b :
  StreamDrainer.add_transferred (StreamDrainer.add_transferred d a) b =
    StreamDrainer.add_transferred d (a + b).
Proof. unfold StreamDrainer.add_transferred. cbn. by rewrite Z.add_assoc. Qed.

(** With the consumer idle, the drain loop of a drop-mode drainer over
    data turns is the succession of the [write] calls. *)
Lemma drop_turns_write_all d rb chunks :
  dropOnOverflow_ d = true -> Forall readable_chunk chunks ->
  StreamDrainer.turns d rb (map data_turn chunks) =
    (StreamDrainer.add_transferred d (total_bytes chunks),
     (write_all rb chunks).1, false).
Proof.
  intros Hdrop Hall. revert d rb Hdrop.
  induction Hall as [|data chunks Hchunk Hall IH]; intros d rb Hdrop.
  - cbn. by rewrite add_transferred_0.
  - cbn [map StreamDrainer.turns]. cbn [data_turn stop_requested].
    change (mkTurn false (PollReady POLLIN) (ReadBytes data) [])
      with (data_turn data).
    rewrite drop_turn_unfold by done.
    rewrite IH by done. rewrite add_transferred_add.
    cbn [write_all total_bytes].
    destruct (write rb data) as [rb1 n]. cbn [fst].
    destruct (write_all rb1 chunks) as [rb2 m]. done.
Qed.

Lemma controller_ring stream :
  StreamController.ring StreamController.new stream =
    RingBuffer.new StreamController.RING_CAPACITY.
Proof. destruct stream; reflexivity. Qed.

Lemma controller_ring_wf stream :
  wf (StreamController.ring StreamController.new stream).
Proof.
  rewrite controller_ring. apply new_wf.
  unfold StreamController.RING_CAPACITY, PTRDIFF_MAX. lia.
Qed.

Lemma controller_ring_available stream :
  available (StreamController.ring StreamController.new stream) = 0.
Proof.
  apply available_empty; [apply controller_ring_wf|].
  rewrite controller_ring. apply new_is_empty.
Qed.

Lemma controller_ring_free stream :
  freeSpace (StreamController.ring StreamController.new stream) =
    1024 * 1024 - 1.
Proof.
  rewrite freeSpace_wf by apply controller_ring_wf.
  rewrite controller_ring_available, controller_ring.
  cbn [new capacity]. unfold StreamController.RING_CAPACITY. lia.
Qed.

(** In drop mode a successful read of [data] adds to the ring what
    fits, whatever the consumer is offered meanwhile. *)
Lemma on_data_drop_fill d rb data ys :
  wf rb -> dropOnOverflow_ d = true ->
  wf (StreamDrainer.on_data d rb data ys).2 /\
  capacity (StreamDrainer.on_data d rb data ys).2 = capacity rb /\
  dropOnOverflow_ (StreamDrainer.on_data d rb data ys).1 = true /\
  bytesTransferred_ (StreamDrainer.on_data d rb data ys).1 =
    bytesTransferred_ d + Z.of_nat (length data) /\
  available (StreamDrainer.on_data d rb data ys).2 =
    Z.min (available rb + Z.of_nat (length data)) (capacity rb - 1).
Proof.
  intros Hwf Hdrop. unfold StreamDrainer.on_data. rewrite Hdrop.
  pose proof (write_count rb data Hwf) as Hn.
  pose proof (write_available rb data Hwf) as Hav.
  pose proof (write_wf rb data Hwf) as Hwf1.
  pose proof (freeSpace_wf rb Hwf) as Hfs.
  destruct (write_positions rb data Hwf) as (_ & Hcap & _).
  destruct (available_wf rb Hwf) as [_ Hab].
  destruct (write rb data) as [rb1 written]. cbn [fst snd] in *.
  assert (Hsame : (if written <? Z.of_nat (length data) then rb1 else rb1)
                  = rb1) by (by destruct (written <? _)).
  rewrite Hsame. cbn [fst snd dropOnOverflow_ bytesTransferred_
                      StreamDrainer.add_transferred].
  split; [done|]. split; [done|]. split; [done|]. split; [done|]. lia.
Qed.

Lemma filled_by_refl d rb :
  wf rb -> dropOnOverflow_ d = true -> filled_by d rb d rb.
Proof.
  intros Hwf Hdrop. destruct (available_wf rb Hwf) as [_ Hab].
  unfold filled_by. split; [done|]. split; [done|]. split; [done|]. lia.
Qed.

Lemma turn_drop_fill d rb t :
  wf rb -> dropOnOverflow_ d = true ->
  filled_by d rb (StreamDrainer.turn d rb t).1.1
    (StreamDrainer.turn d rb t).1.2.
Proof.
  intros Hwf Hdrop. pose proof (filled_by_refl d rb Hwf Hdrop) as Hsame.
  unfold StreamDrainer.turn.
  destruct (polled t) as [e | | revents]; try done.
  destruct (negb (Z.land revents POLLIN =? 0)).
  - destruct (got t) as [pending | e].
    + destruct (0 <? Z.of_nat (length (StreamDrainer.read_chunk pending))).
      * destruct (on_data_drop_fill d rb (StreamDrainer.read_chunk pending)
                    (yields t) Hwf Hdrop) as (H1 & H2 & H3 & H4 & H5).
        destruct (StreamDrainer.on_data d rb _ (yields t)) as [d1 rb1].
        cbn [fst snd] in *.
        assert (Hfill : filled_by d rb d1 rb1).
        { unfold filled_by. split; [done|]. split; [done|]. split; [done|].
          rewrite H4, H5. split; [lia|]. f_equal. lia. }
        by destruct (Z.land revents (Z.lor POLLHUP POLLERR) =? 0).
      * done.
    + by destruct (negb (negb (e =? EAGAIN) && negb (e =? EINTR))).
  - by destruct (Z.land revents (Z.lor POLLHUP POLLERR) =? 0).
Qed.

Lemma turns_drop_fill ts :
  forall d rb,
    wf rb -> dropOnOverflow_ d = true ->
    filled_by d rb (StreamDrainer.turns d rb ts).1.1
      (StreamDrainer.turns d rb ts).1.2.
Proof.
  induction ts as [|t ts IH]; intros d rb Hwf Hdrop.
  - by apply filled_by_refl.
  - cbn [StreamDrainer.turns].
    destruct (stop_requested t); [by apply filled_by_refl|].
    pose proof (turn_drop_fill d rb t Hwf Hdrop) as Hone.
    destruct (StreamDrainer.turn d rb t) as [[d1 rb1] go].
    cbn [fst snd] in *.
    destruct go; [|done].
    destruct Hone as (Hwf1 & Hc1 & Hd1 & Hb1 & Ha1).
    destruct (IH d1 rb1 Hwf1 Hd1) as (Hwf2 & Hc2 & Hd2 & Hb2 & Ha2).
    destruct (available_wf rb Hwf) as [_ Hab].
    unfold filled_by. split; [done|]. split; [congruence|].
    split; [done|]. split; [lia|].
    rewrite Ha2, Ha1, Hc1. lia.
Qed.

(** C6, as the code has it.  Every ring the [StreamController]
    constructor allocates has a capacity of exactly 1 MiB.  Successive
    writes totalling [P] bytes into the unread telemetry ring accept
    [min(P, 1 MiB - 1)] bytes, one slot staying reserved.  While the
    consumer reads nothing, the telemetry ring holds
    [min(R, 1 MiB - 1)] bytes, where [R] is the number of bytes the
    telemetry drainer has read from its endpoint, the growth of
    [bytesTransferred_]: this holds after any stretch of the drain loop,
    whatever [poll] and [read] answer.  [R] is all of the [P] bytes a
    child produced when the drainer gets them in reads of 1 to 4096
    bytes with [poll] reporting [POLLIN] alone; when the loop ends before
    all of them are read, as on a hang-up, [R] counts the bytes read. *)
Theorem controller_ring_capacity_and_fill :
  (forall stream : StreamIndex,
     capacity (StreamController.ring StreamController.new stream) =
       1024 * 1024 /\
     1024 * 1024 <=
       capacity (StreamController.ring StreamController.new stream)) /\
  (forall chunks : list (list Z),
     let rb := StreamController.ring StreamController.new STDDBG in
     (write_all rb chunks).2 =
       Z.min (total_bytes chunks) (1024 * 1024 - 1) /\
     available (write_all rb chunks).1 =
       Z.min (total_bytes chunks) (1024 * 1024 - 1)) /\
  (forall (d : StreamDrainer) (chunks : list (list Z)),
     dropOnOverflow_ d = true ->
     Forall readable_chunk chunks ->
     let rb := StreamController.ring StreamController.new STDDBG in
     available (StreamDrainer.drainLoop d rb (map data_turn chunks)).2 =
       Z.min (total_bytes chunks) (1024 * 1024 - 1) /\
     bytesTransferred_
       (StreamDrainer.drainLoop d rb (map data_turn chunks)).1 =
       bytesTransferred_ d + total_bytes chunks) /\
  (forall (d : StreamDrainer) (ts : list Turn),
     dropOnOverflow_ d = true ->
     let rb := StreamController.ring StreamController.new STDDBG in
     let after := StreamDrainer.drainLoop d rb ts in
     bytesTransferred_ d <= bytesTransferred_ after.1 /\
     available after.2 =
       Z.min (bytesTransferred_ after.1 - bytesTransferred_ d)
         (1024 * 1024 - 1)).
Proof.
  assert (Hfill : forall chunks,
            let rb := StreamController.ring StreamController.new STDDBG in
            (write_all rb chunks).2 =
              Z.min (total_bytes chunks) (1024 * 1024 - 1) /\
            available (write_all rb chunks).1 =
              Z.min (total_bytes chunks) (1024 * 1024 - 1)).
  { intros chunks rb.
    destruct (write_all_total rb chunks (controller_ring_wf STDDBG))
      as (_ & Hn & Hav).
    unfold rb in *. rewrite controller_ring_free in Hn.
    rewrite controller_ring_available in Hav.
    rewrite Hav, Hn. lia. }
  split; [|split; [|split]].
  - intros stream. rewrite controller_ring. cbn [new capacity].
    unfold StreamController.RING_CAPACITY. lia.
  - exact Hfill.
  - intros d chunks Hdrop Hall rb.
    unfold StreamDrainer.drainLoop.
    rewrite drop_turns_write_all by done.
    cbn [fst snd]. split; [apply Hfill | reflexivity].
  - intros d ts Hdrop rb after.
    pose proof (controller_ring_wf STDDBG) as Hwf.
    pose proof (controller_ring_available STDDBG) as Hempty.
    assert (Hcap : capacity (StreamController.ring StreamController.new
                               STDDBG) = 1024 * 1024)
      by (rewrite controller_ring; reflexivity).
    fold rb in Hwf, Hempty, Hcap. clearbody rb.
    destruct (turns_drop_fill ts (StreamDrainer.set_active d true) rb
                Hwf Hdrop) as (_ & _ & _ & Hgrow & Hav).
    unfold after, StreamDrainer.drainLoop.
    destruct (StreamDrainer.turns (StreamDrainer.set_active d true) rb ts)
      as [[d1 rb1] exited].
    cbn [fst snd bytesTransferred_ StreamDrainer.set_active] in *.
    rewrite Hempty, Hcap in Hav.
    destruct exited; cbn [bytesTransferred_ StreamDrainer.set_active];
      (split; [done|]); rewrite Hav; clear; lia.
Qed.

Lemma controller_ring_capacity_and_fill_witness :
  let d := StreamDrainer.new STDDBG 9 true in
  let rb := StreamController.ring StreamController.new STDDBG in
  let chunks := [[1; 2; 3]; [4; 5]] in
  available (StreamDrainer.drainLoop d rb (map data_turn chunks)).2 = 5 /\
  bytesTransferred_ (StreamDrainer.drainLoop d rb (map data_turn chunks)).1 = 5.
Proof.
  intros d rb chunks.
  assert (Hall : Forall readable_chunk chunks)
    by (repeat constructor; cbn; unfold READ_BUFFER_SIZE; lia).
  exact (proj1 (proj2 (proj2 controller_ring_capacity_and_fill))
           d chunks eq_refl Hall).
Defined.

(** C6 fails as stated: when a child produces 2 MiB on the telemetry
    channel (512 reads of 4096 bytes) and nobody reads the ring, the
    ring holds 1 MiB - 1 bytes, not [min(2 MiB, 1 MiB)]. *)
Lemma telemetry_ring_holds_one_byte_less :
  let rb := StreamController.ring StreamController.new STDDBG in
  let chunks := replicate 512 (replicate (Z.to_nat 4096) 0) in
  total_bytes chunks = 2 * 1024 * 1024 /\
  available (write_all rb chunks).1 = 1024 * 1024 - 1 /\
  available (write_all rb chunks).1 ≠
    Z.min (total_bytes chunks) (1024 * 1024).
Proof.
  intros rb chunks.
  assert (Htotal : total_bytes chunks = 2 * 1024 * 1024).
  { unfold chunks. rewrite total_bytes_replicate, length_replicate. lia. }
  destruct (write_all_total rb chunks (controller_ring_wf STDDBG))
    as (_ & Hn & Hav).
  unfold rb in *. clear rb.
  rewrite controller_ring_free in Hn.
  rewrite controller_ring_available in Hav.
  rewrite Hav, Hn, Htotal. clear. lia.
Qed.

End FillProofs.

(* --------------------------------------------------------------------- *)
(** ** StreamController::setupChild                                       *)
(* --------------------------------------------------------------------- *)

Section SetupChildProofs.

Lemma dup2_fresh_target h oldfd newfd d :
  fdtable h !! oldfd = Some d ->
  0 <= newfd < nofile h -> oldfd ≠ newfd ->
  Sys.dup2 h oldfd newfd =
    (newfd, Sys.set_fdtable h (<[newfd := Sys.duplicate d]> (fdtable h))).
Proof.
  intros Hold Hnew Hne. unfold Sys.dup2. rewrite Hold.
  destruct (Z.ltb_spec newfd 0); [lia|].
  destruct (Z.leb_spec (nofile h) newfd); [lia|]. cbn [orb].
  destruct (Z.eqb_spec oldfd newfd); [done|]. done.
Qed.

Lemma close_table h fd :
  fdtable (Sys.close h fd).2 = delete fd (fdtable h).
Proof.
  unfold Sys.close. destruct (fdtable h !! fd) eqn:Hfd; cbn [snd]; [done|].
  cbn. by rewrite delete_id.
Qed.

Lemma close_originals_table p h (l : list nat) :
  fdtable
    (foldl (fun h i =>
              if HexStreamPipes.get p i >=? 0
              then (Sys.close h (HexStreamPipes.get p i)).2 else h) h l) =
  foldl (fun t i =>
           if HexStreamPipes.get p i >=? 0
           then delete (HexStreamPipes.get p i) t else t) (fdtable h) l.
Proof.
  revert h. induction l as [|i l IH]; intros h; [done|].
  cbn [foldl]. rewrite IH.
  destruct (HexStreamPipes.get p i >=? 0); [|done].
  by rewrite close_table.
Qed.

Lemma deletes_lookup_other p (l : list nat) (t : gmap Z Descriptor) k :
  (forall i, i ∈ l -> HexStreamPipes.get p i ≠ k) ->
  foldl (fun t i =>
           if HexStreamPipes.get p i >=? 0
           then delete (HexStreamPipes.get p i) t else t) t l !! k = t !! k.
Proof.
  revert t. induction l as [|i l IH]; intros t Hne; [done|].
  cbn [foldl]. rewrite IH by (intros j Hj; apply Hne; set_solver).
  destruct (HexStreamPipes.get p i >=? 0); [|done].
  apply lookup_delete_ne, Hne. set_solver.
Qed.

Lemma deletes_lookup_none p (l : list nat) (t : gmap Z Descriptor) k :
  t !! k = None ->
  foldl (fun t i =>
           if HexStreamPipes.get p i >=? 0
           then delete (HexStreamPipes.get p i) t else t) t l !! k = None.
Proof.
  revert t. induction l as [|i l IH]; intros t Hnone; [done|].
  cbn [foldl]. apply IH.
  destruct (HexStreamPipes.get p i >=? 0); [|done].
  rewrite lookup_delete. by case_decide.
Qed.

Lemma deletes_lookup_closed p (l : list nat) (t : gmap Z Descriptor) i :
  i ∈ l -> 0 <= HexStreamPipes.get p i ->
  foldl (fun t i =>
           if HexStreamPipes.get p i >=? 0
           then delete (HexStreamPipes.get p i) t else t) t l
    !! HexStreamPipes.get p i = None.
Proof.
  revert t. induction l as [|j l IH]; intros t Hin Hopen; [set_solver|].
  cbn [foldl]. apply elem_of_cons in Hin as [<- | Hin]; [|by apply IH].
  apply deletes_lookup_none.
  destruct (Z.geb_spec (HexStreamPipes.get p i) 0); [|lia].
  apply lookup_delete_eq.
Qed.

(** What [setupChild] does whenever the pipes sit on descriptors above 5:
    it succeeds; descriptors 0 to 5 then name the ends that [fds[1]],
    [fds[3]], [fds[5]], [fds[7]], [fds[9]] and [fds[11]] named, the odd
    slots, which [createPipes] fills with write ends; and every original
    pipe descriptor is closed. *)
Lemma setupChild_above_5 sc h d1 d3 d5 d7 d9 d11 :
  let p := pipes sc in
  5 < nofile h ->
  (forall i, (i < 12)%nat -> 5 < HexStreamPipes.get p i) ->
  fdtable h !! HexStreamPipes.get p 1 = Some d1 ->
  fdtable h !! HexStreamPipes.get p 3 = Some d3 ->
  fdtable h !! HexStreamPipes.get p 5 = Some d5 ->
  fdtable h !! HexStreamPipes.get p 7 = Some d7 ->
  fdtable h !! HexStreamPipes.get p 9 = Some d9 ->
  fdtable h !! HexStreamPipes.get p 11 = Some d11 ->
  (StreamController.setupChild sc h).1 = true /\
  map (fun fd => fdtable (StreamController.setupChild sc h).2 !! fd)
      [0; 1; 2; 3; 4; 5] =
    [Some (Sys.duplicate d1); Some (Sys.duplicate d3); Some (Sys.duplicate d5);
     Some (Sys.duplicate d7); Some (Sys.duplicate d9); Some (Sys.duplicate d11)] /\
  (forall i, (i < 12)%nat ->
     fdtable (StreamController.setupChild sc h).2
       !! HexStreamPipes.get p i = None).
Proof.
  intros p Hlim Hhigh H1 H3 H5 H7 H9 H11.
  pose proof (Hhigh 1%nat ltac:(lia)) as G1.
  pose proof (Hhigh 3%nat ltac:(lia)) as G3.
  pose proof (Hhigh 5%nat ltac:(lia)) as G5.
  pose proof (Hhigh 7%nat ltac:(lia)) as G7.
  pose proof (Hhigh 9%nat ltac:(lia)) as G9.
  pose proof (Hhigh 11%nat ltac:(lia)) as G11.
  unfold StreamController.setupChild, StreamController.redirect.
  fold p. unfold STDIN_FILENO, STDOUT_FILENO, STDERR_FILENO.
  rewrite (dup2_fresh_target h _ 0 d1) by (done || lia).
  cbn [Z.ltb Z.compare].
  rewrite (dup2_fresh_target _ _ 1 d3);
    [| cbn; rewrite lookup_insert_ne by lia; done | cbn; lia | lia].
  cbn [Z.ltb Z.compare].
  rewrite (dup2_fresh_target _ _ 2 d5);
    [| cbn; rewrite !lookup_insert_ne by lia; done | cbn; lia | lia].
  cbn [Z.ltb Z.compare].
  rewrite (dup2_fresh_target _ _ 3 d7);
    [| cbn; rewrite !lookup_insert_ne by lia; done | cbn; lia | lia].
  cbn [Z.ltb Z.compare].
  rewrite (dup2_fresh_target _ _ 4 d9);
    [| cbn; rewrite !lookup_insert_ne by lia; done | cbn; lia | lia].
  cbn [Z.ltb Z.compare].
  rewrite (dup2_fresh_target _ _ 5 d11);
    [| cbn; rewrite !lookup_insert_ne by lia; done | cbn; lia | lia].
  cbn [Z.ltb Z.compare fst snd].
  unfold StreamController.close_originals.
  rewrite close_originals_table.
  cbn [fdtable Sys.set_fdtable].
  assert (Hkeep : forall k, 0 <= k <= 5 ->
            forall i, i ∈ seq 0 12 -> HexStreamPipes.get p i ≠ k).
  { intros k Hk i Hi. apply elem_of_seq in Hi.
    pose proof (Hhigh i ltac:(lia)). lia. }
  split; [done|]. split.
  - cbn [map].
    rewrite !deletes_lookup_other by (apply Hkeep; lia).
    by simplify_map_eq.
  - intros i Hi. pose proof (Hhigh i Hi).
    apply deletes_lookup_closed; [apply elem_of_seq|]; lia.
Qed.

End SetupChildProofs.

(** C2 at its failing inputs.  In a process that has descriptors 0 to 5
    open, [createPipes] puts the six pipes on descriptors 6 to 17, read
    end first.  [setupChild] then succeeds and closes the twelve
    originals, but descriptors 0 and 4 are the WRITE ends of pipes 0 and 4
    (copies of [fds[1]] and [fds[9]]), not the read ends [fds[0]] and
    [fds[8]]; the [select]-based variant takes the wrong end for all six.
    In a process that has only descriptors 0 to 2 open, the pipes are on
    descriptors 3 to 14 and the closing loop also closes the logical
    descriptors 3, 4 and 5 it has just set up. *)
Theorem setupChild_duplicates_write_ends :
  let made := StreamController.createPipes blank_controller (host_with 6) in
  let sc := made.1.2 in
  let h := made.2 in
  let child := StreamController.setupChild sc h in
  made.1.1 = true /\
  fds (pipes sc) = [6; 7; 8; 9; 10; 11; 12; 13; 14; 15; 16; 17] /\
  ends_at h (fds (pipes sc)) =
    [Some (0%nat, ReadEnd); Some (0%nat, WriteEnd);
     Some (1%nat, ReadEnd); Some (1%nat, WriteEnd);
     Some (2%nat, ReadEnd); Some (2%nat, WriteEnd);
     Some (3%nat, ReadEnd); Some (3%nat, WriteEnd);
     Some (4%nat, ReadEnd); Some (4%nat, WriteEnd);
     Some (5%nat, ReadEnd); Some (5%nat, WriteEnd)] /\
  child.1 = true /\
  ends_at child.2 [0; 1; 2; 3; 4; 5] =
    [Some (0%nat, WriteEnd); Some (1%nat, WriteEnd); Some (2%nat, WriteEnd);
     Some (3%nat, WriteEnd); Some (4%nat, WriteEnd); Some (5%nat, WriteEnd)] /\
  ends_at child.2 (fds (pipes sc)) = replicate 12 None /\
  ends_at (StreamControllerSelect.setupChild sc h).2 [0; 1; 2; 3; 4; 5] =
    [Some (0%nat, WriteEnd); Some (1%nat, ReadEnd); Some (2%nat, ReadEnd);
     Some (3%nat, ReadEnd); Some (4%nat, WriteEnd); Some (5%nat, ReadEnd)] /\
  let made3 := StreamController.createPipes blank_controller (host_with 3) in
  let child3 := StreamController.setupChild made3.1.2 made3.2 in
  fds (pipes made3.1.2) = [3; 4; 5; 6; 7; 8; 9; 10; 11; 12; 13; 14] /\
  child3.1 = true /\
  ends_at child3.2 [0; 1; 2; 3; 4; 5] =
    [Some (0%nat, WriteEnd); Some (1%nat, WriteEnd); Some (2%nat, WriteEnd);
     None; None; None].
Proof. vm_compute. repeat split; reflexivity. Qed.

(* ===================================================================== *)
(** * Further properties of the code                                      *)
(* ===================================================================== *)

(* --------------------------------------------------------------------- *)
(** ** RingBuffer: a FIFO queue of bytes                                  *)
(* --------------------------------------------------------------------- *)

Section RingFifo.
Import RingBuffer.
Local Ltac szlia := unfold PTRDIFF_MAX, SIZE_WIDTH in *; lia.

(** Reading a list at an index given as an integer. *)
Lemma memcpy_lookup dst off src (j : nat) :
  0 <= off -> off + Z.of_nat (length src) <= Z.of_nat (length dst) ->
  memcpy dst off src !! j =
    if decide (off <= Z.of_nat j < off + Z.of_nat (length src))
    then src !! (j - Z.to_nat off)%nat else dst !! j.
Proof.
  intros Hoff Hfit. unfold memcpy.
  assert (Hlt : length (take (Z.to_nat off) dst) = Z.to_nat off)
    by (rewrite length_take; lia).
  case_decide as Hin.
  - rewrite lookup_app_r by lia. rewrite Hlt.
    rewrite lookup_app_l by lia. done.
  - destruct (decide (Z.of_nat j < off)) as [Hlow | Hhigh].
    + rewrite lookup_app_l by lia. apply lookup_take_lt. lia.
    + rewrite lookup_app_r by lia. rewrite Hlt.
      rewrite lookup_app_r by lia. rewrite lookup_drop. f_equal. lia.
Qed.

Lemma bytes_at_lookup src from n (i : nat) :
  0 <= from -> Z.of_nat i < n ->
  bytes_at src from n !! i = src !! (Z.to_nat from + i)%nat.
Proof.
  intros Hfrom Hi. unfold bytes_at.
  rewrite lookup_take_lt by lia. apply lookup_drop.
Qed.

(** The byte at place [i] of what [peek] returns sits at position
    [(readPos + i) mod capacity] of the storage. *)
Lemma peek_lookup rb n (i : nat) :
  wf rb -> 0 <= n <= available rb -> Z.of_nat i < n ->
  peek rb n !! i =
    buffer rb !! Z.to_nat ((readPos rb + Z.of_nat i) mod capacity rb).
Proof.
  intros Hwf Hn Hi.
  destruct (available_wf rb Hwf) as [_ Hav].
  destruct Hwf as (Hc & Hlen & Hr & Hw).
  unfold peek. rewrite Z.min_l by lia.
  destruct (Z.eqb_spec n 0) as [? | _]; [lia|].
  rewrite size_t_small by szlia.
  set (f := Z.min n (capacity rb - readPos rb)).
  assert (Hf : Z.of_nat (length (bytes_at (buffer rb) (readPos rb) f)) = f)
    by (apply bytes_at_length; lia).
  destruct (decide (Z.of_nat i < f)) as [Hfirst | Hsecond].
  - rewrite lookup_app_l by lia.
    rewrite bytes_at_lookup by lia.
    rewrite Z.mod_small by lia. f_equal. lia.
  - rewrite lookup_app_r by lia.
    destruct (Z.gtb_spec n f) as [Hgt | Hle]; [|lia].
    rewrite bytes_at_lookup by lia.
    replace (readPos rb + Z.of_nat i)
      with ((readPos rb + Z.of_nat i - capacity rb) + 1 * capacity rb) by lia.
    rewrite Z.mod_add by lia. rewrite Z.mod_small by lia.
    f_equal. lia.
Qed.

Lemma peek_length rb n :
  wf rb -> 0 <= n <= available rb -> Z.of_nat (length (peek rb n)) = n.
Proof.
  intros Hwf Hn.
  destruct (available_wf rb Hwf) as [_ Hav].
  destruct Hwf as (Hc & Hlen & Hr & Hw).
  unfold peek. rewrite Z.min_l by lia.
  destruct (Z.eqb_spec n 0) as [-> | Hnz]; [done|].
  rewrite size_t_small by szlia.
  set (f := Z.min n (capacity rb - readPos rb)).
  rewrite length_app, Nat2Z.inj_add, bytes_at_length by lia.
  destruct (Z.gtb_spec n f) as [Hgt | Hle].
  - rewrite bytes_at_length by lia. lia.
  - cbn. lia.
Qed.

Lemma mod_shift x c q : 0 <= x + q * c < c -> x mod c = x + q * c.
Proof.
  intros Hr. replace x with ((x + q * c) + (- q) * c) at 1 by lia.
  rewrite Z.mod_add by lia. apply Z.mod_small. lia.
Qed.

Lemma available_cases rb :
  wf rb ->
  (readPos rb <= writePos rb /\ available rb = writePos rb - readPos rb) \/
  (writePos rb < readPos rb /\
   available rb = writePos rb - readPos rb + capacity rb).
Proof.
  intros (Hc & _ & Hr & Hw). unfold available.
  destruct (Z.geb_spec (writePos rb) (readPos rb));
    rewrite size_t_small by szlia; lia.
Qed.

(** The storage after [write]: the accepted bytes sit at the positions
    that follow [writePos], wrapping around; all other bytes are as
    before. *)
Lemma write_buffer_lookup rb data (j : nat) :
  wf rb -> Z.of_nat j < capacity rb ->
  buffer (write rb data).1 !! j =
    if decide ((Z.of_nat j - writePos rb) mod capacity rb < (write rb data).2)
    then data !! Z.to_nat ((Z.of_nat j - writePos rb) mod capacity rb)
    else buffer rb !! j.
Proof.
  intros Hwf Hj.
  pose proof (write_accepts_bounds rb data Hwf) as [Hn Hfree].
  pose proof (freeSpace_wf rb Hwf) as Hfs.
  destruct (available_wf rb Hwf) as [_ Hav].
  destruct Hwf as (Hc & Hlen & Hr & Hw).
  pose proof (Z.mod_pos_bound (Z.of_nat j - writePos rb) (capacity rb)
                ltac:(lia)) as Hk.
  revert Hn Hfree. unfold write.
  set (n := Z.min (Z.of_nat (length data)) (freeSpace rb)).
  destruct (Z.eqb_spec n 0) as [Hz | Hnz]; cbn [fst snd buffer];
    intros Hn Hfree.
  - case_decide; [lia | done].
  - rewrite (size_t_small (capacity rb - writePos rb)) by szlia.
    set (f := Z.min n (capacity rb - writePos rb)).
    assert (Hfdef : f = Z.min n (capacity rb - writePos rb)) by done.
    clearbody f.
    assert (Hf : Z.of_nat (length (bytes_at data 0 f)) = f)
      by (apply bytes_at_length; lia).
    assert (Hl1 : length (memcpy (buffer rb) (writePos rb)
                            (bytes_at data 0 f)) = length (buffer rb))
      by (apply memcpy_length; lia).
    assert (Hb1 : memcpy (buffer rb) (writePos rb) (bytes_at data 0 f) !! j =
              if decide (writePos rb <= Z.of_nat j < writePos rb + f)
              then data !! (j - Z.to_nat (writePos rb))%nat
              else buffer rb !! j).
    { rewrite memcpy_lookup by lia. rewrite Hf.
      case_decide; [|done].
      rewrite bytes_at_lookup by lia. f_equal. }
    destruct (Z.gtb_spec n f) as [Hgt | Hle].
    + assert (Hd2 : Z.of_nat (length (bytes_at data f (n - f))) = n - f)
        by (apply bytes_at_length; lia).
      rewrite memcpy_lookup by lia. rewrite Hd2, Hb1. clear Hb1.
      destruct (decide (Z.of_nat j < writePos rb)) as [Hlow | Hhigh].
      * rewrite (mod_shift _ _ 1) by lia.
        repeat case_decide; try lia; try done.
        rewrite bytes_at_lookup by lia. f_equal. lia.
      * rewrite (mod_shift _ _ 0) by lia.
        repeat case_decide; try lia; try done. f_equal. lia.
    + rewrite Hb1. clear Hb1.
      destruct (decide (Z.of_nat j < writePos rb)) as [Hlow | Hhigh].
      * rewrite (mod_shift _ _ 1) by lia.
        repeat case_decide; try lia; done.
      * rewrite (mod_shift _ _ 0) by lia.
        repeat case_decide; try lia; try done. f_equal. lia.
Qed.

Lemma contents_length rb :
  wf rb -> Z.of_nat (length (contents rb)) = available rb.
Proof.
  intros Hwf. destruct (available_wf rb Hwf) as [_ Hav].
  apply peek_length; [done | lia].
Qed.

(** FIFO, the producer's side: [write] appends the bytes it accepts, a
    prefix of [data], behind the unread bytes of the ring. *)
Lemma write_appends rb data :
  wf rb ->
  contents (write rb data).1 =
    contents rb ++ take (Z.to_nat (write rb data).2) data.
Proof.
  intros Hwf.
  pose proof (write_wf rb data Hwf) as Hwf1.
  pose proof (write_accepts_bounds rb data Hwf) as [Hn Hfree].
  pose proof (freeSpace_wf rb Hwf) as Hfs.
  pose proof (write_available rb data Hwf) as Hav1.
  destruct (write_positions rb data Hwf) as (Hr1 & Hc1 & _).
  destruct (available_wf rb Hwf) as [_ Hav].
  pose proof (contents_length rb Hwf) as Hl0.
  pose proof (contents_length _ Hwf1) as Hl1.
  pose proof (available_cases rb Hwf) as Hcases.
  apply list_eq. intros i.
  destruct (decide (Z.of_nat i < available rb + (write rb data).2))
    as [Hin | Hout].
  - unfold contents at 1. rewrite peek_lookup by (done || lia).
    rewrite Hr1, Hc1.
    destruct Hwf as (Hc & Hlen & Hr & Hw).
    pose proof (Z.mod_pos_bound (readPos rb + Z.of_nat i) (capacity rb)
                  ltac:(lia)) as Hp.
    rewrite write_buffer_lookup by (done || lia).
    rewrite Z2Nat.id by lia. rewrite Zminus_mod_idemp_l.
    destruct (decide (Z.of_nat i < available rb)) as [Hold | Hnew].
    + rewrite lookup_app_l by lia.
      unfold contents. rewrite peek_lookup by (done || lia).
      assert (Hk : (readPos rb + Z.of_nat i - writePos rb) mod capacity rb =
                   Z.of_nat i - available rb + capacity rb).
      { destruct Hcases as [[? Heq] | [? Heq]].
        - rewrite (mod_shift _ _ 1); lia.
        - rewrite (mod_shift _ _ 0); lia. }
      rewrite Hk. case_decide; [lia | done].
    + rewrite lookup_app_r by lia.
      assert (Hk : (readPos rb + Z.of_nat i - writePos rb) mod capacity rb =
                   Z.of_nat i - available rb).
      { destruct Hcases as [[? Heq] | [? Heq]].
        - rewrite (mod_shift _ _ 0); lia.
        - rewrite (mod_shift _ _ (-1)); lia. }
      rewrite Hk. case_decide; [|lia].
      rewrite lookup_take_lt by lia. f_equal. lia.
  - rewrite lookup_ge_None_2 by lia.
    symmetry. apply lookup_ge_None_2.
    rewrite length_app, length_take. lia.
Qed.

Lemma peek_clamps rb m :
  peek rb m = peek rb (Z.min m (available rb)).
Proof.
  unfold peek.
  by replace (Z.min (Z.min m (available rb)) (available rb))
    with (Z.min m (available rb)) by lia.
Qed.

(** [peek] returns the first bytes of the unread contents and, unlike
    [read], leaves the ring as it is. *)
Lemma peek_prefix rb m :
  wf rb -> 0 <= m -> peek rb m = take (Z.to_nat m) (contents rb).
Proof.
  intros Hwf Hm. destruct (available_wf rb Hwf) as [_ Hav].
  pose proof (contents_length rb Hwf) as Hl.
  rewrite peek_clamps.
  set (n := Z.min m (available rb)).
  assert (Hn : 0 <= n <= available rb) by lia.
  pose proof (peek_length rb n Hwf Hn) as Hln.
  assert (Htake : take (Z.to_nat m) (contents rb) =
                  take (Z.to_nat n) (contents rb)).
  { destruct (decide (m <= available rb)); [f_equal; lia|].
    rewrite !take_ge by lia. done. }
  rewrite Htake.
  apply list_eq. intros i.
  destruct (decide (Z.of_nat i < n)) as [Hin | Hout].
  - rewrite lookup_take_lt by lia. unfold contents.
    by rewrite !peek_lookup by (done || lia).
  - rewrite lookup_take_ge by lia. apply lookup_ge_None_2. lia.
Qed.

Lemma read_is_peek rb m : (read rb m).2 = peek rb m.
Proof.
  unfold read, peek.
  by destruct (Z.min m (available rb) =? 0).
Qed.

(** FIFO, the consumer's side: [read] returns the oldest unread bytes
    and removes exactly those. *)
Lemma read_takes rb m :
  wf rb -> 0 <= m ->
  (read rb m).2 = take (Z.to_nat m) (contents rb) /\
  contents (read rb m).1 = drop (Z.to_nat m) (contents rb).
Proof.
  intros Hwf Hm. split; [rewrite read_is_peek; by apply peek_prefix|].
  pose proof (read_wf rb m Hwf Hm) as Hwf1.
  pose proof (read_available rb m Hwf Hm) as Hav1.
  destruct (read_positions rb m Hwf Hm) as (Hb1 & _ & Hc1 & Hr1).
  destruct (available_wf rb Hwf) as [_ Hav].
  pose proof (contents_length rb Hwf) as Hl0.
  pose proof (contents_length _ Hwf1) as Hl1.
  set (n := Z.min m (available rb)) in *.
  assert (Hn : n = Z.min m (available rb)) by done. clearbody n.
  assert (Hdrop : drop (Z.to_nat m) (contents rb) =
                  drop (Z.to_nat n) (contents rb)).
  { destruct (decide (m <= available rb)); [f_equal; lia|].
    rewrite !drop_ge by lia. done. }
  rewrite Hdrop. apply list_eq. intros i. rewrite lookup_drop.
  destruct (decide (Z.of_nat i < available rb - n)) as [Hin | Hout].
  - unfold contents. rewrite !peek_lookup by (done || lia).
    rewrite Hb1, Hc1, Hr1. rewrite Zplus_mod_idemp_l.
    do 3 f_equal. lia.
  - rewrite !lookup_ge_None_2 by lia. done.
Qed.

End RingFifo.

Section RingFifo2.
Import RingBuffer.
Local Ltac szlia := unfold PTRDIFF_MAX, SIZE_WIDTH in *; lia.

Lemma ring_wrapped_wf : wf ring_wrapped.
Proof. unfold wf, PTRDIFF_MAX. cbn. lia. Qed.

(** X1. [RingBuffer::write] on a well-formed ring accepts
    [min(size, capacity - 1 - available)] bytes and appends exactly that
    prefix of the data behind the bytes that were unread; nothing that was
    unread is overwritten, also when the write wraps around the end of
    the storage, and the ring stays well-formed. *)
Theorem write_appends_accepted_prefix :
  forall (rb : RingBuffer) (data : list Z),
    wf rb ->
    let accepted := (write rb data).2 in
    accepted = Z.min (Z.of_nat (length data)) (capacity rb - 1 - available rb) /\
    contents (write rb data).1 = contents rb ++ take (Z.to_nat accepted) data /\
    wf (write rb data).1.
Proof.
  intros rb data Hwf accepted. split; [|split].
  - unfold accepted. rewrite write_count, freeSpace_wf by done. done.
  - by apply write_appends.
  - by apply write_wf.
Qed.

Lemma write_appends_accepted_prefix_witness :
  (write ring_wrapped [1; 2; 3]).2 = 1 /\
  contents (write ring_wrapped [1; 2; 3]).1 = [10; 20; 30; 1].
Proof.
  destruct (write_appends_accepted_prefix ring_wrapped [1; 2; 3] ring_wrapped_wf)
    as (Hn & Hc & _).
  split; [exact Hn | exact Hc].
Defined.

(** X2. [RingBuffer::read] returns the oldest [min(maxSize, available)]
    unread bytes, in the order they were written, and removes exactly
    these from the ring; the bytes behind them stay, in order. *)
Theorem read_removes_oldest_bytes :
  forall (rb : RingBuffer) (maxSize : Z),
    wf rb -> 0 <= maxSize ->
    (read rb maxSize).2 = take (Z.to_nat maxSize) (contents rb) /\
    Z.of_nat (length (read rb maxSize).2) = Z.min maxSize (available rb) /\
    contents (read rb maxSize).1 = drop (Z.to_nat maxSize) (contents rb) /\
    wf (read rb maxSize).1.
Proof.
  intros rb maxSize Hwf Hm.
  destruct (read_takes rb maxSize Hwf Hm) as [Hout Hrest].
  pose proof (contents_length rb Hwf) as Hl.
  split; [done|]. split; [rewrite Hout, length_take; lia|].
  split; [done|]. by apply read_wf.
Qed.

Lemma read_removes_oldest_bytes_witness :
  (read ring_wrapped 2).2 = [10; 20] /\
  contents (read ring_wrapped 2).1 = [30].
Proof.
  destruct (read_removes_oldest_bytes ring_wrapped 2 ring_wrapped_wf)
    as (Hout & _ & Hrest & _); [lia|].
  split; [exact Hout | exact Hrest].
Defined.

(** X3. [RingBuffer::peek] returns the bytes the next [read] with the
    same [maxSize] would return, [min(maxSize, available)] of them. *)
Theorem peek_shows_next_read :
  forall (rb : RingBuffer) (maxSize : Z),
    wf rb -> 0 <= maxSize ->
    peek rb maxSize = take (Z.to_nat maxSize) (contents rb) /\
    peek rb maxSize = (read rb maxSize).2 /\
    Z.of_nat (length (peek rb maxSize)) = Z.min maxSize (available rb).
Proof.
  intros rb maxSize Hwf Hm.
  pose proof (peek_prefix rb maxSize Hwf Hm) as Hp.
  pose proof (contents_length rb Hwf) as Hl.
  split; [done|]. split; [by rewrite read_is_peek|].
  rewrite Hp, length_take. lia.
Qed.

Lemma peek_shows_next_read_witness :
  peek ring_wrapped 2 = [10; 20] /\
  peek ring_wrapped 2 = (read ring_wrapped 2).2.
Proof.
  destruct (peek_shows_next_read ring_wrapped 2 ring_wrapped_wf)
    as (Hp & Hr & _); [lia|].
  split; [exact Hp | exact Hr].
Defined.

(** X4. The ring is a FIFO queue: along any sequence of [write] and
    [read] calls, the bytes read so far followed by the bytes still
    unread are the bytes unread at the start followed by the bytes the
    writes accepted; the ring never holds more than [capacity - 1]
    bytes. *)
Theorem ring_is_fifo :
  forall (ops : list RingOp) (rb : RingBuffer),
    wf rb -> Forall ring_op_ok ops ->
    let '(rb', out, accepted) := ring_run rb ops in
    out ++ contents rb' = contents rb ++ accepted /\
    wf rb' /\
    Z.of_nat (length (contents rb')) <= capacity rb - 1 /\
    capacity rb' = capacity rb.
Proof.
  induction ops as [|[data | m] ops IH]; intros rb Hwf Hok.
  - cbn [ring_run]. pose proof (contents_length rb Hwf).
    destruct (available_wf rb Hwf) as [_ ?].
    rewrite app_nil_r. split; [done|]. split; [done|]. split; [lia | done].
  - apply Forall_cons in Hok as [_ Hok]. cbn [ring_run].
    pose proof (write_appends rb data Hwf) as Happ.
    pose proof (write_wf rb data Hwf) as Hwf1.
    destruct (write_positions rb data Hwf) as (_ & Hc1 & _).
    destruct (write rb data) as [rb1 n]. cbn [fst snd] in *.
    specialize (IH rb1 Hwf1 Hok).
    destruct (ring_run rb1 ops) as [[rb2 out] acc].
    destruct IH as (Hfifo & Hwf2 & Hlen & Hc2).
    rewrite Hfifo, Happ, app_assoc.
    split; [done|]. split; [done|]. split; [lia | congruence].
  - apply Forall_cons in Hok as [Hm Hok]. cbn [ring_run ring_op_ok] in *.
    destruct (read_takes rb m Hwf Hm) as [Hout Hrest].
    pose proof (read_wf rb m Hwf Hm) as Hwf1.
    destruct (read_positions rb m Hwf Hm) as (_ & _ & Hc1 & _).
    destruct (read rb m) as [rb1 got]. cbn [fst snd] in *.
    specialize (IH rb1 Hwf1 Hok).
    destruct (ring_run rb1 ops) as [[rb2 out] acc].
    destruct IH as (Hfifo & Hwf2 & Hlen & Hc2).
    rewrite <- app_assoc, Hfifo, Hrest, Hout, app_assoc, take_drop.
    split; [done|]. split; [done|]. split; [lia | congruence].
Qed.

Lemma ring_is_fifo_witness :
  let ops := [RingRead 2; RingWrite [1; 2; 3; 4]; RingRead 10] in
  ring_run ring_wrapped ops =
    (mkRingBuffer [30; 1; 2; 3; 20] 4 4 5, [10; 20; 30; 1; 2; 3], [1; 2; 3]) /\
  let '(rb', out, accepted) := ring_run ring_wrapped ops in
  out ++ contents rb' = contents ring_wrapped ++ accepted.
Proof.
  intros ops. split; [reflexivity|].
  assert (Hok : Forall ring_op_ok ops) by (repeat constructor; cbn; lia).
  pose proof (ring_is_fifo ops ring_wrapped ring_wrapped_wf Hok) as H.
  destruct (ring_run ring_wrapped ops) as [[rb' out] accepted].
  exact (proj1 H).
Defined.

End RingFifo2.

Section RingBounds.
Import RingBuffer.
Local Ltac szlia := unfold PTRDIFF_MAX, SIZE_WIDTH in *; lia.

Lemma contents_nil_iff rb : wf rb -> contents rb = [] <-> available rb = 0.
Proof.
  intros Hwf. pose proof (contents_length rb Hwf) as Hl. split.
  - intros Hnil. rewrite Hnil in Hl. cbn in Hl. lia.
  - intros Hz. apply nil_length_inv. lia.
Qed.

(** X5. [available() + freeSpace()] is always [capacity - 1].  A ring is
    full when it holds [capacity - 1] bytes, and a write to a full ring
    accepts nothing and changes nothing; it is empty when no byte is
    unread, and a read from an empty ring returns nothing and changes
    nothing.  A ring of capacity 1 can never take a byte. *)
Theorem ring_full_and_empty :
  forall rb : RingBuffer,
    wf rb ->
    available rb + freeSpace rb = capacity rb - 1 /\
    (full rb = true <-> available rb = capacity rb - 1) /\
    (empty rb = true <-> contents rb = []) /\
    (full rb = true -> forall data, write rb data = (rb, 0)) /\
    (empty rb = true -> forall maxSize, 0 <= maxSize ->
       read rb maxSize = (rb, [])) /\
    (capacity rb = 1 -> forall data, write rb data = (rb, 0)).
Proof.
  intros rb Hwf.
  pose proof (freeSpace_wf rb Hwf) as Hfs.
  destruct (available_wf rb Hwf) as [_ Hav].
  assert (Hfull : forall data, freeSpace rb = 0 -> write rb data = (rb, 0)).
  { intros data Hz. unfold write. rewrite Hz.
    rewrite Z.min_r by lia. done. }
  split; [lia|]. split; [|split; [|split; [|split]]].
  - unfold full. rewrite Z.eqb_eq. lia.
  - unfold empty. rewrite Z.eqb_eq. symmetry. by apply contents_nil_iff.
  - intros Hf data. apply Hfull. unfold full in Hf. by apply Z.eqb_eq in Hf.
  - intros He maxSize Hm. unfold empty in He. apply Z.eqb_eq in He.
    unfold read. rewrite He, Z.min_r by lia. done.
  - intros Hone data. apply Hfull. lia.
Qed.

Lemma ring_full_and_empty_witness :
  let rb := mkRingBuffer [7; 8; 9; 0] 0 3 4 in
  full rb = true /\ write rb [1; 2] = (rb, 0).
Proof.
  intros rb.
  assert (Hwf : wf rb) by (unfold wf, PTRDIFF_MAX; cbn; lia).
  destruct (ring_full_and_empty rb Hwf) as (_ & _ & _ & Hfull & _).
  split; [reflexivity | by apply Hfull].
Defined.

(** X6. [RingBuffer::clear] throws away the unread bytes: afterwards the
    ring is empty, a read returns nothing, and the whole [capacity - 1]
    bytes are free for the next write. *)
Theorem clear_discards_unread_bytes :
  forall rb : RingBuffer,
    wf rb ->
    wf (clear rb) /\
    contents (clear rb) = [] /\
    available (clear rb) = 0 /\
    freeSpace (clear rb) = capacity rb - 1 /\
    (forall maxSize, 0 <= maxSize -> (read (clear rb) maxSize).2 = []) /\
    (forall data,
       (write (clear rb) data).2 =
         Z.min (Z.of_nat (length data)) (capacity rb - 1)).
Proof.
  intros rb Hwf.
  assert (Hwf' : wf (clear rb)).
  { destruct Hwf as (Hc & Hlen & _ & _). unfold wf, clear. cbn. lia. }
  assert (Hav : available (clear rb) = 0)
    by (apply available_empty; [done | reflexivity]).
  assert (Hnil : contents (clear rb) = [])
    by (by apply contents_nil_iff).
  pose proof (freeSpace_wf _ Hwf') as Hfs. rewrite Hav in Hfs.
  cbn [clear capacity] in Hfs.
  split; [done|]. split; [done|]. split; [done|]. split; [lia|]. split.
  - intros maxSize Hm.
    destruct (read_takes (clear rb) maxSize Hwf' Hm) as [-> _].
    rewrite Hnil. apply take_nil.
  - intros data. rewrite write_count by done. rewrite Hfs. f_equal. lia.
Qed.

Lemma clear_discards_unread_bytes_witness :
  contents ring_wrapped = [10; 20; 30] /\
  contents (clear ring_wrapped) = [] /\
  freeSpace (clear ring_wrapped) = 4.
Proof.
  destruct (clear_discards_unread_bytes ring_wrapped ring_wrapped_wf)
    as (_ & Hnil & _ & Hfree & _).
  split; [reflexivity|]. split; [exact Hnil | exact Hfree].
Defined.

End RingBounds.

(* --------------------------------------------------------------------- *)
(** ** The descriptors of the six pipes                                   *)
(* --------------------------------------------------------------------- *)

Section HostProofs.

Set Warnings "-clear-no-such-hyp".

Lemma lowest_free_spec (t : gmap Z Descriptor) fuel from :
  from <= Sys.lowest_free t from fuel <= from + Z.of_nat fuel /\
  (forall k, from <= k < Sys.lowest_free t from fuel -> is_Some (t !! k)) /\
  (Sys.lowest_free t from fuel < from + Z.of_nat fuel ->
   t !! Sys.lowest_free t from fuel = None).
Proof.
  revert from. induction fuel as [|fuel IH]; intros from.
  - cbn. split; [lia|]. split; intros; lia.
  - cbn [Sys.lowest_free]. destruct (t !! from) eqn:Hfrom.
    + destruct (IH (from + 1)) as (Hr & Hocc & Hfree).
      split; [lia|]. split.
      * intros k Hk. destruct (decide (k = from)) as [-> | ?]; [by eexists|].
        apply Hocc. lia.
      * intros Hlt. apply Hfree. lia.
    + split; [lia|]. split; [intros; lia | done].
Qed.

(** The descriptor the kernel hands out is not negative and not open. *)
Lemma alloc_fd_fresh (t : gmap Z Descriptor) :
  0 <= Sys.alloc_fd t /\ t !! Sys.alloc_fd t = None.
Proof.
  unfold Sys.alloc_fd.
  destruct (lowest_free_spec t (size t) 0) as (Hr & Hocc & Hfree).
  split; [lia|].
  destruct (decide (Sys.lowest_free t 0 (size t) < 0 + Z.of_nat (size t)))
    as [Hlt | Hge]; [by apply Hfree|].
  assert (Hfull : Sys.lowest_free t 0 (size t) = Z.of_nat (size t)) by lia.
  rewrite Hfull in *.
  set (S := list_to_set (Z.of_nat <$> seq 0 (size t)) : gset Z).
  assert (Hsub : S ⊆ dom t).
  { intros k Hk. apply elem_of_list_to_set, list_elem_of_fmap in Hk
      as (i & -> & Hi). apply elem_of_seq in Hi.
    apply elem_of_dom, Hocc. lia. }
  assert (Hsize : size S = size t).
  { unfold S. rewrite size_list_to_set.
    - by rewrite length_fmap, length_seq.
    - apply NoDup_fmap; [intros ???; lia | apply NoDup_seq]. }
  assert (Heq : S = dom t).
  { apply set_subseteq_size_eq; [done|]. rewrite size_dom. lia. }
  apply not_elem_of_dom. rewrite <- Heq. unfold S.
  rewrite elem_of_list_to_set, list_elem_of_fmap.
  intros (i & Hi & Hin). apply elem_of_seq in Hin. lia.
Qed.

Lemma pipe2_some h cloexec r w h' :
  Sys.pipe2 h cloexec = (Some (r, w), h') ->
  0 <= r /\ r < w /\ w < nofile h /\
  fdtable h !! r = None /\ fdtable h !! w = None /\
  h' = mkHost
         (<[w := mkDescriptor (next_pipe h) WriteEnd cloexec]>
            (<[r := mkDescriptor (next_pipe h) ReadEnd cloexec]> (fdtable h)))
         (<[next_pipe h := []]> (pipedata h)) (S (next_pipe h))
         (nofile h) (errno h).
Proof.
  unfold Sys.pipe2.
  set (r0 := Sys.alloc_fd (fdtable h)).
  set (t1 := <[r0 := mkDescriptor (next_pipe h) ReadEnd cloexec]> (fdtable h)).
  set (w0 := Sys.alloc_fd t1).
  destruct (alloc_fd_fresh (fdtable h)) as [Hr Hrfree].
  destruct (alloc_fd_fresh t1) as [Hw Hwfree].
  fold r0 in Hr, Hrfree. fold w0 in Hw, Hwfree.
  destruct (Z.leb_spec (nofile h) w0) as [Hfull | Hroom]; [done|].
  intros [= <- <- <-].
  assert (Hne : r0 ≠ w0).
  { intros Heq. rewrite <- Heq in Hwfree. unfold t1 in Hwfree.
    by rewrite lookup_insert_eq in Hwfree. }
  assert (Hlt : r0 < w0).
  { destruct (decide (r0 < w0)) as [? | Hge]; [done|]. exfalso.
    destruct (lowest_free_spec (fdtable h) (size (fdtable h)) 0)
      as (_ & Hocc & _).
    fold (Sys.alloc_fd (fdtable h)) in Hocc. fold r0 in Hocc.
    destruct (Hocc w0 ltac:(lia)) as [d Hd].
    unfold t1 in Hwfree. rewrite lookup_insert_ne in Hwfree by done.
    congruence. }
  unfold t1 in Hwfree. rewrite lookup_insert_ne in Hwfree by done.
  done.
Qed.

Lemma pipe2_none h cloexec h' :
  Sys.pipe2 h cloexec = (None, h') -> h' = Sys.set_errno h EMFILE.
Proof.
  unfold Sys.pipe2.
  destruct (nofile h <=? _); [|done]. by intros [= <-].
Qed.

Local Abbreviation deletes p :=
  (foldl (fun (t : gmap Z Descriptor) (i : nat) =>
            if HexStreamPipes.get p i >=? 0
            then delete (HexStreamPipes.get p i) t else t)).

(** Closing leaves a descriptor alone unless an open slot holds it. *)
Lemma deletes_lookup_unheld p (l : list nat) (t : gmap Z Descriptor) k :
  (forall i, i ∈ l -> 0 <= HexStreamPipes.get p i ->
     HexStreamPipes.get p i ≠ k) ->
  deletes p t l !! k = t !! k.
Proof.
  revert t. induction l as [|i l IH]; intros t Hne; [done|].
  cbn [foldl]. rewrite IH by (intros j Hj; apply Hne; set_solver).
  destruct (Z.geb_spec (HexStreamPipes.get p i) 0) as [Hopen | ?]; [|done].
  apply lookup_delete_ne, Hne; [set_solver | lia].
Qed.

(** The loop of [HexStreamPipes::close] over the slots of [l]. *)
Lemma close_fold_spec p (l : list nat) :
  NoDup l ->
  forall acc,
    (forall i, i ∈ l -> HexStreamPipes.get acc.1 i = HexStreamPipes.get p i) ->
    fdtable (foldl HexStreamPipes.close_one acc l).2 =
      deletes p (fdtable acc.2) l /\
    pipedata (foldl HexStreamPipes.close_one acc l).2 = pipedata acc.2 /\
    (forall j,
       HexStreamPipes.get (foldl HexStreamPipes.close_one acc l).1 j =
         if decide (j ∈ l /\ 0 <= HexStreamPipes.get p j)
         then -1 else HexStreamPipes.get acc.1 j).
Proof.
  induction 1 as [|i l Hnotin Hnodup IH]; intros [p0 h0] Hagree.
  - cbn [foldl fst snd]. split; [done|]. split; [done|].
    intros j. case_decide as Hj; [|done]. destruct Hj as [Hj _]. set_solver.
  - cbn [foldl]. cbn [fst snd] in Hagree.
    assert (Hi : HexStreamPipes.get p0 i = HexStreamPipes.get p i)
      by (apply Hagree; set_solver).
    unfold HexStreamPipes.close_one at 2 4 6. rewrite Hi.
    destruct (Z.geb_spec (HexStreamPipes.get p i) 0) as [Hopen | Hclosed].
    + destruct (IH (HexStreamPipes.set p0 i (-1),
                    (Sys.close h0 (HexStreamPipes.get p i)).2))
        as (Ht & Hd & Hslots).
      { intros j Hj. cbn [fst]. rewrite pipes_get_set_ne by set_solver.
        apply Hagree. set_solver. }
      cbn [fst snd] in *. rewrite Ht, Hd, close_table.
      split; [done|]. split.
      { unfold Sys.close. by destruct (fdtable h0 !! _). }
      intros j. rewrite Hslots.
      destruct (decide (j = i)) as [-> | Hne].
      * rewrite decide_False by (intros [? _]; done).
        rewrite decide_True by (split; [left | lia]).
        destruct (pipes_get_set_eq p0 i (-1)) as [-> | [-> _]]; done.
      * rewrite pipes_get_set_ne by done.
        apply decide_ext. rewrite elem_of_cons. naive_solver.
    + destruct (IH (p0, h0)) as (Ht & Hd & Hslots).
      { intros j Hj. apply Hagree. set_solver. }
      cbn [fst snd] in *. rewrite Ht, Hd.
      split; [done|]. split; [done|].
      intros j. rewrite Hslots. apply decide_ext. rewrite elem_of_cons.
      split; [naive_solver|]. intros [[-> | ?] ?]; [lia | done].
Qed.

(** What [HexStreamPipes::close] does. *)
Lemma pipes_close_spec :
  forall (p : HexStreamPipes) (h : Host),
    let p' := (HexStreamPipes.close p h).1 in
    let h' := (HexStreamPipes.close p h).2 in
    (forall j, (j < 12)%nat ->
       HexStreamPipes.get p' j =
         if decide (0 <= HexStreamPipes.get p j)
         then -1 else HexStreamPipes.get p j) /\
    HexStreamPipes.isValid p' = false /\
    (forall j, (j < 12)%nat -> 0 <= HexStreamPipes.get p j ->
       fdtable h' !! HexStreamPipes.get p j = None) /\
    (forall k,
       (forall j, (j < 12)%nat -> 0 <= HexStreamPipes.get p j ->
          HexStreamPipes.get p j ≠ k) ->
       fdtable h' !! k = fdtable h !! k) /\
    pipedata h' = pipedata h /\
    HexStreamPipes.close p' h' = (p', h').
Proof.
  intros p h p' h'.
  destruct (close_fold_spec p (seq 0 12) (NoDup_seq 0 12) (p, h))
    as (Ht & Hd & Hslots); [done|].
  cbn [fst snd] in Ht, Hd, Hslots.
  fold (HexStreamPipes.close p h) in Ht, Hd, Hslots. fold p' in Hslots.
  fold h' in Ht, Hd.
  assert (Hneg : forall j, (j < 12)%nat -> HexStreamPipes.get p' j < 0).
  { intros j Hj. rewrite Hslots. case_decide as Hc; [lia|].
    destruct (decide (0 <= HexStreamPipes.get p j)); [|lia].
    exfalso. apply Hc. split; [apply elem_of_seq; lia | done]. }
  split; [|split; [|split; [|split; [|split]]]].
  - intros j Hj. rewrite Hslots.
    case_decide as Hc; case_decide as Hopen; try done; exfalso.
    + destruct Hc as [_ ?]. lia.
    + apply Hc. split; [apply elem_of_seq; lia | done].
  - unfold HexStreamPipes.isValid.
    pose proof (Hneg 0%nat ltac:(lia)).
    destruct (Z.geb_spec (HexStreamPipes.get p' 0) 0); [lia | done].
  - intros j Hj Hopen. rewrite Ht.
    apply deletes_lookup_closed; [apply elem_of_seq; lia | done].
  - intros k Hk. rewrite Ht. apply deletes_lookup_unheld.
    intros i Hi. apply elem_of_seq in Hi. apply Hk. lia.
  - done.
  - unfold HexStreamPipes.close.
    assert (Hidle : forall (l : list nat),
              (forall j, j ∈ l -> (j < 12)%nat) ->
              foldl HexStreamPipes.close_one (p', h') l = (p', h')).
    { induction l as [|j l IH]; intros Hl; [done|].
      cbn [foldl]. unfold HexStreamPipes.close_one at 2.
      pose proof (Hneg j ltac:(apply Hl; left)).
      destruct (Z.geb_spec (HexStreamPipes.get p' j) 0); [lia|].
      apply IH. intros i Hi. apply Hl. by right. }
    apply Hidle. intros j Hj. apply elem_of_seq in Hj. lia.
Qed.


(** X7. [HexStreamPipes::close] closes the descriptor of every slot that
    is open and marks the slot [-1]; slots already closed are skipped, so
    no descriptor that the pipe set does not hold is touched.  Afterwards
    [isValid] is false, and closing again does nothing. *)
Theorem pipes_close_closes_every_open_slot :
  forall (p : HexStreamPipes) (h : Host),
    let p' := (HexStreamPipes.close p h).1 in
    let h' := (HexStreamPipes.close p h).2 in
    (forall j, (j < 12)%nat ->
       HexStreamPipes.get p' j =
         if decide (0 <= HexStreamPipes.get p j)
         then -1 else HexStreamPipes.get p j) /\
    HexStreamPipes.isValid p' = false /\
    (forall j, (j < 12)%nat -> 0 <= HexStreamPipes.get p j ->
       fdtable h' !! HexStreamPipes.get p j = None) /\
    (forall k,
       (forall j, (j < 12)%nat -> 0 <= HexStreamPipes.get p j ->
          HexStreamPipes.get p j ≠ k) ->
       fdtable h' !! k = fdtable h !! k) /\
    pipedata h' = pipedata h /\
    HexStreamPipes.close p' h' = (p', h').
Proof. exact pipes_close_spec. Qed.

End HostProofs.

Section CreatePipesProofs.

Set Warnings "-clear-no-such-hyp".

Lemma pipes_set_length p i v :
  length (fds (HexStreamPipes.set p i v)) = length (fds p).
Proof. unfold HexStreamPipes.set. cbn [fds]. apply length_insert. Qed.

Lemma pipes_get_set_in p i v :
  (i < length (fds p))%nat ->
  HexStreamPipes.get (HexStreamPipes.set p i v) i = v.
Proof.
  intros Hi. unfold HexStreamPipes.get, HexStreamPipes.set. cbn [fds].
  by rewrite list_lookup_insert_eq.
Qed.

(** The loop of [createPipes] over the streams [a .. a + n - 1], when it
    runs to its end. *)
Lemma createPipes_from_ok n :
  forall a sc h sc' h',
    (a + n <= 6)%nat ->
    length (fds (pipes sc)) = 12%nat ->
    StreamController.createPipes_from (seq a n) sc h = (true, sc', h') ->
    length (fds (pipes sc')) = 12%nat /\
    (forall j, (j < 2 * a \/ 2 * (a + n) <= j)%nat ->
       HexStreamPipes.get (pipes sc') j = HexStreamPipes.get (pipes sc) j) /\
    (forall k d, fdtable h !! k = Some d -> fdtable h' !! k = Some d) /\
    (forall k, is_Some (fdtable h' !! k) ->
       is_Some (fdtable h !! k) \/
       exists j, (2 * a <= j < 2 * (a + n))%nat /\
                 k = HexStreamPipes.get (pipes sc') j) /\
    (forall i, (a <= i < a + n)%nat ->
       fdtable h' !! HexStreamPipes.get (pipes sc') (2 * i) =
         Some (mkDescriptor (next_pipe h + (i - a)) ReadEnd true) /\
       fdtable h' !! HexStreamPipes.get (pipes sc') (2 * i + 1) =
         Some (mkDescriptor (next_pipe h + (i - a)) WriteEnd true) /\
       fdtable h !! HexStreamPipes.get (pipes sc') (2 * i) = None /\
       fdtable h !! HexStreamPipes.get (pipes sc') (2 * i + 1) = None /\
       0 <= HexStreamPipes.get (pipes sc') (2 * i) < nofile h /\
       0 <= HexStreamPipes.get (pipes sc') (2 * i + 1) < nofile h) /\
    next_pipe h' = (next_pipe h + n)%nat /\
    nofile h' = nofile h /\
    buffers sc' = buffers sc /\ drainers sc' = drainers sc /\
    callbacks sc' = callbacks sc /\ foregroundMode sc' = foregroundMode sc.
Proof.
  induction n as [|n IH]; intros a sc h sc' h' Han Hlen Hrun.
  - cbn in Hrun. injection Hrun as <- <-.
    split; [done|]. split; [done|]. split; [done|].
    split; [by left|]. split; [intros; lia|].
    split; [lia|]. done.
  - cbn [seq StreamController.createPipes_from] in Hrun.
    destruct (Sys.pipe2 h true) as [[[r w]|] h1] eqn:Hpipe.
    2:{ by destruct (StreamController.close sc h1). }
    destruct (pipe2_some _ _ _ _ _ Hpipe)
      as (Hr & Hrw & Hlim & Hrfree & Hwfree & Hh1).
    set (p2 := HexStreamPipes.set
                 (HexStreamPipes.set (pipes sc) (a * 2) r) (a * 2 + 1) w) in *.
    assert (Hlen2 : length (fds p2) = 12%nat)
      by (unfold p2; by rewrite !pipes_set_length).
    destruct (IH (S a) (StreamController.set_pipes sc p2) h1 sc' h'
                ltac:(lia) Hlen2 Hrun)
      as (Hl & Hslots & Hmono & Honly & Hnew & Hnp & Hnf & Hb & Hd & Hcb & Hfg).
    cbn [pipes StreamController.set_pipes buffers drainers callbacks
         foregroundMode] in *.
    assert (Hget_r : HexStreamPipes.get (pipes sc') (2 * a) = r).
    { rewrite Hslots by lia. unfold p2.
      rewrite pipes_get_set_ne by lia.
      replace (2 * a)%nat with (a * 2)%nat by lia.
      apply pipes_get_set_in. lia. }
    assert (Hget_w : HexStreamPipes.get (pipes sc') (2 * a + 1) = w).
    { rewrite Hslots by lia. unfold p2.
      replace (2 * a + 1)%nat with (a * 2 + 1)%nat by lia.
      apply pipes_get_set_in. rewrite pipes_set_length. lia. }
    assert (Ht1 : forall k,
              fdtable h1 !! k =
                if decide (k = w)
                then Some (mkDescriptor (next_pipe h) WriteEnd true)
                else if decide (k = r)
                then Some (mkDescriptor (next_pipe h) ReadEnd true)
                else fdtable h !! k).
    { intros k. rewrite Hh1. cbn [fdtable].
      repeat case_decide; subst; simplify_map_eq; done. }
    assert (Hnp1 : next_pipe h1 = S (next_pipe h)) by (by rewrite Hh1).
    assert (Hnf1 : nofile h1 = nofile h) by (by rewrite Hh1).
    split; [done|]. split.
    { intros j Hj. rewrite Hslots by lia. unfold p2.
      rewrite !pipes_get_set_ne by lia. done. }
    split.
    { intros k d Hk. apply Hmono. rewrite Ht1.
      repeat case_decide; subst; congruence. }
    split.
    { intros k Hk. destruct (Honly k Hk) as [Hold | (j & Hj & ->)].
      - rewrite Ht1 in Hold. repeat case_decide; subst.
        + right. exists (2 * a + 1)%nat. split; [lia | done].
        + right. exists (2 * a)%nat. split; [lia | done].
        + by left.
      - right. exists j. split; [lia | done]. }
    split.
    { intros i Hi. destruct (decide (i = a)) as [-> | Hne].
      - rewrite Hget_r, Hget_w.
        replace (next_pipe h + (a - a))%nat with (next_pipe h) by lia.
        split; [apply Hmono; rewrite Ht1; repeat case_decide; try done; lia|].
        split; [apply Hmono; rewrite Ht1; repeat case_decide; try done; lia|].
        split; [done|]. split; [done|].
        lia.
      - destruct (Hnew i ltac:(lia)) as (H1 & H2 & H3 & H4 & H5 & H6).
        rewrite Hnp1 in H1, H2. rewrite Hnf1 in H5, H6.
        replace (next_pipe h + (i - a))%nat
          with (S (next_pipe h) + (i - S a))%nat by lia.
        rewrite Ht1 in H3, H4.
        split; [done|]. split; [done|].
        split; [repeat case_decide; congruence|].
        split; [repeat case_decide; congruence|]. done. }
    rewrite Hnp, Hnp1, Hnf, Hnf1. split; [lia|]. done.
Qed.

(** The pipes a successful [createPipes] makes start empty. *)
Lemma createPipes_from_pipedata n :
  forall a sc h sc' h',
    StreamController.createPipes_from (seq a n) sc h = (true, sc', h') ->
    (forall i, (i < n)%nat -> pipedata h' !! (next_pipe h + i)%nat = Some []) /\
    (forall q, (q < next_pipe h)%nat -> pipedata h' !! q = pipedata h !! q).
Proof.
  induction n as [|n IH]; intros a sc h sc' h' Hrun.
  - cbn in Hrun. injection Hrun as <- <-. split; [intros; lia | done].
  - cbn [seq StreamController.createPipes_from] in Hrun.
    destruct (Sys.pipe2 h true) as [[[r w]|] h1] eqn:Hpipe.
    2:{ by destruct (StreamController.close sc h1). }
    destruct (pipe2_some _ _ _ _ _ Hpipe) as (_ & _ & _ & _ & _ & Hh1).
    destruct (IH _ _ _ _ _ Hrun) as [Hnew Hold].
    assert (Hnp : next_pipe h1 = S (next_pipe h)) by (by rewrite Hh1).
    assert (Hpd : pipedata h1 = <[next_pipe h := []]> (pipedata h))
      by (by rewrite Hh1).
    rewrite Hnp in Hnew, Hold. split.
    + intros i Hi. destruct i as [|i].
      * rewrite Nat.add_0_r, Hold by lia. rewrite Hpd.
        apply lookup_insert_eq.
      * replace (next_pipe h + S i)%nat with (S (next_pipe h) + i)%nat by lia.
        apply Hnew. lia.
    + intros q Hq. rewrite Hold by lia. rewrite Hpd.
      apply lookup_insert_ne. lia.
Qed.

Lemma pipes_get_lookup p j :
  (j < length (fds p))%nat -> fds p !! j = Some (HexStreamPipes.get p j).
Proof.
  intros Hj. unfold HexStreamPipes.get.
  destruct (fds p !! j) eqn:Hl; [done|].
  apply lookup_ge_None in Hl. lia.
Qed.

(** What a successful [createPipes] leaves behind. *)
Lemma createPipes_spec :
  forall (sc sc' : StreamController) (h h' : Host),
    length (fds (pipes sc)) = 12%nat ->
    StreamController.createPipes sc h = (true, sc', h') ->
    (forall i, (i < 6)%nat ->
       fdtable h' !! HexStreamPipes.get (pipes sc') (2 * i) =
         Some (mkDescriptor (next_pipe h + i) ReadEnd true) /\
       fdtable h' !! HexStreamPipes.get (pipes sc') (2 * i + 1) =
         Some (mkDescriptor (next_pipe h + i) WriteEnd true)) /\
    (forall j, (j < 12)%nat ->
       0 <= HexStreamPipes.get (pipes sc') j < nofile h /\
       fdtable h !! HexStreamPipes.get (pipes sc') j = None) /\
    NoDup (fds (pipes sc')) /\
    HexStreamPipes.isValid (pipes sc') = true /\
    (forall k d, fdtable h !! k = Some d -> fdtable h' !! k = Some d) /\
    (forall k, is_Some (fdtable h' !! k) ->
       is_Some (fdtable h !! k) \/ k ∈ fds (pipes sc')).
Proof.
  intros sc sc' h h' Hlen Hrun. unfold StreamController.createPipes in Hrun.
  destruct (createPipes_from_ok 6 0 sc h sc' h' ltac:(lia) Hlen Hrun)
    as (Hl & _ & Hmono & Honly & Hnew & _).
  assert (Hslot : forall j, (j < 12)%nat ->
            exists i, (i < 6)%nat /\ (j = 2 * i \/ j = 2 * i + 1)%nat).
  { intros j Hj. exists (j / 2)%nat.
    pose proof (Nat.div_mod_eq j 2). pose proof (Nat.mod_upper_bound j 2).
    split; [apply Nat.Div0.div_lt_upper_bound; lia | lia]. }
  assert (Hends : forall i, (i < 6)%nat ->
            fdtable h' !! HexStreamPipes.get (pipes sc') (2 * i) =
              Some (mkDescriptor (next_pipe h + i) ReadEnd true) /\
            fdtable h' !! HexStreamPipes.get (pipes sc') (2 * i + 1) =
              Some (mkDescriptor (next_pipe h + i) WriteEnd true)).
  { intros i Hi. destruct (Hnew i ltac:(lia)) as (H1 & H2 & _).
    replace (i - 0)%nat with i in * by lia. done. }
  split; [done|]. split.
  { intros j Hj. destruct (Hslot j Hj) as (i & Hi & [-> | ->]);
      destruct (Hnew i ltac:(lia)) as (_ & _ & H3 & H4 & H5 & H6); done. }
  split.
  { apply NoDup_alt. intros j1 j2 x H1 H2.
    pose proof (lookup_lt_Some _ _ _ H1) as Hj1.
    pose proof (lookup_lt_Some _ _ _ H2) as Hj2.
    rewrite Hl in Hj1, Hj2.
    rewrite pipes_get_lookup in H1, H2 by lia.
    injection H1 as H1. injection H2 as H2.
    destruct (Hslot j1 Hj1) as (i1 & Hi1 & Hc1).
    destruct (Hslot j2 Hj2) as (i2 & Hi2 & Hc2).
    destruct (Hends i1 Hi1) as [Hr1 Hw1].
    destruct (Hends i2 Hi2) as [Hr2 Hw2].
    destruct Hc1 as [-> | ->], Hc2 as [-> | ->];
      rewrite <- H2 in H1; rewrite H1 in *;
      try (rewrite Hr1 in Hr2; injection Hr2 as Hp; lia);
      try (rewrite Hw1 in Hw2; injection Hw2 as Hp; lia);
      try (rewrite Hr1 in Hw2; discriminate);
      try (rewrite Hw1 in Hr2; discriminate). }
  split.
  { unfold HexStreamPipes.isValid.
    destruct (Hnew 0%nat ltac:(lia)) as (_ & _ & _ & _ & H0 & _).
    destruct (Hnew 1%nat ltac:(lia)) as (_ & _ & _ & _ & H2 & _).
    destruct (Hnew 2%nat ltac:(lia)) as (_ & _ & _ & _ & H4 & _).
    cbn [Nat.mul Nat.add] in H0, H2, H4.
    rewrite !andb_true_iff, !Z.geb_le. lia. }
  split; [done|].
  intros k Hk. destruct (Honly k Hk) as [? | (j & Hj & ->)]; [by left|].
  right. apply list_elem_of_lookup. exists j.
  apply pipes_get_lookup. lia.
Qed.

(** X8. When [createPipes] succeeds, slot [2i] holds the read end and
    slot [2i + 1] the write end of the same new pipe, for each of the six
    streams; the twelve descriptors are distinct, were free before, are
    all close-on-exec, and the descriptors the process had before are
    untouched. *)
Theorem createPipes_builds_six_pipes :
  forall (sc sc' : StreamController) (h h' : Host),
    length (fds (pipes sc)) = 12%nat ->
    StreamController.createPipes sc h = (true, sc', h') ->
    (forall i, (i < 6)%nat ->
       fdtable h' !! HexStreamPipes.get (pipes sc') (2 * i) =
         Some (mkDescriptor (next_pipe h + i) ReadEnd true) /\
       fdtable h' !! HexStreamPipes.get (pipes sc') (2 * i + 1) =
         Some (mkDescriptor (next_pipe h + i) WriteEnd true)) /\
    (forall j, (j < 12)%nat ->
       0 <= HexStreamPipes.get (pipes sc') j < nofile h /\
       fdtable h !! HexStreamPipes.get (pipes sc') j = None) /\
    NoDup (fds (pipes sc')) /\
    HexStreamPipes.isValid (pipes sc') = true /\
    (forall k d, fdtable h !! k = Some d -> fdtable h' !! k = Some d) /\
    (forall k, is_Some (fdtable h' !! k) ->
       is_Some (fdtable h !! k) \/ k ∈ fds (pipes sc')).
Proof. exact createPipes_spec. Qed.

Lemma createPipes_builds_six_pipes_witness :
  let made := StreamController.createPipes blank_controller (host_with 3) in
  fds (pipes made.1.2) = [3; 4; 5; 6; 7; 8; 9; 10; 11; 12; 13; 14] /\
  NoDup (fds (pipes made.1.2)) /\
  HexStreamPipes.isValid (pipes made.1.2) = true.
Proof.
  intros made.
  assert (Hrun : StreamController.createPipes blank_controller (host_with 3) =
                 (true, made.1.2, made.2)) by (vm_compute; reflexivity).
  destruct (createPipes_builds_six_pipes blank_controller made.1.2
              (host_with 3) made.2 eq_refl Hrun)
    as (_ & _ & Hnodup & Hvalid & _).
  split; [vm_compute; reflexivity|]. split; [exact Hnodup | exact Hvalid].
Defined.

Local Abbreviation deletes p :=
  (foldl (fun (t : gmap Z Descriptor) (i : nat) =>
            if HexStreamPipes.get p i >=? 0
            then delete (HexStreamPipes.get p i) t else t)).

(** The loop of [createPipes] over the streams [a .. a + n - 1], when a
    [pipe2] fails: [t0] is the descriptor table from before the first
    pipe was made. *)
Lemma createPipes_from_fail n :
  forall a sc h sc' h' (t0 : gmap Z Descriptor),
    (a + n <= 6)%nat ->
    length (fds (pipes sc)) = 12%nat ->
    (forall j, (2 * a <= j < 12)%nat -> HexStreamPipes.get (pipes sc) j < 0) ->
    (forall j, (j < 2 * a)%nat ->
       0 <= HexStreamPipes.get (pipes sc) j /\
       t0 !! HexStreamPipes.get (pipes sc) j = None /\
       is_Some (fdtable h !! HexStreamPipes.get (pipes sc) j)) ->
    (forall k, (forall j, (j < 2 * a)%nat ->
                  HexStreamPipes.get (pipes sc) j ≠ k) ->
       fdtable h !! k = t0 !! k) ->
    StreamController.createPipes_from (seq a n) sc h = (false, sc', h') ->
    fdtable h' = t0 /\
    (forall j, (j < 12)%nat -> HexStreamPipes.get (pipes sc') j < 0) /\
    drainers sc' = replicate 4 None /\
    buffers sc' = buffers sc.
Proof.
  induction n as [|n IH];
    intros a sc h sc' h' t0 Han Hlen Hrest Hmade Hother Hrun.
  - cbn in Hrun. discriminate.
  - cbn [seq StreamController.createPipes_from] in Hrun.
    destruct (Sys.pipe2 h true) as [[[r w]|] h1] eqn:Hpipe.
    + destruct (pipe2_some _ _ _ _ _ Hpipe)
        as (Hr & Hrw & Hlim & Hrfree & Hwfree & Hh1).
      set (p2 := HexStreamPipes.set
                   (HexStreamPipes.set (pipes sc) (a * 2) r) (a * 2 + 1) w)
        in *.
      assert (Hget : forall j,
                HexStreamPipes.get p2 j =
                  if decide (j = a * 2 + 1)%nat then w
                  else if decide (j = a * 2)%nat then r
                  else HexStreamPipes.get (pipes sc) j).
      { intros j. unfold p2. repeat case_decide; subst.
        - apply pipes_get_set_in. rewrite pipes_set_length. lia.
        - rewrite pipes_get_set_ne by lia. apply pipes_get_set_in. lia.
        - by rewrite !pipes_get_set_ne by lia. }
      assert (Ht1 : forall k,
                fdtable h1 !! k =
                  if decide (k = w)
                  then Some (mkDescriptor (next_pipe h) WriteEnd true)
                  else if decide (k = r)
                  then Some (mkDescriptor (next_pipe h) ReadEnd true)
                  else fdtable h !! k).
      { intros k. rewrite Hh1. cbn [fdtable].
        repeat case_decide; subst; simplify_map_eq; done. }
      assert (Hfresh : forall k, fdtable h !! k = None ->
                forall j, (j < 2 * a)%nat ->
                  HexStreamPipes.get (pipes sc) j ≠ k).
      { intros k Hk j Hj Heq. destruct (Hmade j Hj) as (_ & _ & [d Hd]).
        congruence. }
      destruct (IH (S a) (StreamController.set_pipes sc p2) h1 sc' h' t0)
        as (Ht & Hneg & Hdr & Hbuf); try done; try lia.
      * unfold p2. cbn [pipes StreamController.set_pipes].
        by rewrite !pipes_set_length.
      * cbn [pipes StreamController.set_pipes]. intros j Hj.
        rewrite Hget. repeat case_decide; try lia. apply Hrest. lia.
      * cbn [pipes StreamController.set_pipes]. intros j Hj.
        rewrite Hget, !Ht1. repeat case_decide; subst; try lia.
        -- split; [lia|]. split; [|by eexists].
           rewrite <- Hother; [done|]. by apply Hfresh.
        -- split; [lia|]. split; [|by eexists].
           rewrite <- Hother; [done|]. by apply Hfresh.
        -- destruct (Hmade j ltac:(lia)) as (? & ? & [d Hd]). congruence.
        -- destruct (Hmade j ltac:(lia)) as (? & ? & [d Hd]). congruence.
        -- apply Hmade. lia.
      * cbn [pipes StreamController.set_pipes]. intros k Hk.
        assert (k ≠ w).
        { intros ->. apply (Hk (a * 2 + 1)%nat); [lia|].
          rewrite Hget. by case_decide. }
        assert (k ≠ r).
        { intros ->. apply (Hk (a * 2)%nat); [lia|].
          rewrite Hget. repeat case_decide; try done; lia. }
        rewrite Ht1. repeat case_decide; try done.
        apply Hother. intros j Hj. specialize (Hk j ltac:(lia)).
        rewrite Hget in Hk. repeat case_decide; try done; lia.
    + apply pipe2_none in Hpipe. subst h1.
      unfold StreamController.close in Hrun.
      destruct (close_fold_spec (pipes sc) (seq 0 12) (NoDup_seq 0 12)
                  (pipes sc, Sys.set_errno h EMFILE))
        as (Ht & _ & Hslots); [done|].
      cbn [fst snd] in Ht, Hslots.
      cbn [pipes StreamController.stopDraining StreamController.set_drainers]
        in Hrun.
      fold (HexStreamPipes.close (pipes sc) (Sys.set_errno h EMFILE))
        in Ht, Hslots.
      destruct (HexStreamPipes.close (pipes sc) (Sys.set_errno h EMFILE))
        as [p1 h2].
      cbn [fst snd] in Ht, Hslots. injection Hrun as <- <-.
      cbn [pipes drainers buffers StreamController.set_pipes
           StreamController.stopDraining StreamController.set_drainers
           fdtable Sys.set_errno] in *.
      split; [|split; [|done]].
      * rewrite Ht. apply map_eq. intros k.
        destruct (decide (Exists (fun j => HexStreamPipes.get (pipes sc) j = k)
                            (seq 0 (2 * a)))) as [Hex | Hno].
        -- apply Exists_exists in Hex as (j & Hj & <-).
           apply elem_of_seq in Hj.
           destruct (Hmade j ltac:(lia)) as (Hopen & Hnone & _).
           rewrite Hnone.
           apply deletes_lookup_closed; [apply elem_of_seq; lia | done].
        -- assert (Hnot : forall j, (j < 2 * a)%nat ->
                     HexStreamPipes.get (pipes sc) j ≠ k).
           { intros j Hj Heq. apply Hno, Exists_exists. exists j.
             split; [apply elem_of_seq; lia | done]. }
           rewrite <- Hother by done.
           destruct (decide (Exists
                       (fun j => HexStreamPipes.get (pipes sc) j = k
                                 /\ 0 <= k) (seq 0 12))) as [Hex | Hno2].
           ++ apply Exists_exists in Hex as (j & Hj & <- & Hopen).
              apply elem_of_seq in Hj.
              destruct (decide (j < 2 * a)%nat) as [Hlow | Hhigh].
              ** by destruct (Hnot j Hlow).
              ** pose proof (Hrest j ltac:(lia)). lia.
           ++ clear Ht. generalize (fdtable h).
              assert (Hall : forall j, j ∈ seq 0 12 ->
                        HexStreamPipes.get (pipes sc) j = k ->
                        HexStreamPipes.get (pipes sc) j < 0).
              { intros j Hj Heq.
                destruct (decide (0 <= k)) as [Hk | Hk]; [|lia].
                exfalso. apply Hno2, Exists_exists. by exists j. }
              revert Hall. generalize (seq 0 12).
              induction l as [|j l IHl]; intros Hall t; [done|].
              cbn [foldl]. rewrite IHl by (intros; apply Hall; set_solver).
              destruct (Z.geb_spec (HexStreamPipes.get (pipes sc) j) 0)
                as [Hopen | ?]; [|done].
              apply lookup_delete_ne. intros Heq.
              pose proof (Hall j ltac:(set_solver) Heq). lia.
      * intros j Hj. rewrite Hslots.
        case_decide as Hc; [lia|].
        destruct (decide (0 <= HexStreamPipes.get (pipes sc) j)); [|lia].
        exfalso. apply Hc. split; [apply elem_of_seq; lia | done].
Qed.

(** X9. When [createPipes] fails on a controller without open pipes, the
    pipes it had created before the failure are closed again: the
    descriptor table of the process is exactly as before the call, all
    twelve slots are closed and no drainer exists. *)
Theorem createPipes_failure_leaks_nothing :
  forall (sc sc' : StreamController) (h h' : Host),
    length (fds (pipes sc)) = 12%nat ->
    (forall j, (j < 12)%nat -> HexStreamPipes.get (pipes sc) j < 0) ->
    StreamController.createPipes sc h = (false, sc', h') ->
    fdtable h' = fdtable h /\
    (forall j, (j < 12)%nat -> HexStreamPipes.get (pipes sc') j < 0) /\
    HexStreamPipes.isValid (pipes sc') = false /\
    drainers sc' = replicate 4 None.
Proof.
  intros sc sc' h h' Hlen Hclosed Hrun.
  assert (H1 : forall j, (2 * 0 <= j < 12)%nat ->
            HexStreamPipes.get (pipes sc) j < 0)
    by (intros j Hj; apply Hclosed; lia).
  assert (H2 : forall j, (j < 2 * 0)%nat ->
            0 <= HexStreamPipes.get (pipes sc) j /\
            fdtable h !! HexStreamPipes.get (pipes sc) j = None /\
            is_Some (fdtable h !! HexStreamPipes.get (pipes sc) j))
    by (intros j Hj; lia).
  assert (H3 : forall k, (forall j, (j < 2 * 0)%nat ->
                            HexStreamPipes.get (pipes sc) j ≠ k) ->
            fdtable h !! k = fdtable h !! k) by done.
  destruct (createPipes_from_fail 6 0 sc h sc' h' (fdtable h)
              ltac:(lia) Hlen H1 H2 H3 Hrun) as (Ht & Hneg & Hdr & _).
  split; [done|]. split; [done|]. split; [|done].
  unfold HexStreamPipes.isValid.
  pose proof (Hneg 0%nat ltac:(lia)).
  destruct (Z.geb_spec (HexStreamPipes.get (pipes sc') 0) 0); [lia | done].
Qed.

Lemma createPipes_failure_leaks_nothing_witness :
  let h := mkHost (fdtable (host_with 3)) ∅ 0 10 0 in
  let made := StreamController.createPipes blank_controller h in
  made.1.1 = false /\ fdtable made.2 = fdtable h.
Proof.
  intros h made.
  assert (Hrun : StreamController.createPipes blank_controller h =
                 (false, made.1.2, made.2)) by (vm_compute; reflexivity).
  assert (Hclosed : forall j, (j < 12)%nat ->
            HexStreamPipes.get (pipes blank_controller) j < 0).
  { intros j Hj. do 12 (destruct j as [|j]; [vm_compute; reflexivity|]). lia. }
  destruct (createPipes_failure_leaks_nothing blank_controller made.1.2
              h made.2 eq_refl Hclosed Hrun) as (Ht & _).
  split; [vm_compute; reflexivity | exact Ht].
Defined.

End CreatePipesProofs.

Section ParentSideProofs.

Set Warnings "-clear-no-such-hyp".

(** Membership in a list of numerals, by evaluation. *)
Local Ltac in_list :=
  rewrite ?elem_of_cons, ?elem_of_nil; lia.

(** One case for every element of the list a slot is taken from. *)
Local Ltac each_slot H tac :=
  repeat (apply elem_of_cons in H as [-> | H]; [tac|]);
  by apply elem_of_nil in H.

(** The loop of [setupParent] over the slots of [l]: each is closed in
    the host, whatever it holds, and marked closed. *)
Lemma close_child_side_fold p (l : list nat) :
  NoDup l ->
  forall acc,
    (forall i, i ∈ l -> HexStreamPipes.get acc.1 i = HexStreamPipes.get p i) ->
    fdtable (foldl StreamController.close_child_side acc l).2 =
      foldl (fun t i => delete (HexStreamPipes.get p i) t) (fdtable acc.2) l /\
    pipedata (foldl StreamController.close_child_side acc l).2 =
      pipedata acc.2 /\
    length (fds (foldl StreamController.close_child_side acc l).1) =
      length (fds acc.1) /\
    (forall j, j ∉ l ->
       HexStreamPipes.get (foldl StreamController.close_child_side acc l).1 j =
         HexStreamPipes.get acc.1 j) /\
    (forall j, j ∈ l -> (j < length (fds acc.1))%nat ->
       HexStreamPipes.get (foldl StreamController.close_child_side acc l).1 j
         = -1).
Proof.
  induction 1 as [|i l Hnotin Hnodup IH]; intros [p0 h0] Hagree.
  - cbn [foldl fst snd]. repeat split; try done. intros j Hj. set_solver.
  - cbn [foldl]. cbn [fst snd] in Hagree.
    assert (Hi : HexStreamPipes.get p0 i = HexStreamPipes.get p i)
      by (apply Hagree; set_solver).
    unfold StreamController.close_child_side at 2 4 6 8 10. rewrite Hi.
    destruct (IH (HexStreamPipes.set p0 i (-1),
                  (Sys.close h0 (HexStreamPipes.get p i)).2))
      as (Ht & Hd & Hl & Hout & Hin).
    { intros j Hj. cbn [fst]. rewrite pipes_get_set_ne by set_solver.
      apply Hagree. set_solver. }
    cbn [fst snd] in *. rewrite Ht, Hd, Hl, close_table, pipes_set_length.
    split; [done|]. split.
    { unfold Sys.close. by destruct (fdtable h0 !! _). }
    split; [done|]. split.
    + intros j Hj. rewrite Hout by set_solver.
      apply pipes_get_set_ne. set_solver.
    + intros j Hj Hlen. destruct (decide (j = i)) as [-> | Hne].
      * rewrite Hout by done. by apply pipes_get_set_in.
      * apply Hin; [set_solver|]. by rewrite pipes_set_length.
Qed.

Lemma deletes_list_lookup (l : list Z) (t : gmap Z Descriptor) k :
  foldl (fun t fd => delete fd t) t l !! k =
    if decide (k ∈ l) then None else t !! k.
Proof.
  revert t. induction l as [|fd l IH]; intros t.
  - cbn. case_decide; [set_solver | done].
  - cbn [foldl]. rewrite IH.
    destruct (decide (k = fd)) as [-> | Hne].
    + rewrite lookup_delete_eq. repeat case_decide; try done; set_solver.
    + rewrite lookup_delete_ne by done.
      repeat case_decide; try done; set_solver.
Qed.

Lemma foldl_delete_map (p : HexStreamPipes) (l : list nat)
    (t : gmap Z Descriptor) :
  foldl (fun t i => delete (HexStreamPipes.get p i) t) t l =
  foldl (fun t fd => delete fd t) t (HexStreamPipes.get p <$> l).
Proof. revert t. induction l as [|i l IH]; intros t; [done|]. cbn. apply IH. Qed.

(** What [setupParent] does. *)
Lemma setupParent_spec sc h :
  length (fds (pipes sc)) = 12%nat ->
  (StreamController.setupParent sc h).1.1 = true /\
  (forall j, j ∈ [0; 3; 5; 7; 8; 11]%nat ->
     HexStreamPipes.get (pipes (StreamController.setupParent sc h).1.2) j
       = -1) /\
  (forall j, j ∉ [0; 3; 5; 7; 8; 11]%nat ->
     HexStreamPipes.get (pipes (StreamController.setupParent sc h).1.2) j =
       HexStreamPipes.get (pipes sc) j) /\
  (forall k,
     fdtable (StreamController.setupParent sc h).2 !! k =
       if decide (k ∈ HexStreamPipes.get (pipes sc) <$> [0; 3; 5; 7; 8; 11]%nat)
       then None else fdtable h !! k) /\
  pipedata (StreamController.setupParent sc h).2 = pipedata h /\
  length (fds (pipes (StreamController.setupParent sc h).1.2)) = 12%nat.
Proof.
  intros Hlen. unfold StreamController.setupParent.
  assert (Hnd : NoDup [0; 3; 5; 7; 8; 11]%nat)
    by (repeat (apply NoDup_cons_2; [in_list|]); apply NoDup_nil_2).
  destruct (close_child_side_fold (pipes sc) _ Hnd (pipes sc, h))
    as (Ht & Hd & Hl & Hout & Hin); [done|].
  cbn [fst snd] in *.
  destruct (foldl StreamController.close_child_side (pipes sc, h) _)
    as [p1 h1].
  cbn [fst snd pipes StreamController.set_pipes] in *.
  split; [done|]. split.
  { intros j Hj. apply Hin; [done|]. rewrite Hlen. each_slot Hj lia. }
  split; [done|]. split.
  { intros k. rewrite Ht, foldl_delete_map. apply deletes_list_lookup. }
  split; [done|]. congruence.
Qed.

Lemma slots_distinct p i j :
  NoDup (fds p) -> (i < length (fds p))%nat -> (j < length (fds p))%nat ->
  HexStreamPipes.get p i = HexStreamPipes.get p j -> i = j.
Proof.
  intros Hnd Hi Hj Heq.
  apply (NoDup_lookup _ _ _ (HexStreamPipes.get p i) Hnd).
  - by apply pipes_get_lookup.
  - rewrite Heq. by apply pipes_get_lookup.
Qed.

(** After [createPipes] and [setupParent]. *)
Lemma parent_side_spec sc h sc1 h1 :
  length (fds (pipes sc)) = 12%nat ->
  StreamController.createPipes sc h = (true, sc1, h1) ->
  let sc2 := (StreamController.setupParent sc1 h1).1.2 in
  let h2 := (StreamController.setupParent sc1 h1).2 in
  (StreamController.setupParent sc1 h1).1.1 = true /\
  ends_at h2 (HexStreamPipes.get (pipes sc2) <$> [1; 2; 4; 6; 9; 10]%nat) =
    [Some (next_pipe h + 0, WriteEnd); Some (next_pipe h + 1, ReadEnd);
     Some (next_pipe h + 2, ReadEnd); Some (next_pipe h + 3, ReadEnd);
     Some (next_pipe h + 4, WriteEnd); Some (next_pipe h + 5, ReadEnd)]%nat /\
  (forall j, j ∈ [0; 3; 5; 7; 8; 11]%nat ->
     HexStreamPipes.get (pipes sc2) j = -1 /\
     fdtable h2 !! HexStreamPipes.get (pipes sc1) j = None) /\
  (forall j, j ∈ [1; 2; 4; 6; 9; 10]%nat ->
     HexStreamPipes.get (pipes sc2) j = HexStreamPipes.get (pipes sc1) j /\
     0 <= HexStreamPipes.get (pipes sc2) j /\
     fdtable h2 !! HexStreamPipes.get (pipes sc2) j =
       fdtable h1 !! HexStreamPipes.get (pipes sc1) j) /\
  (forall k d, fdtable h !! k = Some d -> fdtable h2 !! k = Some d) /\
  pipedata h2 = pipedata h1.
Proof.
  intros Hlen Hmade sc2 h2.
  destruct (createPipes_spec sc sc1 h h1 Hlen Hmade)
    as (Hends & Hfresh & Hnd & _ & Hmono & _).
  unfold StreamController.createPipes in Hmade.
  destruct (createPipes_from_ok 6 0 sc h sc1 h1 ltac:(lia) Hlen Hmade)
    as (Hl1 & _).
  destruct (setupParent_spec sc1 h1 Hl1)
    as (Hok & Hclosed & Hkept & Ht & Hpd & _).
  fold sc2 in Hclosed, Hkept. fold h2 in Ht, Hpd.
  assert (Hparent : forall j, j ∈ [1; 2; 4; 6; 9; 10]%nat ->
            HexStreamPipes.get (pipes sc2) j = HexStreamPipes.get (pipes sc1) j
            /\ 0 <= HexStreamPipes.get (pipes sc2) j /\
            fdtable h2 !! HexStreamPipes.get (pipes sc2) j =
              fdtable h1 !! HexStreamPipes.get (pipes sc1) j).
  { intros j Hj.
    assert (Hj12 : (j < 12)%nat) by (clear - Hj; each_slot Hj lia).
    assert (Hnot : j ∉ [0; 3; 5; 7; 8; 11]%nat)
      by (clear - Hj; each_slot Hj in_list).
    rewrite (Hkept j Hnot). split; [done|].
    split; [apply (Hfresh j Hj12)|].
    rewrite Ht. case_decide as Hin; [|done]. exfalso.
    apply list_elem_of_fmap in Hin as (i & Heq & Hi).
    assert (Hi12 : (i < 12)%nat) by (clear - Hi; each_slot Hi lia).
    assert (j = i)
      by (apply (slots_distinct (pipes sc1)); [done | lia | lia | done]).
    subst i. done. }
  split; [done|]. split.
  { unfold ends_at. cbn [fmap list_fmap map].
    destruct (Hparent 1%nat) as (_ & _ & ->); [in_list|].
    destruct (Hparent 2%nat) as (_ & _ & ->); [in_list|].
    destruct (Hparent 4%nat) as (_ & _ & ->); [in_list|].
    destruct (Hparent 6%nat) as (_ & _ & ->); [in_list|].
    destruct (Hparent 9%nat) as (_ & _ & ->); [in_list|].
    destruct (Hparent 10%nat) as (_ & _ & ->); [in_list|].
    destruct (Hends 0%nat ltac:(lia)) as [_ H1].
    destruct (Hends 1%nat ltac:(lia)) as [H2 _].
    destruct (Hends 2%nat ltac:(lia)) as [H4 _].
    destruct (Hends 3%nat ltac:(lia)) as [H6 _].
    destruct (Hends 4%nat ltac:(lia)) as [_ H9].
    destruct (Hends 5%nat ltac:(lia)) as [H10 _].
    cbn [Nat.mul Nat.add] in H1, H2, H4, H6, H9, H10.
    rewrite H1, H2, H4, H6, H9, H10. cbn. rewrite Nat.add_0_r. done. }
  split.
  { intros j Hj. split; [by apply Hclosed|].
    rewrite Ht. case_decide as Hin; [done|]. exfalso. apply Hin.
    apply list_elem_of_fmap. by exists j. }
  split; [done|]. split; [|done].
  intros k d Hk. rewrite Ht. case_decide as Hin; [|by apply Hmono].
  exfalso. apply list_elem_of_fmap in Hin as (i & -> & Hi).
  assert (Hi12 : (i < 12)%nat) by (clear - Hi; each_slot Hi lia).
  destruct (Hfresh i Hi12) as [_ Hnone]. congruence.
Qed.

(** X10. After [createPipes] and [setupParent] the parent holds the write
    end of the stdin and stddati pipes and the read end of the stdout,
    stderr, stddbg and stddato pipes; the six child-side ends are closed
    in the parent and their slots are [-1]; the descriptors the process
    had before are untouched. *)
Theorem parent_keeps_its_ends :
  forall (sc sc1 : StreamController) (h h1 : Host),
    length (fds (pipes sc)) = 12%nat ->
    StreamController.createPipes sc h = (true, sc1, h1) ->
    let sc2 := (StreamController.setupParent sc1 h1).1.2 in
    let h2 := (StreamController.setupParent sc1 h1).2 in
    (StreamController.setupParent sc1 h1).1.1 = true /\
    ends_at h2 (HexStreamPipes.get (pipes sc2) <$> [1; 2; 4; 6; 9; 10]%nat) =
      [Some (next_pipe h + 0, WriteEnd); Some (next_pipe h + 1, ReadEnd);
       Some (next_pipe h + 2, ReadEnd); Some (next_pipe h + 3, ReadEnd);
       Some (next_pipe h + 4, WriteEnd); Some (next_pipe h + 5, ReadEnd)]%nat /\
    (forall j, j ∈ [0; 3; 5; 7; 8; 11]%nat ->
       HexStreamPipes.get (pipes sc2) j = -1 /\
       fdtable h2 !! HexStreamPipes.get (pipes sc1) j = None) /\
    (forall k d, fdtable h !! k = Some d -> fdtable h2 !! k = Some d).
Proof.
  intros sc sc1 h h1 Hlen Hmade sc2 h2.
  destruct (parent_side_spec sc h sc1 h1 Hlen Hmade)
    as (Hok & Hends & Hchild & _ & Hmono & _).
  done.
Qed.

Lemma parent_keeps_its_ends_witness :
  let made := StreamController.createPipes blank_controller (host_with 3) in
  let parent := StreamController.setupParent made.1.2 made.2 in
  fds (pipes parent.1.2) = [-1; 4; 5; -1; 7; -1; 9; -1; -1; 12; 13; -1] /\
  ends_at parent.2 [4; 5; 7; 9; 12; 13] =
    [Some (0, WriteEnd); Some (1, ReadEnd); Some (2, ReadEnd);
     Some (3, ReadEnd); Some (4, WriteEnd); Some (5, ReadEnd)]%nat.
Proof.
  intros made parent.
  assert (Hrun : StreamController.createPipes blank_controller (host_with 3) =
                 (true, made.1.2, made.2)) by (vm_compute; reflexivity).
  destruct (parent_keeps_its_ends blank_controller made.1.2
              (host_with 3) made.2 eq_refl Hrun) as (_ & Hends & _).
  split; [vm_compute; reflexivity | exact Hends].
Defined.

Lemma holds_read_end_false (t : gmap Z Descriptor) (q : nat) :
  (forall fd d, t !! fd = Some d -> d_pipe d = q -> d_end d = ReadEnd ->
     False) ->
  holds_read_end t q = false.
Proof.
  intros Hnone. unfold holds_read_end. apply bool_decide_eq_false.
  rewrite Exists_exists. intros ([fd d] & Hin & Hq & Hend).
  apply elem_of_map_to_list in Hin. by apply (Hnone fd d).
Qed.

(** A write to an open write end whose pipe has a reader and room. *)
Lemma pipe_write_queues out h fd data q cloexec :
  0 <= fd -> fdtable h !! fd = Some (mkDescriptor q WriteEnd cloexec) ->
  data <> [] -> reader_elsewhere out q = true ->
  Z.of_nat (length (default [] (pipedata h !! q))) + Z.of_nat (length data)
    <= pipe_capacity out q ->
  SysPipe.write out h fd data =
    Some (Z.of_nat (length data),
          mkHost (fdtable h)
            (<[q := default [] (pipedata h !! q) ++ data]> (pipedata h))
            (next_pipe h) (nofile h) (errno h),
          false).
Proof.
  intros Hfd Hopen Hdata Hreader Hroom. unfold SysPipe.write.
  destruct (Z.ltb_spec fd 0); [lia|]. rewrite Hopen, Hreader.
  destruct (Z.eqb_spec (Z.of_nat (length data)) 0) as [Hz | _];
    [destruct data; [done | cbn in Hz; lia]|].
  rewrite orb_true_r. cbn [negb].
  destruct (Z.leb_spec
              (Z.of_nat (length (default [] (pipedata h !! q)))
               + Z.of_nat (length data)) (pipe_capacity out q));
    [done | lia].
Qed.

(** Where the pipe has a reader and room, and where the descriptor is not
    an open write end, the call answers as [Sys.write] does. *)
Lemma pipe_write_agrees out h fd data :
  data <> [] ->
  (forall q cloexec,
     0 <= fd -> fdtable h !! fd = Some (mkDescriptor q WriteEnd cloexec) ->
     reader_elsewhere out q = true /\
     (Z.of_nat (length (default [] (pipedata h !! q)))
        + Z.of_nat (length data) <= pipe_capacity out q)) ->
  SysPipe.write out h fd data =
    Some ((Sys.write h fd data).1, (Sys.write h fd data).2, false).
Proof.
  intros Hdata Hgood.
  destruct (Z.ltb_spec fd 0) as [Hneg | Hpos].
  { unfold SysPipe.write, Sys.write.
    destruct (Z.ltb_spec fd 0); [done | lia]. }
  destruct (fdtable h !! fd) as [[q [] cloexec]|] eqn:Hopen.
  - unfold SysPipe.write, Sys.write.
    destruct (Z.ltb_spec fd 0); [lia|]. by rewrite Hopen.
  - destruct (Hgood q cloexec Hpos eq_refl) as [Hreader Hroom].
    rewrite (pipe_write_queues out h fd data q cloexec Hpos Hopen Hdata
               Hreader Hroom).
    unfold Sys.write. destruct (Z.ltb_spec fd 0); [lia|]. by rewrite Hopen.
  - unfold SysPipe.write, Sys.write.
    destruct (Z.ltb_spec fd 0); [lia|]. by rewrite Hopen.
Qed.

(** X11. After [createPipes] and [setupParent] the parent holds no read
    end of the stdin pipe itself.  So [writeStdin] reaches the child only
    if another process, the forked child, holds that read end: then each
    call returns the number of bytes given, as long as the pipe has room,
    the bytes of successive calls queue up in that pipe in order, and no
    other pipe and no descriptor changes; without room the call waits.
    With no reader anywhere, as when no child was forked, a write of one
    byte or more raises [SIGPIPE] and returns -1 with [EPIPE], and no
    byte is queued.  A write of no bytes returns 0 either way. *)
Theorem writeStdin_needs_a_reader :
  forall (sc sc1 : StreamController) (h h1 : Host) (out : Outside)
         (data1 data2 : list Z),
    length (fds (pipes sc)) = 12%nat ->
    StreamController.createPipes sc h = (true, sc1, h1) ->
    (forall fd d, fdtable h !! fd = Some d -> d_pipe d <> next_pipe h) ->
    data1 <> [] -> data2 <> [] ->
    let sc2 := (StreamController.setupParent sc1 h1).1.2 in
    let h2 := (StreamController.setupParent sc1 h1).2 in
    let q := next_pipe h in
    let n1 := Z.of_nat (length data1) in
    let n2 := Z.of_nat (length data2) in
    fdtable h1 !! HexStreamPipes.get (pipes sc1) 0 =
      Some (mkDescriptor q ReadEnd true) /\
    holds_read_end (fdtable h2) q = false /\
    StreamControllerIO.writeStdin out sc2 h2 [] = Some (0, h2, false) /\
    (reader_elsewhere out q = false ->
       StreamControllerIO.writeStdin out sc2 h2 data1 =
         Some (-1, Sys.set_errno h2 EPIPE, true)) /\
    (reader_elsewhere out q = true -> pipe_capacity out q < n1 ->
       StreamControllerIO.writeStdin out sc2 h2 data1 = None) /\
    (reader_elsewhere out q = true -> n1 + n2 <= pipe_capacity out q ->
       exists h3 h4,
         StreamControllerIO.writeStdin out sc2 h2 data1 =
           Some (n1, h3, false) /\
         StreamControllerIO.writeStdin out sc2 h3 data2 =
           Some (n2, h4, false) /\
         pipedata h3 !! q = Some data1 /\
         pipedata h4 !! q = Some (data1 ++ data2) /\
         (forall q', q' <> q -> pipedata h4 !! q' = pipedata h1 !! q') /\
         fdtable h4 = fdtable h2).
Proof.
  intros sc sc1 h h1 out data1 data2 Hlen Hmade Hold Hd1 Hd2 sc2 h2 q n1 n2.
  destruct (parent_side_spec sc h sc1 h1 Hlen Hmade)
    as (_ & _ & Hchild & Hparent & _ & Hpd).
  fold sc2 h2 in Hchild, Hparent, Hpd.
  destruct (Hparent 1%nat) as (Hslot & Hopen & Hfd); [in_list|].
  destruct (createPipes_spec sc sc1 h h1 Hlen Hmade)
    as (Hends & _ & _ & _ & Hmono & Honly).
  destruct (Hends 0%nat ltac:(lia)) as [Hread Hwrite].
  cbn [Nat.mul Nat.add] in Hread, Hwrite. rewrite Nat.add_0_r in *.
  rewrite Hwrite in Hfd. fold q in Hread, Hwrite, Hfd.
  pose proof Hmade as Hmade'. unfold StreamController.createPipes in Hmade'.
  destruct (createPipes_from_ok 6 0 sc h sc1 h1 ltac:(lia) Hlen Hmade')
    as (Hl1 & _).
  destruct (createPipes_from_pipedata 6 0 sc h sc1 h1 Hmade') as [Hempty _].
  specialize (Hempty 0%nat ltac:(lia)). rewrite Nat.add_0_r in Hempty.
  fold q in Hempty.
  destruct (setupParent_spec sc1 h1 Hl1) as (_ & _ & _ & Ht2 & _ & _).
  fold h2 in Ht2.
  assert (Hnone : holds_read_end (fdtable h2) q = false).
  { apply holds_read_end_false. intros fd d Hin Hq Hend.
    rewrite Ht2 in Hin. case_decide as Hclosed; [done|].
    destruct (fdtable h !! fd) as [d0|] eqn:Hfd0.
    { rewrite (Hmono fd d0 Hfd0) in Hin. injection Hin as ->.
      by apply (Hold fd d Hfd0). }
    destruct (Honly fd ltac:(by eexists)) as [[d0 Hd0] | Hslotfd];
      [congruence|].
    apply list_elem_of_lookup in Hslotfd as [j Hj].
    pose proof (lookup_lt_Some _ _ _ Hj) as Hj12. rewrite Hl1 in Hj12.
    rewrite pipes_get_lookup in Hj by lia. injection Hj as <-.
    assert (Hi : exists i, (i < 6)%nat /\ (j = 2 * i \/ j = 2 * i + 1)%nat).
    { exists (j / 2)%nat.
      pose proof (Nat.div_mod_eq j 2). pose proof (Nat.mod_upper_bound j 2).
      split; [apply Nat.Div0.div_lt_upper_bound; lia | lia]. }
    destruct Hi as (i & Hi & [-> | ->]).
    - destruct (Hends i Hi) as [Hr _]. rewrite Hr in Hin.
      injection Hin as <-. cbn [d_pipe] in Hq.
      assert (i = 0%nat) as -> by (unfold q in Hq; lia).
      apply Hclosed. apply list_elem_of_fmap. exists 0%nat.
      split; [done | in_list].
    - destruct (Hends i Hi) as [_ Hw]. rewrite Hw in Hin.
      by injection Hin as <-. }
  split; [done|]. split; [done|].
  unfold StreamControllerIO.writeStdin.
  assert (Hpos : forall data : list Z, data <> [] ->
            (Z.of_nat (length data) =? 0) = false).
  { intros [|b data] Hdata; [done|]. apply Z.eqb_neq. cbn [length]. lia. }
  split; [|split; [|split]].
  - unfold SysPipe.write.
    destruct (Z.ltb_spec (HexStreamPipes.get (pipes sc2) 1) 0); [lia|].
    by rewrite Hfd.
  - intros Hreader. unfold SysPipe.write.
    destruct (Z.ltb_spec (HexStreamPipes.get (pipes sc2) 1) 0); [lia|].
    rewrite Hfd, (Hpos data1 Hd1), Hnone, Hreader. done.
  - intros Hreader Hfull. unfold SysPipe.write.
    destruct (Z.ltb_spec (HexStreamPipes.get (pipes sc2) 1) 0); [lia|].
    rewrite Hfd, (Hpos data1 Hd1), Hnone, Hreader. cbn [orb negb].
    rewrite Hpd, Hempty. cbn [default length].
    match goal with
    | |- context [?a <=? ?b] => destruct (Z.leb_spec a b) as [Hle | Hgt]
    end; [|done].
    exfalso. unfold n1 in Hfull. cbn [length] in Hle. lia.
  - intros Hreader Hroom.
    assert (Hq2 : default [] (pipedata h2 !! q) = [])
      by (by rewrite Hpd, Hempty).
    set (h3 := mkHost (fdtable h2) (<[q := data1]> (pipedata h2))
                 (next_pipe h2) (nofile h2) (errno h2)).
    set (h4 := mkHost (fdtable h2) (<[q := data1 ++ data2]> (pipedata h2))
                 (next_pipe h2) (nofile h2) (errno h2)).
    assert (Hlen1 : 0 <= Z.of_nat (length data1)) by lia.
    assert (Hlen2 : 0 <= Z.of_nat (length data2)) by lia.
    exists h3, h4. split.
    { rewrite (pipe_write_queues out h2 _ data1 q true Hopen Hfd Hd1 Hreader).
      - by rewrite Hq2.
      - rewrite Hq2. cbn [length]. unfold n1, n2 in Hroom. lia. }
    split.
    { rewrite (pipe_write_queues out h3 _ data2 q true Hopen Hfd Hd2 Hreader).
      - unfold h3, h4. cbn [pipedata fdtable next_pipe nofile errno].
        rewrite lookup_insert_eq. cbn [default].
        by rewrite insert_insert_eq.
      - unfold h3. cbn [pipedata]. rewrite lookup_insert_eq.
        cbn [default from_option id]. unfold n1, n2 in Hroom. lia. }
    unfold h3, h4. cbn [pipedata fdtable].
    split; [apply lookup_insert_eq|].
    split; [apply lookup_insert_eq|]. split; [|done].
    intros q' Hq'. rewrite lookup_insert_ne by done. by rewrite Hpd.
Qed.

Lemma writeStdin_needs_a_reader_witness :
  let made := StreamController.createPipes blank_controller (host_with 3) in
  let parent := StreamController.setupParent made.1.2 made.2 in
  let alone := mkOutside (fun _ => false) (fun _ => 65536) in
  holds_read_end (fdtable parent.2) 0 = false /\
  StreamControllerIO.writeStdin alone parent.1.2 parent.2 [97; 98] =
    Some (-1, Sys.set_errno parent.2 EPIPE, true).
Proof.
  intros made parent alone.
  assert (Hrun : StreamController.createPipes blank_controller (host_with 3) =
                 (true, made.1.2, made.2)) by (vm_compute; reflexivity).
  assert (Hold : forall fd d,
            fdtable (host_with 3) !! fd = Some d ->
            d_pipe d <> next_pipe (host_with 3)).
  { intros fd d Hin. unfold host_with in Hin. cbn [fdtable] in Hin.
    apply elem_of_list_to_map_2 in Hin. cbn in Hin.
    rewrite !elem_of_cons, elem_of_nil in Hin.
    destruct Hin as [[= -> ->] | [[= -> ->] | [[= -> ->] | []]]];
      cbn; lia. }
  destruct (writeStdin_needs_a_reader blank_controller made.1.2
              (host_with 3) made.2 alone [97; 98] [99; 10] eq_refl Hrun Hold
              ltac:(discriminate) ltac:(discriminate))
    as (_ & Hnone & _ & Hpipe & _).
  split; [exact Hnone | exact (Hpipe eq_refl)].
Defined.

(** X12. [closeStdin] closes [fds[1]] if it is open and touches nothing
    else (no other slot, no ring, no drainer, no pipe content); a second
    [closeStdin] does nothing. *)
Theorem closeStdin_closes_once :
  forall (sc : StreamController) (h : Host),
    let sc1 := (StreamController.closeStdin sc h).1 in
    let h1 := (StreamController.closeStdin sc h).2 in
    StreamController.closeStdin sc1 h1 = (sc1, h1) /\
    fdtable h1 =
      (if decide (0 <= HexStreamPipes.get (pipes sc) 1)
       then delete (HexStreamPipes.get (pipes sc) 1) (fdtable h)
       else fdtable h) /\
    pipedata h1 = pipedata h /\
    (forall j, j ≠ 1%nat ->
       HexStreamPipes.get (pipes sc1) j = HexStreamPipes.get (pipes sc) j) /\
    buffers sc1 = buffers sc /\ drainers sc1 = drainers sc.
Proof.
  intros sc h sc1 h1.
  pose proof (closeStdin_slot_closed sc h) as Hneg. fold sc1 in Hneg.
  split.
  { unfold StreamController.closeStdin at 1.
    destruct (Z.geb_spec (HexStreamPipes.get (pipes sc1) 1) 0); [lia | done]. }
  unfold sc1, h1, StreamController.closeStdin.
  destruct (Z.geb_spec (HexStreamPipes.get (pipes sc) 1) 0) as [Hopen | Hcl];
    cbn [fst snd pipes buffers drainers StreamController.set_pipes].
  - rewrite decide_True by lia. rewrite close_table.
    split; [done|]. split.
    { unfold Sys.close. by destruct (fdtable h !! _). }
    split; [|done]. intros j Hj. by apply pipes_get_set_ne.
  - rewrite decide_False by lia. done.
Qed.

End ParentSideProofs.

Section LifecycleProofs.

Set Warnings "-clear-no-such-hyp".

Local Ltac in_list :=
  rewrite ?elem_of_cons, ?elem_of_nil; lia.

Lemma startDraining_pipes sc :
  pipes (StreamController.startDraining sc).2 = pipes sc.
Proof. reflexivity. Qed.

Lemma start_one_open p old stream i dropOnOverflow :
  0 <= HexStreamPipes.get p i ->
  StreamController.start_one p old stream i dropOnOverflow =
    Some (StreamDrainer.new stream (HexStreamPipes.get p i) dropOnOverflow).
Proof.
  intros Hopen. unfold StreamController.start_one.
  destruct (Z.geb_spec (HexStreamPipes.get p i) 0); [done | lia].
Qed.

Lemma start_one_closed p old stream i dropOnOverflow :
  HexStreamPipes.get p i < 0 ->
  StreamController.start_one p old stream i dropOnOverflow = old.
Proof.
  intros Hcl. unfold StreamController.start_one.
  destruct (Z.geb_spec (HexStreamPipes.get p i) 0); [lia | done].
Qed.

Lemma four_drainers_spec :
  forall (sc sc1 : StreamController) (h h1 : Host),
    length (fds (pipes sc)) = 12%nat ->
    StreamController.createPipes sc h = (true, sc1, h1) ->
    let sc2 := (StreamController.setupParent sc1 h1).1.2 in
    let h2 := (StreamController.setupParent sc1 h1).2 in
    let sc3 := (StreamController.startDraining sc2).2 in
    (StreamController.startDraining sc2).1 = true /\
    drainers sc3 =
      [Some (StreamDrainer.new STDOUT
               (HexStreamPipes.get (pipes sc1) 2) false);
       Some (StreamDrainer.new STDERR
               (HexStreamPipes.get (pipes sc1) 4) false);
       Some (StreamDrainer.new STDDBG
               (HexStreamPipes.get (pipes sc1) 6) true);
       Some (StreamDrainer.new STDDATO
               (HexStreamPipes.get (pipes sc1) 10) false)] /\
    ends_at h2 (HexStreamPipes.get (pipes sc1) <$> [2; 4; 6; 10]%nat) =
      [Some (next_pipe h + 1, ReadEnd); Some (next_pipe h + 2, ReadEnd);
       Some (next_pipe h + 3, ReadEnd); Some (next_pipe h + 5, ReadEnd)]%nat.
Proof.
  intros sc sc1 h h1 Hlen Hmade sc2 h2 sc3.
  destruct (parent_side_spec sc h sc1 h1 Hlen Hmade)
    as (_ & _ & _ & Hparent & _ & _).
  fold sc2 h2 in Hparent.
  destruct (Hparent 2%nat) as (E2 & O2 & F2); [in_list|].
  destruct (Hparent 4%nat) as (E4 & O4 & F4); [in_list|].
  destruct (Hparent 6%nat) as (E6 & O6 & F6); [in_list|].
  destruct (Hparent 10%nat) as (E10 & O10 & F10); [in_list|].
  destruct (createPipes_spec sc sc1 h h1 Hlen Hmade) as (Hends & _).
  destruct (Hends 1%nat ltac:(lia)) as [R1 _].
  destruct (Hends 2%nat ltac:(lia)) as [R2 _].
  destruct (Hends 3%nat ltac:(lia)) as [R3 _].
  destruct (Hends 5%nat ltac:(lia)) as [R5 _].
  cbn [Nat.mul Nat.add] in R1, R2, R3, R5.
  split; [done|]. split.
  { unfold sc3, StreamController.startDraining.
    cbn [snd drainers StreamController.set_drainers].
    rewrite !start_one_open by done. rewrite E2, E4, E6, E10. done. }
  unfold ends_at. cbn [fmap list_fmap map].
  rewrite E2, E4, E6, E10 in *. rewrite F2, F4, F6, F10, R1, R2, R3, R5.
  done.
Qed.

(** X13. After [createPipes] and [setupParent], [startDraining] returns
    true and creates four drainers, on the read ends of the stdout,
    stderr, stddbg and stddato pipes; only the stddbg drainer drops on
    overflow, the other three block. *)
Theorem startDraining_starts_four_drainers :
  forall (sc sc1 : StreamController) (h h1 : Host),
    length (fds (pipes sc)) = 12%nat ->
    StreamController.createPipes sc h = (true, sc1, h1) ->
    let sc2 := (StreamController.setupParent sc1 h1).1.2 in
    let h2 := (StreamController.setupParent sc1 h1).2 in
    let sc3 := (StreamController.startDraining sc2).2 in
    (StreamController.startDraining sc2).1 = true /\
    drainers sc3 =
      [Some (StreamDrainer.new STDOUT
               (HexStreamPipes.get (pipes sc1) 2) false);
       Some (StreamDrainer.new STDERR
               (HexStreamPipes.get (pipes sc1) 4) false);
       Some (StreamDrainer.new STDDBG
               (HexStreamPipes.get (pipes sc1) 6) true);
       Some (StreamDrainer.new STDDATO
               (HexStreamPipes.get (pipes sc1) 10) false)] /\
    ends_at h2 (HexStreamPipes.get (pipes sc1) <$> [2; 4; 6; 10]%nat) =
      [Some (next_pipe h + 1, ReadEnd); Some (next_pipe h + 2, ReadEnd);
       Some (next_pipe h + 3, ReadEnd); Some (next_pipe h + 5, ReadEnd)]%nat.
Proof. exact four_drainers_spec. Qed.

Lemma startDraining_starts_four_drainers_witness :
  let made := StreamController.createPipes blank_controller (host_with 3) in
  let parent := StreamController.setupParent made.1.2 made.2 in
  drainers (StreamController.startDraining parent.1.2).2 =
    [Some (StreamDrainer.new STDOUT 5 false);
     Some (StreamDrainer.new STDERR 7 false);
     Some (StreamDrainer.new STDDBG 9 true);
     Some (StreamDrainer.new STDDATO 13 false)].
Proof.
  intros made parent.
  assert (Hrun : StreamController.createPipes blank_controller (host_with 3) =
                 (true, made.1.2, made.2)) by (vm_compute; reflexivity).
  destruct (startDraining_starts_four_drainers blank_controller made.1.2
              (host_with 3) made.2 eq_refl Hrun) as (_ & Hdr & _).
  exact Hdr.
Defined.

(** Closing the pipes gives back every descriptor [createPipes] took,
    whichever of them were closed in between. *)
Lemma close_restores sc h sc1 h1 (p2 : HexStreamPipes) (h2 : Host) :
  length (fds (pipes sc)) = 12%nat ->
  StreamController.createPipes sc h = (true, sc1, h1) ->
  (forall j, (j < 12)%nat ->
     HexStreamPipes.get p2 j = HexStreamPipes.get (pipes sc1) j \/
     (HexStreamPipes.get p2 j = -1 /\
      fdtable h2 !! HexStreamPipes.get (pipes sc1) j = None)) ->
  (forall k, k ∉ fds (pipes sc1) -> fdtable h2 !! k = fdtable h1 !! k) ->
  fdtable (HexStreamPipes.close p2 h2).2 = fdtable h.
Proof.
  intros Hlen Hmade Hslots2 Hrest.
  destruct (createPipes_spec sc sc1 h h1 Hlen Hmade)
    as (_ & Hfresh & _ & _ & Hmono & Honly).
  pose proof Hmade as Hmade'. unfold StreamController.createPipes in Hmade'.
  destruct (createPipes_from_ok 6 0 sc h sc1 h1 ltac:(lia) Hlen Hmade')
    as (Hl1 & _).
  destruct (pipes_close_spec p2 h2) as (_ & _ & Hclosed & Hother & _).
  apply map_eq. intros k.
  destruct (decide (k ∈ fds (pipes sc1))) as [Hin | Hout].
  - apply list_elem_of_lookup in Hin as [j Hj].
    pose proof (lookup_lt_Some _ _ _ Hj) as Hj12. rewrite Hl1 in Hj12.
    rewrite pipes_get_lookup in Hj by lia. injection Hj as <-.
    destruct (Hfresh j Hj12) as [Hrange ->].
    destruct (decide (Exists (fun i =>
                0 <= HexStreamPipes.get p2 i /\
                HexStreamPipes.get p2 i =
                HexStreamPipes.get (pipes sc1) j) (seq 0 12)))
      as [Hex | Hno].
    + apply Exists_exists in Hex as (i & Hi & Hopen & Heq).
      apply elem_of_seq in Hi. rewrite <- Heq. apply Hclosed; [lia | done].
    + rewrite Hother.
      * destruct (Hslots2 j Hj12) as [Heq | [_ Hnone]]; [|done].
        exfalso. apply Hno. apply Exists_exists. exists j.
        split; [apply elem_of_seq; lia|]. split; [lia | done].
      * intros i Hi Hopen Heq. apply Hno. apply Exists_exists. exists i.
        split; [apply elem_of_seq; lia | done].
  - assert (Hk1 : fdtable h1 !! k = fdtable h !! k).
    { destruct (fdtable h !! k) as [d|] eqn:Hk; [by apply Hmono|].
      destruct (fdtable h1 !! k) as [d|] eqn:Hk1; [|done].
      destruct (Honly k ltac:(by eexists)) as [[d' Hd'] | Hin];
        [congruence | done]. }
    rewrite Hother; [by rewrite Hrest|].
    intros j Hj Hopen Heq.
    destruct (Hslots2 j Hj) as [Hsame | [Hm1 _]]; [|lia].
    apply Hout. apply list_elem_of_lookup. exists j.
    rewrite <- Heq, Hsame. apply pipes_get_lookup. lia.
Qed.

Lemma close_after_parent sc h sc1 h1 :
  length (fds (pipes sc)) = 12%nat ->
  StreamController.createPipes sc h = (true, sc1, h1) ->
  let sc2 := (StreamController.setupParent sc1 h1).1.2 in
  let h2 := (StreamController.setupParent sc1 h1).2 in
  fdtable (HexStreamPipes.close (pipes sc2) h2).2 = fdtable h /\
  (forall j, (j < 12)%nat ->
     HexStreamPipes.get (HexStreamPipes.close (pipes sc2) h2).1 j = -1).
Proof.
  intros Hlen Hmade sc2 h2.
  destruct (parent_side_spec sc h sc1 h1 Hlen Hmade)
    as (_ & _ & Hchild & Hparent & _ & _).
  fold sc2 h2 in Hchild, Hparent.
  pose proof Hmade as Hmade'. unfold StreamController.createPipes in Hmade'.
  destruct (createPipes_from_ok 6 0 sc h sc1 h1 ltac:(lia) Hlen Hmade')
    as (Hl1 & _).
  destruct (setupParent_spec sc1 h1 Hl1) as (_ & _ & _ & Ht2 & _ & _).
  fold h2 in Ht2.
  assert (Hslot_cases : forall j, (j < 12)%nat ->
            j ∈ [0; 3; 5; 7; 8; 11]%nat \/ j ∈ [1; 2; 4; 6; 9; 10]%nat).
  { intros j Hj.
    do 12 (destruct j as [|j]; [(left; in_list) || (right; in_list)|]).
    lia. }
  split.
  - apply (close_restores sc h sc1 h1); [done | done | |].
    + intros j Hj. destruct (Hslot_cases j Hj) as [Hc | Hp].
      * right. by apply Hchild.
      * left. by apply Hparent.
    + intros k Hout. rewrite Ht2. case_decide as Hin; [|done].
      exfalso. apply Hout.
      apply list_elem_of_fmap in Hin as (i & -> & Hi).
      apply list_elem_of_lookup. exists i. apply pipes_get_lookup.
      rewrite Hl1. clear - Hi.
      repeat (apply elem_of_cons in Hi as [-> | Hi]; [lia|]).
      by apply elem_of_nil in Hi.
  - intros j Hj.
    destruct (pipes_close_spec (pipes sc2) h2) as (Hslots & _).
    rewrite Hslots by done.
    destruct (Hslot_cases j Hj) as [Hc | Hp].
    + destruct (Hchild j Hc) as [-> _]. by case_decide.
    + destruct (Hparent j Hp) as (_ & Hopen & _). by rewrite decide_True.
Qed.

(** X14. A controller's life leaks no descriptor: after [createPipes],
    [setupParent] and [startDraining], [close] leaves the descriptor
    table of the process exactly as it was before [createPipes]; all
    twelve slots are closed, the drainers are gone, both statistics read
    0, and a second [close] changes nothing. *)
Theorem close_undoes_createPipes :
  forall (sc sc1 : StreamController) (h h1 : Host),
    length (fds (pipes sc)) = 12%nat ->
    StreamController.createPipes sc h = (true, sc1, h1) ->
    let sc2 := (StreamController.setupParent sc1 h1).1.2 in
    let h2 := (StreamController.setupParent sc1 h1).2 in
    let sc3 := (StreamController.startDraining sc2).2 in
    let closed := StreamController.close sc3 h2 in
    fdtable closed.2 = fdtable h /\
    (forall j, (j < 12)%nat -> HexStreamPipes.get (pipes closed.1) j = -1) /\
    drainers closed.1 = replicate 4 None /\
    StreamControllerOps.getTotalBytesTransferred closed.1 = 0 /\
    StreamControllerOps.getActiveThreadCount closed.1 = 0 /\
    StreamController.close closed.1 closed.2 = closed.
Proof.
  intros sc sc1 h h1 Hlen Hmade sc2 h2 sc3 closed.
  destruct (close_after_parent sc h sc1 h1 Hlen Hmade) as [Htable Hslots].
  fold sc2 h2 in Htable, Hslots.
  destruct (pipes_close_spec (pipes sc2) h2) as (_ & _ & _ & _ & _ & Hidem).
  assert (Hcl : closed =
            (StreamController.set_pipes (StreamController.stopDraining sc3)
               (HexStreamPipes.close (pipes sc2) h2).1,
             (HexStreamPipes.close (pipes sc2) h2).2)).
  { unfold closed, StreamController.close.
    cbn [pipes StreamController.stopDraining StreamController.set_drainers].
    unfold sc3 at 1. rewrite startDraining_pipes.
    by destruct (HexStreamPipes.close (pipes sc2) h2). }
  rewrite Hcl. cbn [fst snd pipes drainers StreamController.set_pipes
                    StreamController.stopDraining StreamController.set_drainers].
  split; [done|]. split; [done|]. split; [done|].
  split; [done|]. split; [done|].
  unfold StreamController.close.
  cbn [pipes StreamController.stopDraining StreamController.set_drainers
       StreamController.set_pipes].
  rewrite Hidem. done.
Qed.

End LifecycleProofs.

Lemma close_undoes_createPipes_witness :
  let made := StreamController.createPipes blank_controller (host_with 3) in
  let parent := StreamController.setupParent made.1.2 made.2 in
  let drained := (StreamController.startDraining parent.1.2).2 in
  fdtable (StreamController.close drained parent.2).2 =
    fdtable (host_with 3).
Proof.
  intros made parent drained.
  assert (Hrun : StreamController.createPipes blank_controller (host_with 3) =
                 (true, made.1.2, made.2)) by (vm_compute; reflexivity).
  exact (proj1 (close_undoes_createPipes blank_controller made.1.2
                  (host_with 3) made.2 eq_refl Hrun)).
Defined.

(* --------------------------------------------------------------------- *)
(** ** StreamController::flushBuffers                                     *)
(* --------------------------------------------------------------------- *)

Section FlushProofs.
Import RingBuffer.

Set Warnings "-clear-no-such-hyp".

Lemma contents_nil rb : wf rb -> available rb = 0 -> contents rb = [].
Proof.
  intros Hwf Hav. apply length_zero_iff_nil.
  pose proof (contents_length rb Hwf). lia.
Qed.

Lemma read_capacity rb m : capacity (read rb m).1 = capacity rb.
Proof. unfold read. by destruct (Z.min m (available rb) =? 0). Qed.

(** The inner loop of [flushBuffers] empties the ring and hands over its
    bytes in order, at most 4096 at a time. *)
Lemma flush_ring_spec fuel :
  forall rb,
    wf rb -> available rb <= Z.of_nat fuel ->
    wf (StreamControllerOps.flush_ring fuel rb).1 /\
    available (StreamControllerOps.flush_ring fuel rb).1 = 0 /\
    capacity (StreamControllerOps.flush_ring fuel rb).1 = capacity rb /\
    concat (StreamControllerOps.flush_ring fuel rb).2 = contents rb /\
    Forall (fun c => 0 < Z.of_nat (length c) <= READ_BUFFER_SIZE)
      (StreamControllerOps.flush_ring fuel rb).2.
Proof.
  induction fuel as [|fuel IH]; intros rb Hwf Hfuel.
  - destruct (available_wf rb Hwf) as [_ Hav].
    cbn [StreamControllerOps.flush_ring fst snd concat].
    assert (Hz : available rb = 0) by lia.
    by rewrite contents_nil.
  - cbn [StreamControllerOps.flush_ring]. unfold empty.
    destruct (Z.eqb_spec (available rb) 0) as [Hz | Hnz].
    { cbn [fst snd concat]. by rewrite contents_nil. }
    destruct (available_wf rb Hwf) as [_ Hav].
    assert (Hm : 0 <= READ_BUFFER_SIZE) by (unfold READ_BUFFER_SIZE; lia).
    pose proof (read_wf rb READ_BUFFER_SIZE Hwf Hm) as Hwf1.
    pose proof (read_available rb READ_BUFFER_SIZE Hwf Hm) as Hav1.
    pose proof (read_capacity rb READ_BUFFER_SIZE) as Hcap1.
    destruct (read_takes rb READ_BUFFER_SIZE Hwf Hm) as [Hgot Hrest].
    pose proof (contents_length rb Hwf) as Hlen.
    destruct (read rb READ_BUFFER_SIZE) as [rb1 got].
    cbn [fst snd] in *.
    assert (Hfuel1 : available rb1 <= Z.of_nat fuel)
      by (unfold READ_BUFFER_SIZE in *; lia).
    destruct (IH rb1 Hwf1 Hfuel1) as (Hwf2 & Hav2 & Hcap2 & Hcat & Hall).
    destruct (StreamControllerOps.flush_ring fuel rb1) as [rb2 chunks].
    cbn [fst snd] in *.
    assert (Hgl : Z.of_nat (length got) =
                  Z.min READ_BUFFER_SIZE (available rb)).
    { rewrite Hgot, length_take. unfold READ_BUFFER_SIZE in *. lia. }
    destruct (Z.ltb_spec 0 (Z.of_nat (length got)));
      [|unfold READ_BUFFER_SIZE in *; lia].
    split; [done|]. split; [done|]. split; [congruence|]. split.
    + cbn [concat]. rewrite Hcat, Hgot, Hrest. apply take_drop.
    + constructor; [|done]. unfold READ_BUFFER_SIZE in *. lia.
Qed.

Lemma delivered_app calls1 calls2 cb s :
  delivered (calls1 ++ calls2) cb s =
    delivered calls1 cb s ++ delivered calls2 cb s.
Proof. unfold delivered. by rewrite omap_app, concat_app. Qed.

Lemma delivered_notify (l : list nat) s' (c : list Z) cb s :
  NoDup l ->
  delivered (map (fun cb' => (cb', s', c)) l) cb s =
    if decide (cb ∈ l /\ s' = s) then c else [].
Proof.
  induction 1 as [|a l Hnotin Hnd IH].
  - cbn. case_decide as Hc; [|done]. destruct Hc as [Hc _]. set_solver.
  - unfold delivered in *. cbn [map omap list_omap fst snd].
    destruct (decide (a = cb /\ s' = s)) as [[-> ->] | Hne].
    + cbn [concat]. rewrite IH.
      rewrite decide_False by (intros [? _]; done).
      rewrite decide_True by (split; [left|done]).
      apply app_nil_r.
    + rewrite IH. apply decide_ext. rewrite elem_of_cons. naive_solver.
Qed.

Lemma delivered_chunks sc s' (chunks : list (list Z)) cb s :
  NoDup (callbacks sc) ->
  delivered (concat (map (StreamControllerOps.notifyData sc s') chunks)) cb s =
    if decide (cb ∈ callbacks sc /\ s' = s) then concat chunks else [].
Proof.
  intros Hnd. induction chunks as [|c chunks IH].
  - cbn. by case_decide.
  - cbn [map concat]. rewrite delivered_app, IH.
    unfold StreamControllerOps.notifyData. rewrite delivered_notify by done.
    case_decide; [done|]. done.
Qed.

Lemma calls_chunks sc s' (chunks : list (list Z)) :
  Forall (fun c => 0 < Z.of_nat (length c) <= READ_BUFFER_SIZE) chunks ->
  Forall (fun call => call.1.2 = s' /\ call.1.1 ∈ callbacks sc /\
                      0 < Z.of_nat (length call.2) <= READ_BUFFER_SIZE)
    (concat (map (StreamControllerOps.notifyData sc s') chunks)).
Proof.
  induction 1 as [|c chunks Hc Hall IH]; [constructor|].
  cbn [map concat]. apply Forall_app. split; [|done].
  unfold StreamControllerOps.notifyData. apply Forall_forall.
  intros call Hin. apply list_elem_of_fmap in Hin as (cb & -> & Hcb).
  done.
Qed.

Lemma stream_int_inj s1 s2 : stream_int s1 = stream_int s2 -> s1 = s2.
Proof. by destruct s1, s2. Qed.

Lemma stream_int_lt s : (stream_int s < 6)%nat.
Proof. destruct s; cbn; lia. Qed.

Lemma ring_set_buffers sc s0 rb s :
  length (buffers sc) = 6%nat ->
  StreamController.ring
    (StreamController.set_buffers sc (<[stream_int s0 := rb]> (buffers sc))) s =
  if decide (s = s0) then rb else StreamController.ring sc s.
Proof.
  intros Hlen. unfold StreamController.ring, StreamController.set_buffers.
  cbn [buffers]. case_decide as Hs.
  - subst. rewrite list_lookup_insert_eq; [done|].
    rewrite Hlen. apply stream_int_lt.
  - rewrite list_lookup_insert_ne; [done|].
    intros Heq. by apply stream_int_inj in Heq.
Qed.

(** The outer loop of [flushBuffers] over the streams of [l]. *)
Lemma flush_fold_spec (cbs : list nat) (l : list StreamIndex) :
  NoDup cbs -> NoDup l ->
  forall sc calls,
    callbacks sc = cbs -> length (buffers sc) = 6%nat ->
    (forall s, wf (StreamController.ring sc s)) ->
    let r := foldl StreamControllerOps.flush_stream (sc, calls) l in
    callbacks r.1 = cbs /\ length (buffers r.1) = 6%nat /\
    pipes r.1 = pipes sc /\ drainers r.1 = drainers sc /\
    (forall s, wf (StreamController.ring r.1 s) /\
               capacity (StreamController.ring r.1 s) =
                 capacity (StreamController.ring sc s)) /\
    (forall s, s ∈ l -> available (StreamController.ring r.1 s) = 0) /\
    (forall s, s ∉ l ->
       StreamController.ring r.1 s = StreamController.ring sc s) /\
    (forall cb s,
       delivered r.2 cb s =
         delivered calls cb s ++
         if decide (cb ∈ cbs /\ s ∈ l)
         then contents (StreamController.ring sc s) else []) /\
    (exists more,
       r.2 = calls ++ more /\
       Forall (fun call => call.1.1 ∈ cbs /\
                 0 < Z.of_nat (length call.2) <= READ_BUFFER_SIZE) more).
Proof.
  intros Hcbs Hl. induction Hl as [|s0 l Hnotin Hnd IH];
    intros sc calls Hcb Hlen Hwf.
  - cbn [foldl fst snd]. do 5 (split; [done|]).
    split; [intros s Hs; by apply elem_of_nil in Hs|]. split; [done|]. split.
    + intros cb s. rewrite decide_False by (intros [_ Hs]; set_solver).
      by rewrite app_nil_r.
    + exists []. by rewrite app_nil_r.
  - cbn [foldl].
    set (rb := StreamController.ring sc s0).
    pose proof (Hwf s0) as Hwf0. fold rb in Hwf0.
    destruct (available_wf rb Hwf0) as [_ Hav0].
    destruct (flush_ring_spec (Z.to_nat (available rb)) rb Hwf0 ltac:(lia))
      as (Hwf' & Hav' & Hcap' & Hcat & Hall).
    assert (Hstep :
      StreamControllerOps.flush_stream (sc, calls) s0 =
        (StreamController.set_buffers sc
           (<[stream_int s0 :=
                (StreamControllerOps.flush_ring
                   (Z.to_nat (available rb)) rb).1]> (buffers sc)),
         calls ++ concat
           (map (StreamControllerOps.notifyData sc s0)
              (StreamControllerOps.flush_ring
                 (Z.to_nat (available rb)) rb).2))).
    { unfold StreamControllerOps.flush_stream. fold rb.
      by destruct (StreamControllerOps.flush_ring _ rb). }
    rewrite Hstep. clear Hstep.
    set (rb' := (StreamControllerOps.flush_ring _ rb).1) in *.
    set (chunks := (StreamControllerOps.flush_ring _ rb).2) in *.
    set (sc1 := StreamController.set_buffers sc _).
    assert (Hring1 : forall s, StreamController.ring sc1 s =
              if decide (s = s0) then rb' else StreamController.ring sc s)
      by (intros s; by apply ring_set_buffers).
    destruct (IH sc1 (calls ++ concat
                (map (StreamControllerOps.notifyData sc s0) chunks)))
      as (Hcb2 & Hlen2 & Hp2 & Hd2 & Hwf2 & Hempty2 & Hsame2 & Hdel2 & Hmore2).
    { done. }
    { unfold sc1, StreamController.set_buffers. cbn [buffers].
      by rewrite length_insert. }
    { intros s. rewrite Hring1. by case_decide. }
    split; [done|]. split; [done|]. split; [done|]. split; [done|].
    split; [|split; [|split; [|split]]].
    + intros s. destruct (Hwf2 s) as [Hw Hc]. split; [done|].
      rewrite Hc, Hring1. case_decide; [by subst | done].
    + intros s Hs. apply elem_of_cons in Hs as [-> | Hs]; [|by apply Hempty2].
      rewrite Hsame2 by done. rewrite Hring1. by rewrite decide_True.
    + intros s Hs. apply not_elem_of_cons in Hs as [Hne Hs].
      rewrite Hsame2 by done. rewrite Hring1. by rewrite decide_False.
    + intros cb s. rewrite Hdel2, delivered_app, <- app_assoc. f_equal.
      rewrite delivered_chunks by (by rewrite Hcb).
      rewrite Hcb, Hcat, Hring1.
      destruct (decide (s = s0)) as [-> | Hne].
      * destruct (decide (cb ∈ cbs)) as [Hin | Hout].
        -- rewrite decide_True by done.
           rewrite decide_False by (intros [_ ?]; done).
           rewrite decide_True by (split; [done | left]).
           apply app_nil_r.
        -- by rewrite !decide_False by (intros [? _]; done).
      * rewrite decide_False by (intros [_ ?]; done).
        cbn [app]. apply decide_ext. rewrite elem_of_cons.
        clear - Hne. naive_solver.
    + destruct Hmore2 as (more & -> & Hmore).
      exists (concat (map (StreamControllerOps.notifyData sc s0) chunks)
                ++ more).
      split; [by rewrite app_assoc|]. apply Forall_app. split; [|done].
      eapply Forall_impl; [apply (calls_chunks sc s0 chunks Hall)|].
      intros call (_ & Hin & Hsz). by rewrite <- Hcb.
Qed.

Lemma all_streams_NoDup : NoDup all_streams.
Proof.
  unfold all_streams.
  repeat (apply NoDup_cons_2;
          [rewrite ?elem_of_cons, ?elem_of_nil; naive_solver|]).
  apply NoDup_nil_2.
Qed.

Lemma all_streams_all s : s ∈ all_streams.
Proof.
  unfold all_streams. rewrite ?elem_of_cons. destruct s; naive_solver.
Qed.

(** X15. [flushBuffers] empties all six rings.  Each registered callback
    receives, for each stream, exactly the bytes that were unread in that
    stream's ring, in order, in chunks of 1 to 4096 bytes; with no
    callback registered the bytes are read and discarded.  (Callbacks are
    told apart by their number, hence registered once.) *)
Theorem flushBuffers_delivers_everything_in_order :
  forall (sc : StreamController),
    length (buffers sc) = 6%nat ->
    (forall s, wf (StreamController.ring sc s)) ->
    NoDup (callbacks sc) ->
    let flushed := (StreamControllerOps.flushBuffers sc).1 in
    let calls := (StreamControllerOps.flushBuffers sc).2 in
    (forall s, StreamController.availableData flushed s = 0 /\
               StreamController.hasPendingData flushed s = false) /\
    (forall cb s, cb ∈ callbacks sc ->
       delivered calls cb s = contents (StreamController.ring sc s)) /\
    (forall call, call ∈ calls ->
       call.1.1 ∈ callbacks sc /\
       0 < Z.of_nat (length call.2) <= READ_BUFFER_SIZE) /\
    (callbacks sc = [] -> calls = []).
Proof.
  intros sc Hlen Hwf Hnd flushed calls.
  destruct (flush_fold_spec (callbacks sc) all_streams Hnd all_streams_NoDup
              sc [] eq_refl Hlen Hwf)
    as (_ & _ & _ & _ & _ & Hempty & _ & Hdel & more & Hcalls & Hmore).
  fold (StreamControllerOps.flushBuffers sc) in Hempty, Hdel, Hcalls.
  fold flushed in Hempty. fold calls in Hdel, Hcalls.
  cbn [app] in Hcalls. subst more.
  assert (Hcontent : forall call, call ∈ calls ->
            call.1.1 ∈ callbacks sc /\
            0 < Z.of_nat (length call.2) <= READ_BUFFER_SIZE)
    by (by apply Forall_forall).
  split; [|split; [|split]].
  - intros s. unfold StreamController.hasPendingData,
      StreamController.availableData.
    rewrite (Hempty s (all_streams_all s)). done.
  - intros cb s Hcb. rewrite Hdel.
    rewrite decide_True by (split; [done | apply all_streams_all]).
    done.
  - done.
  - intros Hnone. destruct calls as [|call calls']; [done|].
    destruct (Hcontent call ltac:(left)) as [Hin _].
    rewrite Hnone in Hin. by apply elem_of_nil in Hin.
Qed.

End FlushProofs.

Lemma small_controller_wf s :
  RingBuffer.wf (StreamController.ring small_controller s).
Proof.
  destruct s; repeat split; vm_compute; easy.
Qed.

Lemma flushBuffers_delivers_everything_in_order_witness :
  delivered (StreamControllerOps.flushBuffers small_controller).2 7 STDOUT =
    [10; 20; 30] /\
  StreamController.hasPendingData
    (StreamControllerOps.flushBuffers small_controller).1 STDOUT = false.
Proof.
  assert (Hnd : NoDup (callbacks small_controller))
    by (apply NoDup_singleton).
  destruct (flushBuffers_delivers_everything_in_order small_controller
              eq_refl small_controller_wf Hnd) as (Hempty & Hdel & _).
  split.
  - apply (Hdel 7%nat STDOUT). apply list_elem_of_singleton. reflexivity.
  - apply (Hempty STDOUT).
Defined.

(* --------------------------------------------------------------------- *)
(** ** StreamDrainer::drainLoop                                           *)
(* --------------------------------------------------------------------- *)

Section BackpressureProofs.
Import RingBuffer.

Lemma backpressure_log_ring rb remainingData ys :
  (backpressure_log rb remainingData ys).1.1 =
    StreamDrainer.backpressure rb remainingData ys.
Proof.
  revert rb remainingData.
  induction ys as [|y ys IH]; intros rb [|b data]; try done.
  destruct y as [|k]; [done|].
  cbn [backpressure_log StreamDrainer.backpressure].
  destruct (write rb (b :: data)) as [rb1 chunk].
  destruct (read rb1 k) as [rb2 taken] eqn:Hread.
  cbn [fst].
  destruct (chunk =? 0).
  - rewrite <- IH. by destruct (backpressure_log rb2 (b :: data) ys) as [[? ?] ?].
  - rewrite <- IH.
    by destruct (backpressure_log rb2 _ ys) as [[? ?] ?].
Qed.

(** No byte is lost or reordered by the back-pressure loop: what the
    consumer took, what the ring holds and what is still unwritten are,
    in this order, the old content of the ring and the bytes to write. *)
Lemma backpressure_log_fifo ys :
  forall rb remainingData,
    wf rb -> Forall yield_ok ys ->
    wf (backpressure_log rb remainingData ys).1.1 /\
    capacity (backpressure_log rb remainingData ys).1.1 = capacity rb /\
    (backpressure_log rb remainingData ys).1.2
      ++ contents (backpressure_log rb remainingData ys).1.1
      ++ (backpressure_log rb remainingData ys).2 =
    contents rb ++ remainingData.
Proof.
  induction ys as [|y ys IH]; intros rb remainingData Hwf Hys.
  - destruct remainingData; cbn [backpressure_log fst snd app];
      by rewrite ?app_nil_r.
  - destruct remainingData as [|b data].
    { cbn [backpressure_log fst snd app]. by rewrite ?app_nil_r. }
    apply Forall_cons in Hys as [Hy Hys].
    destruct y as [|k]; [done|]. cbn [yield_ok] in Hy.
    cbn [backpressure_log].
    pose proof (write_wf rb (b :: data) Hwf) as Hwf1.
    pose proof (write_appends rb (b :: data) Hwf) as Happ.
    pose proof (write_accepts_bounds rb (b :: data) Hwf) as [Hn _].
    pose proof (write_positions rb (b :: data) Hwf) as (_ & Hc1 & _).
    destruct (write rb (b :: data)) as [rb1 chunk]. cbn [fst snd] in *.
    pose proof (read_wf rb1 k Hwf1 Hy) as Hwf2.
    destruct (read_takes rb1 k Hwf1 Hy) as [Htaken Hrest].
    pose proof (read_capacity rb1 k) as Hc2.
    destruct (read rb1 k) as [rb2 taken]. cbn [fst snd] in *.
    set (rest := if chunk =? 0 then b :: data
                 else drop (Z.to_nat chunk) (b :: data)).
    assert (Hrest_eq : rest = drop (Z.to_nat chunk) (b :: data)).
    { unfold rest. destruct (Z.eqb_spec chunk 0) as [-> | _]; done. }
    destruct (IH rb2 rest Hwf2 Hys) as (Hwf3 & Hc3 & Hfifo).
    destruct (backpressure_log rb2 rest ys) as [[rb3 consumed] unwritten].
    cbn [fst snd] in *.
    split; [done|]. split; [congruence|].
    rewrite <- app_assoc, Hfifo, Hrest_eq, Hrest, Htaken, Happ.
    rewrite !app_assoc. rewrite take_drop. rewrite <- !app_assoc.
    by rewrite take_drop.
Qed.

(** A consumer that takes at least one byte at every yield lets the
    loop finish: one yield for every byte to write, and one more when
    the ring is full at the start, are enough. *)
Lemma backpressure_log_finishes (ks : list Z) :
  forall rb remainingData,
    wf rb -> 2 <= capacity rb -> Forall (fun k => 1 <= k) ks ->
    (length remainingData + (if (1 <=? freeSpace rb)%Z then 0 else 1)
       <= length ks)%nat ->
    (backpressure_log rb remainingData (map ConsumerReads ks)).2 = [].
Proof.
  induction ks as [|k ks IH]; intros rb remainingData Hwf Hcap Hks Hlen.
  - destruct remainingData; [done | cbn in Hlen; lia].
  - destruct remainingData as [|b data]; [done|].
    apply Forall_cons in Hks as [Hk Hks].
    cbn [map backpressure_log].
    pose proof (write_wf rb (b :: data) Hwf) as Hwf1.
    pose proof (write_count rb (b :: data) Hwf) as Hcount.
    pose proof (write_available rb (b :: data) Hwf) as Hav1.
    pose proof (write_positions rb (b :: data) Hwf) as (_ & Hc1 & _).
    pose proof (freeSpace_wf rb Hwf) as Hfree.
    destruct (available_wf rb Hwf) as [_ Hav].
    destruct (write rb (b :: data)) as [rb1 chunk]. cbn [fst snd] in *.
    assert (Hk0 : 0 <= k) by lia.
    pose proof (read_wf rb1 k Hwf1 Hk0) as Hwf2.
    pose proof (read_available rb1 k Hwf1 Hk0) as Hav2.
    pose proof (read_capacity rb1 k) as Hc2.
    pose proof (freeSpace_wf _ Hwf2) as Hfree2.
    destruct (read rb1 k) as [rb2 taken]. cbn [fst snd] in *.
    set (rest := if chunk =? 0 then b :: data
                 else drop (Z.to_nat chunk) (b :: data)).
    assert (Hrest_eq : rest = drop (Z.to_nat chunk) (b :: data)).
    { unfold rest. destruct (Z.eqb_spec chunk 0) as [-> | _]; done. }
    assert (Hroom : 1 <= freeSpace rb2).
    { cbn [length] in Hcount. lia. }
    assert (Hshort : (length rest + (if (1 <=? freeSpace rb2)%Z then 0 else 1)
                        <= length ks)%nat).
    { destruct (Z.leb_spec 1 (freeSpace rb2)); [|lia].
      rewrite Hrest_eq, length_drop. cbn [length] in *.
      destruct (Z.leb_spec 1 (freeSpace rb)); lia. }
    pose proof (IH rb2 rest Hwf2 ltac:(lia) Hks Hshort) as Hdone.
    destruct (backpressure_log rb2 rest (map ConsumerReads ks))
      as [[rb3 consumed] unwritten].
    done.
Qed.

Lemma on_data_counts d rb data ys :
  bytesTransferred_ (StreamDrainer.on_data d rb data ys).1 =
    bytesTransferred_ d + Z.of_nat (length data).
Proof.
  unfold StreamDrainer.on_data. by destruct (write rb data).
Qed.

Lemma on_data_block d rb data ys :
  dropOnOverflow_ d = false ->
  wf rb ->
  (StreamDrainer.on_data d rb data ys).2 =
    (backpressure_log (write rb data).1
       (drop (Z.to_nat (write rb data).2) data) ys).1.1.
Proof.
  intros Hblock Hwf. unfold StreamDrainer.on_data. rewrite Hblock.
  pose proof (write_accepts_bounds rb data Hwf) as [Hn _].
  destruct (write rb data) as [rb1 written]. cbn [fst snd] in *.
  destruct (Z.ltb_spec written (Z.of_nat (length data))).
  - by rewrite backpressure_log_ring.
  - rewrite drop_ge by lia. by destruct ys.
Qed.

Lemma on_data_block_spec :
  forall (d : StreamDrainer) (rb : RingBuffer) (data : list Z)
         (ys : list Yield),
    dropOnOverflow_ d = false ->
    wf rb ->
    Forall yield_ok ys ->
    let rb1 := (write rb data).1 in
    let written := (write rb data).2 in
    let log := backpressure_log rb1 (drop (Z.to_nat written) data) ys in
    let after := StreamDrainer.on_data d rb data ys in
    after.2 = log.1.1 /\
    wf after.2 /\
    log.1.2 ++ contents after.2 ++ log.2 = contents rb ++ data /\
    bytesTransferred_ after.1 =
      bytesTransferred_ d + Z.of_nat (length data) /\
    (Z.of_nat (length data) <= freeSpace rb ->
       log.1.2 = [] /\ log.2 = [] /\ contents after.2 = contents rb ++ data).
Proof.
  intros d rb data ys Hblock Hwf Hys rb1 written log after.
  pose proof (on_data_block d rb data ys Hblock Hwf) as Hring.
  fold rb1 written log after in Hring.
  pose proof (write_wf rb data Hwf) as Hwf1. fold rb1 in Hwf1.
  pose proof (write_appends rb data Hwf) as Happ. fold rb1 written in Happ.
  destruct (backpressure_log_fifo ys rb1 (drop (Z.to_nat written) data)
              Hwf1 Hys) as (Hwf2 & _ & Hfifo).
  fold log in Hwf2, Hfifo.
  assert (Hall : log.1.2 ++ contents after.2 ++ log.2 = contents rb ++ data).
  { rewrite Hring, Hfifo, Happ, <- app_assoc. by rewrite take_drop. }
  split; [done|]. split; [by rewrite Hring|]. split; [done|].
  split; [apply on_data_counts|].
  intros Hfits.
  pose proof (write_count rb data Hwf) as Hcount. fold written in Hcount.
  assert (Hnone : drop (Z.to_nat written) data = [])
    by (apply drop_ge; lia).
  assert (Hlog : log = (rb1, [], [])).
  { unfold log. rewrite Hnone. by destruct ys. }
  rewrite Hlog in Hall. cbn [fst snd app] in Hall.
  rewrite Hlog. cbn [fst snd]. rewrite app_nil_r in Hall. done.
Qed.

(** X16. BLOCK MODE loses and reorders nothing.  For a drainer that does
    not drop, after one successful read of [data]: the bytes the consumer
    took from the ring meanwhile, then the bytes in the ring, then the
    bytes still unwritten when the loop was left (none unless a stop was
    requested) are the bytes unread before followed by [data].
    [bytesTransferred] grows by the full length of [data].  When [data]
    fits into the free space it is appended at once. *)
Theorem block_mode_keeps_every_byte_in_order :
  forall (d : StreamDrainer) (rb : RingBuffer) (data : list Z)
         (ys : list Yield),
    dropOnOverflow_ d = false ->
    wf rb ->
    Forall yield_ok ys ->
    let rb1 := (write rb data).1 in
    let written := (write rb data).2 in
    let log := backpressure_log rb1 (drop (Z.to_nat written) data) ys in
    let after := StreamDrainer.on_data d rb data ys in
    after.2 = log.1.1 /\
    wf after.2 /\
    log.1.2 ++ contents after.2 ++ log.2 = contents rb ++ data /\
    bytesTransferred_ after.1 =
      bytesTransferred_ d + Z.of_nat (length data) /\
    (Z.of_nat (length data) <= freeSpace rb ->
       log.1.2 = [] /\ log.2 = [] /\ contents after.2 = contents rb ++ data).
Proof. exact on_data_block_spec. Qed.

Lemma block_mode_keeps_every_byte_in_order_witness :
  let d := StreamDrainer.new STDOUT 5 false in
  let rb := RingBuffer.new 4 in
  let data := [1; 2; 3; 4; 5] in
  let ys := [ConsumerReads 2; ConsumerReads 1; ConsumerReads 0] in
  let log := backpressure_log (write rb data).1
               (drop (Z.to_nat (write rb data).2) data) ys in
  log.1.2 ++ contents (StreamDrainer.on_data d rb data ys).2 ++ log.2 =
    [1; 2; 3; 4; 5].
Proof.
  intros d rb data ys log.
  assert (Hwf : wf rb) by (apply new_wf; unfold PTRDIFF_MAX; lia).
  assert (Hys : Forall yield_ok ys)
    by (repeat constructor; cbn; lia).
  destruct (block_mode_keeps_every_byte_in_order d rb data ys eq_refl Hwf Hys)
    as (_ & _ & Hfifo & _).
  exact Hfifo.
Defined.

(** X17. BLOCK MODE ends when the consumer reads.  With a ring of
    capacity at least 2 and a consumer that takes at least one byte at
    every yield, the back-pressure loop writes all of [data] within
    [length data + 1] yields, and nothing is lost. *)
Theorem block_mode_finishes_when_the_consumer_reads :
  forall (d : StreamDrainer) (rb : RingBuffer) (data : list Z)
         (ks : list Z),
    dropOnOverflow_ d = false ->
    wf rb ->
    2 <= capacity rb ->
    Forall (fun k => 1 <= k) ks ->
    (length data < length ks)%nat ->
    let log := backpressure_log (write rb data).1
                 (drop (Z.to_nat (write rb data).2) data)
                 (map ConsumerReads ks) in
    let after := StreamDrainer.on_data d rb data (map ConsumerReads ks) in
    log.2 = [] /\
    log.1.2 ++ contents after.2 = contents rb ++ data.
Proof.
  intros d rb data ks Hblock Hwf Hcap Hks Hlen log after.
  assert (Hys : Forall yield_ok (map ConsumerReads ks)).
  { apply Forall_forall. intros y Hy.
    apply list_elem_of_fmap in Hy as (k & -> & Hk).
    rewrite Forall_forall in Hks. specialize (Hks k Hk). cbn. lia. }
  destruct (on_data_block_spec d rb data
              (map ConsumerReads ks) Hblock Hwf Hys) as (_ & _ & Hfifo & _).
  fold log after in Hfifo.
  pose proof (write_wf rb data Hwf) as Hwf1.
  pose proof (write_positions rb data Hwf) as (_ & Hc1 & _).
  assert (Hdone : log.2 = []).
  { apply backpressure_log_finishes; [done | lia | done |].
    rewrite length_drop.
    destruct (1 <=? freeSpace (write rb data).1); lia. }
  split; [done|]. rewrite Hdone, app_nil_r in Hfifo. done.
Qed.

End BackpressureProofs.

Lemma block_mode_finishes_when_the_consumer_reads_witness :
  let d := StreamDrainer.new STDOUT 5 false in
  let rb := RingBuffer.new 4 in
  let data := [1; 2; 3; 4; 5] in
  let ks := [2; 1; 1; 1; 1; 1] in
  let log := backpressure_log (RingBuffer.write rb data).1
               (drop (Z.to_nat (RingBuffer.write rb data).2) data)
               (map ConsumerReads ks) in
  log.2 = [] /\
  log.1.2 ++ contents (StreamDrainer.on_data d rb data (map ConsumerReads ks)).2
    = [1; 2; 3; 4; 5].
Proof.
  intros d rb data ks log.
  assert (Hwf : RingBuffer.wf rb)
    by (apply new_wf; unfold PTRDIFF_MAX; lia).
  assert (Hks : Forall (fun k => 1 <= k) ks) by (repeat constructor; lia).
  exact (block_mode_finishes_when_the_consumer_reads d rb data ks eq_refl Hwf
           ltac:(cbn; lia) Hks ltac:(cbn; lia)).
Defined.

Section DrainLoopProofs.
Import RingBuffer.

Lemma on_data_inv d rb data ys :
  wf rb -> Forall yield_ok ys ->
  wf (StreamDrainer.on_data d rb data ys).2 /\
  capacity (StreamDrainer.on_data d rb data ys).2 = capacity rb /\
  same_drainer d (StreamDrainer.on_data d rb data ys).1 /\
  active_ (StreamDrainer.on_data d rb data ys).1 = active_ d /\
  (dropOnOverflow_ d = true ->
     contents (StreamDrainer.on_data d rb data ys).2 =
       contents rb ++ take (Z.to_nat (write rb data).2) data).
Proof.
  intros Hwf Hys. unfold StreamDrainer.on_data.
  pose proof (write_wf rb data Hwf) as Hwf1.
  pose proof (write_appends rb data Hwf) as Happ.
  pose proof (write_positions rb data Hwf) as (_ & Hc1 & _).
  destruct (write rb data) as [rb1 written]. cbn [fst snd] in *.
  destruct (written <? Z.of_nat (length data));
    [destruct (dropOnOverflow_ d) eqn:Hmode|]; try done.
  rewrite <- backpressure_log_ring.
  destruct (backpressure_log_fifo ys rb1 (drop (Z.to_nat written) data)
              Hwf1 Hys) as (Hwf2 & Hc2 & _).
  split; [done|]. split; [congruence|]. done.
Qed.

Lemma turn_inv d rb t :
  wf rb -> Forall yield_ok (yields t) ->
  wf (StreamDrainer.turn d rb t).1.2 /\
  capacity (StreamDrainer.turn d rb t).1.2 = capacity rb /\
  same_drainer d (StreamDrainer.turn d rb t).1.1 /\
  active_ (StreamDrainer.turn d rb t).1.1 = active_ d /\
  (dropOnOverflow_ d = true ->
     exists more, contents (StreamDrainer.turn d rb t).1.2 =
                    contents rb ++ more).
Proof.
  intros Hwf Hys.
  assert (Hsame : wf rb /\ capacity rb = capacity rb /\ same_drainer d d /\
            active_ d = active_ d /\
            (dropOnOverflow_ d = true ->
               exists more, contents rb = contents rb ++ more)).
  { do 4 (split; [done|]). intros _. exists []. by rewrite app_nil_r. }
  unfold StreamDrainer.turn.
  destruct (polled t) as [e | | revents]; try done.
  destruct (negb (Z.land revents POLLIN =? 0)).
  - destruct (got t) as [pending | e].
    + destruct (0 <? Z.of_nat (length (StreamDrainer.read_chunk pending))).
      * destruct (on_data_inv d rb (StreamDrainer.read_chunk pending)
                    (yields t) Hwf Hys) as (H1 & H2 & H3 & H4 & H5).
        destruct (StreamDrainer.on_data d rb _ (yields t)) as [d1 rb1].
        cbn [fst snd] in *.
        destruct (Z.land revents (Z.lor POLLHUP POLLERR) =? 0);
          (split; [done|]; split; [done|]; split; [done|]; split; [done|];
           intros Hmode; eexists; by apply H5).
      * done.
    + destruct (negb (negb (e =? EAGAIN) && negb (e =? EINTR))); done.
  - done.
Qed.

Lemma turns_inv ts :
  forall d rb,
    wf rb -> Forall (fun t => Forall yield_ok (yields t)) ts ->
    wf (StreamDrainer.turns d rb ts).1.2 /\
    capacity (StreamDrainer.turns d rb ts).1.2 = capacity rb /\
    same_drainer d (StreamDrainer.turns d rb ts).1.1 /\
    active_ (StreamDrainer.turns d rb ts).1.1 = active_ d /\
    (dropOnOverflow_ d = true ->
       exists more, contents (StreamDrainer.turns d rb ts).1.2 =
                      contents rb ++ more).
Proof.
  induction ts as [|t ts IH]; intros d rb Hwf Hts.
  - cbn [StreamDrainer.turns fst snd]. do 4 (split; [done|]).
    intros _. exists []. by rewrite app_nil_r.
  - apply Forall_cons in Hts as [Ht Hts].
    cbn [StreamDrainer.turns].
    destruct (stop_requested t).
    { cbn [fst snd]. do 4 (split; [done|]).
      intros _. exists []. by rewrite app_nil_r. }
    destruct (turn_inv d rb t Hwf Ht) as (H1 & H2 & H3 & H4 & H5).
    destruct (StreamDrainer.turn d rb t) as [[d1 rb1] go].
    cbn [fst snd] in *.
    destruct go; [|done].
    destruct (IH d1 rb1 H1 Hts) as (G1 & G2 & G3 & G4 & G5).
    split; [done|]. split; [congruence|]. split.
    { destruct H3 as (? & ? & ?), G3 as (? & ? & ?).
      unfold same_drainer. split; [congruence|]. split; congruence. }
    split; [congruence|].
    intros Hmode. destruct (H5 Hmode) as [more1 Hm1].
    destruct H3 as (_ & _ & Hm).
    destruct (G5 ltac:(congruence)) as [more2 Hm2].
    exists (more1 ++ more2). by rewrite Hm2, Hm1, app_assoc.
Qed.

(** X18. [drainLoop] keeps the ring well-formed with its capacity,
    whatever the endpoint delivers and whatever the consumer reads
    meanwhile, and never changes the drainer's stream, descriptor or
    overflow policy; the drainer is inactive exactly when the loop has
    been left.  In drop mode the bytes unread before stay at the front:
    the drainer only appends. *)
Theorem drainLoop_keeps_the_ring_well_formed :
  forall (d : StreamDrainer) (rb : RingBuffer) (ts : list Turn),
    wf rb ->
    Forall (fun t => Forall yield_ok (yields t)) ts ->
    let after := StreamDrainer.drainLoop d rb ts in
    wf after.2 /\
    capacity after.2 = capacity rb /\
    StreamDrainer.getStream after.1 = StreamDrainer.getStream d /\
    fd_ after.1 = fd_ d /\
    dropOnOverflow_ after.1 = dropOnOverflow_ d /\
    (StreamDrainer.isActive after.1 = false <->
       (StreamDrainer.turns (StreamDrainer.set_active d true) rb ts).2
         = true) /\
    (dropOnOverflow_ d = true ->
       exists more, contents after.2 = contents rb ++ more).
Proof.
  intros d rb ts Hwf Hts after. unfold after, StreamDrainer.drainLoop.
  destruct (turns_inv ts (StreamDrainer.set_active d true) rb Hwf Hts)
    as (H1 & H2 & (H3 & H4 & H5) & H6 & H7).
  destruct (StreamDrainer.turns (StreamDrainer.set_active d true) rb ts)
    as [[d1 rb1] exited].
  cbn [fst snd] in *.
  unfold StreamDrainer.getStream, StreamDrainer.isActive.
  destruct exited; cbn [stream_ fd_ dropOnOverflow_ active_
                        StreamDrainer.set_active] in *;
    do 5 (split; [done|]); (split; [|done]); split; congruence.
Qed.

End DrainLoopProofs.

Lemma drainLoop_keeps_the_ring_well_formed_witness :
  let d := StreamDrainer.new STDDBG 9 true in
  let rb := RingBuffer.new 4 in
  let ts := [data_turn [1; 2]; data_turn [3; 4; 5]] in
  RingBuffer.wf (StreamDrainer.drainLoop d rb ts).2 /\
  capacity (StreamDrainer.drainLoop d rb ts).2 = 4.
Proof.
  intros d rb ts.
  assert (Hwf : RingBuffer.wf rb)
    by (apply new_wf; unfold PTRDIFF_MAX; lia).
  assert (Hts : Forall (fun t => Forall yield_ok (yields t)) ts)
    by (repeat constructor).
  destruct (drainLoop_keeps_the_ring_well_formed d rb ts Hwf Hts)
    as (H1 & H2 & _).
  split; [exact H1 | exact H2].
Defined.

Section DrainExitProofs.
Import RingBuffer.

(** One successful read when the mode is drop or the bytes fit: the ring
    takes what it has room for. *)
Lemma on_data_contents d rb data ys :
  wf rb ->
  dropOnOverflow_ d = true \/ Z.of_nat (length data) <= freeSpace rb ->
  contents (StreamDrainer.on_data d rb data ys).2 =
    contents rb ++ take (Z.to_nat (freeSpace rb)) data.
Proof.
  intros Hwf Hcase.
  pose proof (write_appends rb data Hwf) as Happ.
  pose proof (write_count rb data Hwf) as Hcount.
  pose proof (freeSpace_wf rb Hwf) as Hfree.
  destruct (available_wf rb Hwf) as [_ Hav].
  assert (Htake : take (Z.to_nat (write rb data).2) data =
                  take (Z.to_nat (freeSpace rb)) data).
  { rewrite Hcount.
    destruct (Z.le_gt_cases (Z.of_nat (length data)) (freeSpace rb)).
    - rewrite Z.min_l by done. rewrite !take_ge by lia. done.
    - by rewrite Z.min_r by lia. }
  unfold StreamDrainer.on_data.
  destruct (write rb data) as [rb1 written]. cbn [fst snd] in *.
  destruct (Z.ltb_spec written (Z.of_nat (length data))) as [Hlt | Hge];
    [|by rewrite Happ, Htake].
  destruct Hcase as [-> | Hfits]; [by rewrite Happ, Htake | lia].
Qed.

(** X19. When [poll] reports a hang-up or an error, [drainLoop] first
    reads and buffers what [POLLIN] announces (at most 4096 bytes) and
    then leaves the loop: the last bytes of a child that exited are not
    lost when they fit (or, in drop mode, as far as they fit).  Without
    [POLLIN] nothing is read.  The drainer ends inactive and whatever the
    endpoint would deliver later is never read. *)
Theorem drainLoop_buffers_the_last_bytes_at_hangup :
  forall (d : StreamDrainer) (rb : RingBuffer) (revents : Z)
         (pending : list Z) (ys : list Yield) (rest : list Turn),
    wf rb ->
    Z.land revents (Z.lor POLLHUP POLLERR) <> 0 ->
    let t := mkTurn false (PollReady revents) (ReadBytes pending) ys in
    let data :=
      if Z.land revents POLLIN =? 0 then []
      else StreamDrainer.read_chunk pending in
    let after := StreamDrainer.drainLoop d rb (t :: rest) in
    StreamDrainer.isActive after.1 = false /\
    StreamDrainer.bytesTransferred after.1 =
      StreamDrainer.bytesTransferred d + Z.of_nat (length data) /\
    (dropOnOverflow_ d = true \/ Z.of_nat (length data) <= freeSpace rb ->
       contents after.2 =
         contents rb ++ take (Z.to_nat (freeSpace rb)) data) /\
    after = StreamDrainer.drainLoop d rb [t].
Proof.
  intros d rb revents pending ys rest Hwf Hhup t data after.
  unfold after, StreamDrainer.drainLoop. subst t.
  cbn [StreamDrainer.turns stop_requested].
  unfold StreamDrainer.turn. cbn [polled got yields].
  apply Z.eqb_neq in Hhup. rewrite Hhup.
  unfold StreamDrainer.isActive, StreamDrainer.bytesTransferred.
  unfold data.
  destruct (Z.land revents POLLIN =? 0); cbn [negb].
  { cbn [fst snd StreamDrainer.set_active bytesTransferred_ active_ length].
    rewrite take_nil, app_nil_r. split; [done|]. split; [lia|]. done. }
  set (chunk := StreamDrainer.read_chunk pending).
  destruct (Z.ltb_spec 0 (Z.of_nat (length chunk))) as [Hsome | Hnone].
  - pose proof (on_data_counts (StreamDrainer.set_active d true) rb chunk ys)
      as Hcount.
    pose proof (on_data_contents (StreamDrainer.set_active d true) rb chunk ys
                  Hwf) as Hcontents.
    destruct (StreamDrainer.on_data (StreamDrainer.set_active d true) rb
                chunk ys) as [d1 rb1].
    cbn [fst snd StreamDrainer.set_active bytesTransferred_ active_
         dropOnOverflow_] in *.
    split; [done|]. split; [done|]. split; [done|]. done.
  - assert (Hnil : chunk = []) by (destruct chunk; [done | cbn in Hnone; lia]).
    rewrite Hnil.
    cbn [fst snd StreamDrainer.set_active bytesTransferred_ active_ length].
    rewrite take_nil, app_nil_r. split; [done|]. split; [lia|]. done.
Qed.

End DrainExitProofs.

Lemma drainLoop_buffers_the_last_bytes_at_hangup_witness :
  let d := StreamDrainer.new STDOUT 5 false in
  let rb := RingBuffer.new 8 in
  let t := mkTurn false (PollReady (Z.lor POLLIN POLLHUP))
             (ReadBytes [1; 2; 3]) [] in
  let after := StreamDrainer.drainLoop d rb [t; data_turn [4; 5]] in
  StreamDrainer.isActive after.1 = false /\
  StreamDrainer.bytesTransferred after.1 = 3.
Proof.
  intros d rb t after.
  assert (Hwf : RingBuffer.wf rb)
    by (apply new_wf; unfold PTRDIFF_MAX; lia).
  destruct (drainLoop_buffers_the_last_bytes_at_hangup d rb
              (Z.lor POLLIN POLLHUP) [1; 2; 3] [] [data_turn [4; 5]] Hwf
              ltac:(vm_compute; discriminate)) as (H1 & H2 & _).
  split; [exact H1 | exact H2].
Defined.

(* --------------------------------------------------------------------- *)
(** ** StateMachine                                                       *)
(* --------------------------------------------------------------------- *)

Section StateMachineProofs.

Set Warnings "-clear-no-such-hyp".

Lemma after_events_app s es1 es2 :
  after_events s (es1 ++ es2) =
    after_events s es1 ≫= fun s1 => after_events s1 es2.
Proof.
  revert s. induction es1 as [|e es1 IH]; intros s; [done|].
  cbn [app after_events].
  by destruct (valid (StateMachine.transition s e)).
Qed.

Lemma after_events_terminated es s :
  after_events TERMINATED es = Some s -> es = [] /\ s = TERMINATED.
Proof. destruct es; cbn; [by intros [= <-] | done]. Qed.

(** A job that exists stays out of [NONE] and takes no spawn event and no
    [TIMEOUT]. *)
Lemma after_events_live es :
  forall s s',
    s <> NONE -> after_events s es = Some s' ->
    s' <> NONE /\
    Forall (fun e => e <> SPAWN /\ e <> SPAWN_BG /\ e <> TIMEOUT) es.
Proof.
  induction es as [|e es IH]; intros s s' Hs Hrun.
  - cbn in Hrun. injection Hrun as <-. by split.
  - cbn [after_events] in Hrun.
    destruct (valid (StateMachine.transition s e)) eqn:Hvalid; [|done].
    assert (Hnext : newState (StateMachine.transition s e) <> NONE /\
                    e <> SPAWN /\ e <> SPAWN_BG /\ e <> TIMEOUT)
      by (destruct s, e; cbn in Hvalid |- *; done).
    destruct Hnext as [Hnext He].
    destruct (IH _ _ Hnext Hrun) as [Hs' Hes].
    split; [done|]. by constructor.
Qed.

(** X20. The life of a job.  If a non-empty sequence of events is
    accepted from [NONE], its first event is [SPAWN] or [SPAWN_BG] and no
    later one is; [TIMEOUT] never occurs in it; the job never returns to
    [NONE]; and once a prefix has reached [TERMINATED] no further event
    is accepted. *)
Theorem job_lifecycle :
  forall (es : list JobEvent) (s : JobState),
    es <> [] ->
    after_events NONE es = Some s ->
    s <> NONE /\
    (exists e es', es = e :: es' /\ (e = SPAWN \/ e = SPAWN_BG) /\
       Forall (fun e => e <> SPAWN /\ e <> SPAWN_BG /\ e <> TIMEOUT) es') /\
    (forall es1 es2,
       es = es1 ++ es2 -> after_events NONE es1 = Some TERMINATED ->
       es2 = [] /\ s = TERMINATED).
Proof.
  intros es s Hne Hrun.
  destruct es as [|e es']; [done|].
  pose proof Hrun as Hrun'. cbn [after_events] in Hrun'.
  destruct (valid (StateMachine.transition NONE e)) eqn:Hvalid; [|done].
  assert (He : (e = SPAWN \/ e = SPAWN_BG) /\
               newState (StateMachine.transition NONE e) <> NONE)
    by (destruct e; cbn in Hvalid |- *; try done; split; auto).
  destruct He as [He Hlive].
  destruct (after_events_live es' _ s Hlive Hrun') as [Hs Hes'].
  split; [done|]. split; [by exists e, es'|].
  intros es1 es2 Hsplit Hterm.
  rewrite Hsplit, after_events_app, Hterm in Hrun. cbn in Hrun.
  by apply after_events_terminated in Hrun.
Qed.

Lemma job_lifecycle_witness :
  after_events NONE [SPAWN; CTRL_Z; BG_CMD; CHILD_EXIT] = Some TERMINATED /\
  TERMINATED <> NONE.
Proof.
  assert (Hrun : after_events NONE [SPAWN; CTRL_Z; BG_CMD; CHILD_EXIT] =
                 Some TERMINATED) by reflexivity.
  split; [exact Hrun|].
  exact (proj1 (job_lifecycle [SPAWN; CTRL_Z; BG_CMD; CHILD_EXIT] TERMINATED
                  ltac:(discriminate) Hrun)).
Defined.

(** X21. [validEvents(state)] lists, without repetition, exactly the
    events [canTransition] accepts in that state.  The list is empty
    exactly for [TERMINATED]; [TIMEOUT] is in none; every state of a
    living job accepts [CHILD_EXIT] and [ERROR] and neither spawn
    event. *)
Theorem validEvents_lists_the_accepted_events :
  forall (s : JobState),
    (forall e, (e ∈ StateMachine.validEvents s) <->
               (StateMachine.canTransition s e = true)) /\
    NoDup (StateMachine.validEvents s) /\
    (StateMachine.validEvents s = [] <-> s = TERMINATED) /\
    (TIMEOUT ∉ StateMachine.validEvents s) /\
    (s <> NONE -> s <> TERMINATED ->
       CHILD_EXIT ∈ StateMachine.validEvents s /\
       ERROR ∈ StateMachine.validEvents s /\
       (SPAWN ∉ StateMachine.validEvents s) /\
       SPAWN_BG ∉ StateMachine.validEvents s).
Proof.
  intros s.
  assert (Hall : forall e, e ∈ StateMachine.allEvents).
  { intros e. unfold StateMachine.allEvents. rewrite ?elem_of_cons.
    destruct e; naive_solver. }
  assert (Hnd : NoDup StateMachine.allEvents).
  { unfold StateMachine.allEvents.
    repeat (apply NoDup_cons_2;
            [rewrite ?elem_of_cons, ?elem_of_nil; naive_solver|]).
    apply NoDup_nil_2. }
  assert (Hmem : forall e, (e ∈ StateMachine.validEvents s) <->
                           (StateMachine.canTransition s e = true)).
  { intros e. unfold StateMachine.validEvents.
    rewrite list_elem_of_filter. naive_solver. }
  split; [done|]. split; [by apply NoDup_filter|].
  split; [|split].
  - split.
    + intros Hnil. destruct s; try done; cbn in Hnil; discriminate.
    + by intros ->.
  - rewrite Hmem. by destruct s.
  - intros H1 H2. rewrite !Hmem. by destruct s.
Qed.

End StateMachineProofs.

(* --------------------------------------------------------------------- *)
(** ** HexStreamProcess::wait and HexStreamPipeline::waitAll              *)
(* --------------------------------------------------------------------- *)

Section ProcessProofs.

Lemma WTERMSIG_mod status : WTERMSIG status = status mod 128.
Proof. unfold WTERMSIG. change 127 with (Z.ones 7). by rewrite Z.land_ones. Qed.

Lemma WEXITSTATUS_mod status : WEXITSTATUS status = (status / 256) mod 256.
Proof.
  unfold WEXITSTATUS. change 65280 with (Z.shiftl 255 8).
  rewrite Z.shiftr_land, Z.shiftr_shiftl_l by lia.
  change (Z.shiftl 255 (8 - 8)) with (Z.ones 8).
  rewrite Z.land_ones by lia. by rewrite Z.shiftr_div_pow2 by lia.
Qed.

Lemma WIFSIGNALED_iff status :
  WIFSIGNALED status = true <-> 1 <= WTERMSIG status <= 126.
Proof.
  unfold WIFSIGNALED. fold (WTERMSIG status). rewrite WTERMSIG_mod.
  pose proof (Z.mod_pos_bound status 128 ltac:(lia)) as Hm.
  set (sig := status mod 128) in *. clearbody sig.
  destruct (Z.geb_spec (sig + 1) 128) as [Hbig | Hsmall].
  - assert (sig = 127) as -> by lia. cbn. split; [done | lia].
  - rewrite Z.shiftr_div_pow2 by lia. change (2 ^ 1) with 2.
    destruct (Z.gtb_spec ((sig + 1) / 2) 0) as [Hpos | Hzero].
    + split; [|done]. intros _.
      assert (sig <> 0) by (intros ->; by vm_compute in Hpos). lia.
    + split; [done|]. intros Hsig. exfalso.
      assert (1 <= (sig + 1) / 2) by (apply Z.div_le_lower_bound; lia). lia.
Qed.

(** The exit code [wait] computes from any status word. *)
Lemma decode_status_range status :
  -1 <= HexStreamProcess.decode_status status <= 255 /\
  (HexStreamProcess.decode_status status = -1 <-> WTERMSIG status = 127).
Proof.
  unfold HexStreamProcess.decode_status, WIFEXITED.
  pose proof (WIFSIGNALED_iff status) as Hsig.
  pose proof (WTERMSIG_mod status) as Hterm.
  pose proof (Z.mod_pos_bound status 128 ltac:(lia)) as Hm.
  pose proof (WEXITSTATUS_mod status) as Hexit.
  pose proof (Z.mod_pos_bound (status / 256) 256 ltac:(lia)) as He.
  destruct (Z.eqb_spec (WTERMSIG status) 0) as [Hz | Hnz]; [lia|].
  destruct (WIFSIGNALED status).
  - assert (1 <= WTERMSIG status <= 126) by (by apply Hsig). lia.
  - assert (~ 1 <= WTERMSIG status <= 126)
      by (intros H; by apply Hsig in H).
    lia.
Qed.

(** X22. [wait] on a running process reaps it once: it polls the pidfd
    when there is one, calls [waitpid] once, stores the decoded exit code
    (between -1 and 255), marks the process not running and then calls
    the exit callback, if any, once with that code.  Every later [wait]
    returns the same code with no system call and no callback. *)
Theorem wait_reaps_a_running_process_once :
  forall (p : HexStreamProcess) (status : Z),
    HexStreamProcess.isRunning p = true ->
    let code := (HexStreamProcess.wait p status).1.1 in
    let p1 := (HexStreamProcess.wait p status).1.2 in
    let effects := (HexStreamProcess.wait p status).2 in
    code = HexStreamProcess.decode_status status /\
    -1 <= code <= 255 /\
    exitCode_ p1 = code /\
    HexStreamProcess.isRunning p1 = false /\
    pid_ p1 = pid_ p /\
    (exists syscalls,
       effects = syscalls ++
                 match exitCallback_ p with
                 | Some cb => [ExitCallback cb code]
                 | None => []
                 end /\
       syscalls = (if pidfd_ p >=? 0 then [Poll (pidfd_ p) (-1)] else []) ++
                  [Waitpid (pid_ p) (if pidfd_ p >=? 0 then WNOHANG else 0)]) /\
    (forall status', HexStreamProcess.wait p1 status' = (code, p1, [])).
Proof.
  intros p status Hrun code p1 effects.
  unfold code, p1, effects, HexStreamProcess.wait.
  unfold HexStreamProcess.isRunning in *. rewrite Hrun. cbn [negb fst snd].
  split; [done|]. split; [apply decode_status_range|].
  cbn [exitCode_ running_ pid_ negb]. do 3 (split; [done|]). split; [|done].
  eexists. split; [done|]. by destruct (pidfd_ p >=? 0).
Qed.

(** X23. The exit code [wait] computes from any status word lies
    between -1 and 255, and is -1 exactly when the low seven bits of the
    status are all set, as in the status of a stopped child. *)
Theorem wait_exit_code_is_minus_one_only_for_a_stop_status :
  forall (status : Z),
    -1 <= HexStreamProcess.decode_status status <= 255 /\
    (HexStreamProcess.decode_status status = -1 <-> WTERMSIG status = 127) /\
    (forall sig, 0 <= sig <= 255 ->
       HexStreamProcess.decode_status (W_STOPCODE sig) = -1).
Proof.
  intros status. destruct (decode_status_range status) as [Hr Hm].
  split; [done|]. split; [done|].
  intros sig Hsig. apply decode_status_range.
  rewrite WTERMSIG_mod. unfold W_STOPCODE.
  change 127 with (Z.ones 7) at 1.
  rewrite <- (Z.land_ones _ 7) by lia.
  rewrite Z.land_lor_distr_l.
  change (Z.ones 7) with 127.
  assert (Hlow : Z.land (Z.shiftl sig 8) 127 = 0).
  { change 127 with (Z.ones 7). rewrite Z.land_ones by lia.
    rewrite Z.shiftl_mul_pow2 by lia.
    change (2 ^ 8) with (2 * 2 ^ 7). rewrite Z.mul_assoc.
    apply Z.mod_mul. lia. }
  rewrite Hlow. reflexivity.
Qed.

Lemma wait_next_fold status_of procs :
  forall codes waited effects,
    let r := foldl (HexStreamPipeline.wait_next status_of)
               (codes, waited, effects) procs in
    r.1.1 = codes ++
      map (fun p => (HexStreamProcess.wait p (status_of (pid_ p))).1.1) procs /\
    r.1.2 = waited ++
      map (fun p => (HexStreamProcess.wait p (status_of (pid_ p))).1.2) procs /\
    r.2 = effects ++
      concat (map (fun p => (HexStreamProcess.wait p (status_of (pid_ p))).2)
                procs).
Proof.
  induction procs as [|p procs IH]; intros codes waited effects.
  - cbn. by rewrite !app_nil_r.
  - cbn [foldl map concat]. unfold HexStreamPipeline.wait_next at 2 4 6.
    destruct (HexStreamProcess.wait p (status_of (pid_ p)))
      as [[code p'] effs].
    destruct (IH (codes ++ [code]) (waited ++ [p']) (effects ++ effs))
      as (H1 & H2 & H3).
    cbn [fst snd] in *. rewrite H1, H2, H3, <- !app_assoc. done.
Qed.

Lemma wait_not_running p status status' :
  HexStreamProcess.wait (HexStreamProcess.wait p status).1.2 status' =
    ((HexStreamProcess.wait p status).1.1,
     (HexStreamProcess.wait p status).1.2, []).
Proof.
  unfold HexStreamProcess.wait.
  destruct (running_ p) eqn:Hrun; cbn [negb fst snd running_ exitCode_];
    by rewrite ?Hrun.
Qed.

Lemma waitAll_codes pl status_of :
  (HexStreamPipeline.waitAll pl status_of).1.1 =
    map (fun p => (HexStreamProcess.wait p (status_of (pid_ p))).1.1)
      (processes_ pl).
Proof.
  destruct (wait_next_fold status_of (processes_ pl) [] [] [])
    as (H1 & _ & _).
  cbn [app] in H1. unfold HexStreamPipeline.waitAll.
  destruct (foldl _ _ _) as [[? ?] ?]. by cbn [fst snd] in *.
Qed.

Lemma waitAll_pipeline pl status_of :
  (HexStreamPipeline.waitAll pl status_of).1.2 =
    mkHexStreamPipeline
      (map (fun p => (HexStreamProcess.wait p (status_of (pid_ p))).1.2)
         (processes_ pl)) (connections_ pl).
Proof.
  destruct (wait_next_fold status_of (processes_ pl) [] [] [])
    as (_ & H2 & _).
  cbn [app] in H2. unfold HexStreamPipeline.waitAll.
  destruct (foldl _ _ _) as [[? ?] ?]. cbn [fst snd] in *. by subst.
Qed.

(** X24. [waitAll] returns one exit code per process, in the order of
    [addProcess]: the decoded status for a process that was running, the
    stored code for one that was not.  Afterwards no process is running,
    the connections are unchanged, and a second [waitAll] returns the
    same codes without any system call or callback.  A process added
    with [addProcess] and never spawned contributes -1, and [connect]
    has no effect on the codes. *)
Theorem waitAll_returns_one_exit_code_per_process :
  forall (pl : HexStreamPipeline) (status_of : Z -> Z),
    let codes := (HexStreamPipeline.waitAll pl status_of).1.1 in
    let pl1 := (HexStreamPipeline.waitAll pl status_of).1.2 in
    length codes = length (processes_ pl) /\
    (forall i p, processes_ pl !! i = Some p ->
       codes !! i =
         Some (if HexStreamProcess.isRunning p
               then HexStreamProcess.decode_status (status_of (pid_ p))
               else exitCode_ p)) /\
    Forall (fun p => HexStreamProcess.isRunning p = false) (processes_ pl1) /\
    connections_ pl1 = connections_ pl /\
    (forall status_of',
       HexStreamPipeline.waitAll pl1 status_of' = (codes, pl1, [])) /\
    (forall config,
       let added := HexStreamPipeline.addProcess pl config in
       added.1 = length (processes_ pl) /\
       (HexStreamPipeline.waitAll added.2 status_of).1.1 =
         codes ++ [-1]) /\
    (forall src dst stream,
       (HexStreamPipeline.waitAll
          (HexStreamPipeline.connect pl src dst stream) status_of).1.1
         = codes).
Proof.
  intros pl status_of codes pl1.
  pose proof (waitAll_codes pl status_of) as Hcodes. fold codes in Hcodes.
  pose proof (waitAll_pipeline pl status_of) as Hpl1. fold pl1 in Hpl1.
  assert (Hadd : forall config,
            (HexStreamPipeline.waitAll
               (HexStreamPipeline.addProcess pl config).2 status_of).1.1 =
            codes ++ [-1]).
  { intros config. rewrite waitAll_codes.
    unfold HexStreamPipeline.addProcess. cbn [snd processes_].
    by rewrite map_app, <- Hcodes. }
  assert (Hconn : forall src dst stream,
            (HexStreamPipeline.waitAll
               (HexStreamPipeline.connect pl src dst stream) status_of).1.1
            = codes).
  { intros src dst stream. by rewrite waitAll_codes. }
  clearbody codes pl1. subst codes pl1.
  cbn [processes_ connections_].
  split; [by rewrite length_map|].
  split; [|split; [|split; [done|split; [|split; [|done]]]]].
  - intros i p Hp. rewrite list_lookup_fmap, Hp. cbn. f_equal.
    unfold HexStreamProcess.wait, HexStreamProcess.isRunning.
    by destruct (running_ p).
  - apply Forall_forall. intros p' Hp'.
    apply list_elem_of_fmap in Hp' as (p & -> & _).
    unfold HexStreamProcess.wait, HexStreamProcess.isRunning.
    by destruct (running_ p) eqn:Hrun.
  - intros status_of'. unfold HexStreamPipeline.waitAll.
    cbn [processes_ connections_].
    destruct (wait_next_fold status_of'
                (map (fun p =>
                        (HexStreamProcess.wait p (status_of (pid_ p))).1.2)
                   (processes_ pl)) [] [] []) as (H1 & H2 & H3).
    destruct (foldl _ _ _) as [[codes' waited'] effects'].
    cbn [fst snd app] in *. subst codes' waited' effects'.
    rewrite !map_map.
    assert (Hc : forall (l : list HexStreamProcess),
      map (fun p => (HexStreamProcess.wait
                       (HexStreamProcess.wait p (status_of (pid_ p))).1.2
                       (status_of'
                          (pid_ (HexStreamProcess.wait p
                                   (status_of (pid_ p))).1.2))).1.1) l =
      map (fun p => (HexStreamProcess.wait p (status_of (pid_ p))).1.1) l)
      by (intros l; apply map_ext; intros p; by rewrite wait_not_running).
    assert (Hw : forall (l : list HexStreamProcess),
      map (fun p => (HexStreamProcess.wait
                       (HexStreamProcess.wait p (status_of (pid_ p))).1.2
                       (status_of'
                          (pid_ (HexStreamProcess.wait p
                                   (status_of (pid_ p))).1.2))).1.2) l =
      map (fun p => (HexStreamProcess.wait p (status_of (pid_ p))).1.2) l)
      by (intros l; apply map_ext; intros p; by rewrite wait_not_running).
    assert (He : forall (l : list HexStreamProcess),
      concat (map (fun p => (HexStreamProcess.wait
                       (HexStreamProcess.wait p (status_of (pid_ p))).1.2
                       (status_of'
                          (pid_ (HexStreamProcess.wait p
                                   (status_of (pid_ p))).1.2))).2) l) = []).
    { induction l as [|p l IH]; [done|]. cbn [map concat].
      by rewrite wait_not_running, IH. }
    by rewrite Hc, Hw, He.
  - intros config. split; [done|]. apply Hadd.
Qed.

End ProcessProofs.

Lemma wait_reaps_a_running_process_once_witness :
  let config := mkProcessConfig "ls" [] [] false false false true in
  let p := mkHexStreamProcess config 4242 (-1) true 7 (Some 0%nat)
             blank_controller in
  (HexStreamProcess.wait p (W_EXITCODE 3 0)).1.1 = 3 /\
  HexStreamProcess.isRunning (HexStreamProcess.wait p (W_EXITCODE 3 0)).1.2
    = false.
Proof.
  intros config p.
  destruct (wait_reaps_a_running_process_once p (W_EXITCODE 3 0) eq_refl)
    as (H1 & _ & _ & H4 & _).
  split; [exact H1 | exact H4].
Defined.

(* --------------------------------------------------------------------- *)
(** ** JobManager                                                         *)
(* --------------------------------------------------------------------- *)

Section JobManagerProofs.

Set Warnings "-clear-no-such-hyp".

Lemma getJob_set_job jm id job id' :
  JobManager.getJob (JobManager.set_job jm id job) id' =
    if decide (id' = id) then Some job else JobManager.getJob jm id'.
Proof.
  unfold JobManager.getJob, JobManager.set_job. cbn [jobs].
  case_decide as Hid.
  - subst. apply lookup_insert_eq.
  - by apply lookup_insert_ne.
Qed.

Lemma FG_CMD_valid s :
  valid (StateMachine.transition s FG_CMD) = true <->
  s = BACKGROUND \/ s = STOPPED.
Proof. destruct s; cbn; naive_solver. Qed.

Lemma BG_CMD_valid s :
  valid (StateMachine.transition s BG_CMD) = true <->
  s = BACKGROUND \/ s = STOPPED.
Proof. destruct s; cbn; naive_solver. Qed.

Lemma foreground_spec :
  forall (jm : JobManager) (w : World) (id : Z),
    let ok := (JobManager.foreground jm w id).1.1 in
    let jm' := (JobManager.foreground jm w id).1.2 in
    let w' := (JobManager.foreground jm w id).2 in
    (ok = true <->
       exists job, JobManager.getJob jm id = Some job /\
                   (state job = BACKGROUND \/ state job = STOPPED)) /\
    (ok = false -> jm' = jm /\ w' = w) /\
    (forall job,
       JobManager.getJob jm id = Some job -> ok = true ->
       JobManager.getJob jm' id =
         Some (JobControlBlock.set_state
                 (JobControlBlock.set_streams job
                    (StreamController.setForegroundMode (streams job) true))
                 FOREGROUND) /\
       (forall id', id' <> id ->
          JobManager.getJob jm' id' = JobManager.getJob jm id') /\
       signals_sent w' =
         signals_sent w ++
         (if decide (state job = STOPPED)
          then [(- pgid job, SIGCONT)] else []) /\
       tty_pgrp w' = (if hasTty jm then pgid job else tty_pgrp w) /\
       tty_modes w' =
         (if hasTty jm && hasSavedModes job
          then savedModes job else tty_modes w) /\
       notifications w' =
         notifications w ++
         map (fun cb => (cb, id, state job, FOREGROUND))
           (statusCallbacks jm)).
Proof.
  intros jm w id ok jm' w'. unfold ok, jm', w', JobManager.foreground.
  destruct (JobManager.getJob jm id) as [job|] eqn:Hjob.
  2: { cbn [fst snd]. split; [|split]; [| done | done].
       split; [done|]. by intros (job & Hnone & _). }
  pose proof (FG_CMD_valid (state job)) as Hvalid.
  destruct (valid (StateMachine.transition (state job) FG_CMD)) eqn:Hv;
    cbn [negb fst snd].
  2: { split; [|split]; [| done | done].
       split; [done|]. intros (job' & [= <-] & Hst).
       by apply Hvalid in Hst. }
  split; [|split]; [| done |].
  { split; [|done]. intros _. exists job. split; [done|]. by apply Hvalid. }
  intros job0 [= <-] _.
  assert (Hnew : newState (StateMachine.transition (state job) FG_CMD)
                 = FOREGROUND).
  { destruct (proj1 Hvalid eq_refl) as [-> | ->]; reflexivity. }
  rewrite Hnew. split; [by rewrite getJob_set_job, decide_True|].
  split; [intros id' Hne; by rewrite getJob_set_job, decide_False|].
  unfold JobManager.notifyStatusChange.
  destruct (decide (state job = STOPPED)), (hasTty jm),
    (hasSavedModes job); cbn; by rewrite ?app_nil_r.
Qed.

(** X25. [foreground(jobId)] succeeds exactly when the job exists and is
    [BACKGROUND] or [STOPPED]; otherwise it returns false and changes
    nothing.  On success only that job changes (state [FOREGROUND],
    streams in foreground mode); [SIGCONT] goes to the job's process group
    only if it was stopped; the terminal is handed to the job, and its
    saved modes restored, only when the shell has a terminal; every
    status callback is told once. *)
Theorem foreground_resumes_background_and_stopped_jobs :
  forall (jm : JobManager) (w : World) (id : Z),
    let ok := (JobManager.foreground jm w id).1.1 in
    let jm' := (JobManager.foreground jm w id).1.2 in
    let w' := (JobManager.foreground jm w id).2 in
    (ok = true <->
       exists job, JobManager.getJob jm id = Some job /\
                   (state job = BACKGROUND \/ state job = STOPPED)) /\
    (ok = false -> jm' = jm /\ w' = w) /\
    (forall job,
       JobManager.getJob jm id = Some job -> ok = true ->
       JobManager.getJob jm' id =
         Some (JobControlBlock.set_state
                 (JobControlBlock.set_streams job
                    (StreamController.setForegroundMode (streams job) true))
                 FOREGROUND) /\
       (forall id', id' <> id ->
          JobManager.getJob jm' id' = JobManager.getJob jm id') /\
       signals_sent w' =
         signals_sent w ++
         (if decide (state job = STOPPED)
          then [(- pgid job, SIGCONT)] else []) /\
       tty_pgrp w' = (if hasTty jm then pgid job else tty_pgrp w) /\
       tty_modes w' =
         (if hasTty jm && hasSavedModes job
          then savedModes job else tty_modes w) /\
       notifications w' =
         notifications w ++
         map (fun cb => (cb, id, state job, FOREGROUND))
           (statusCallbacks jm)).
Proof. exact foreground_spec. Qed.

Lemma background_spec :
  forall (jm : JobManager) (w : World) (id : Z) (resume : bool),
    let ok := (JobManager.background jm w id resume).1.1 in
    let jm' := (JobManager.background jm w id resume).1.2 in
    let w' := (JobManager.background jm w id resume).2 in
    (ok = true <->
       exists job, JobManager.getJob jm id = Some job /\
                   (state job = BACKGROUND \/ state job = STOPPED)) /\
    (ok = false -> jm' = jm /\ w' = w) /\
    (forall job,
       JobManager.getJob jm id = Some job -> ok = true ->
       JobManager.getJob jm' id =
         Some (JobControlBlock.set_state
                 (JobControlBlock.set_streams job
                    (StreamController.setForegroundMode (streams job) false))
                 BACKGROUND) /\
       (forall id', id' <> id ->
          JobManager.getJob jm' id' = JobManager.getJob jm id') /\
       signals_sent w' =
         signals_sent w ++
         (if resume && bool_decide (state job = STOPPED)
          then [(- pgid job, SIGCONT)] else []) /\
       tty_pgrp w' = (if hasTty jm then shellPgid jm else tty_pgrp w) /\
       tty_modes w' = tty_modes w /\
       notifications w' =
         notifications w ++
         map (fun cb => (cb, id, state job, BACKGROUND))
           (statusCallbacks jm)).
Proof.
  intros jm w id resume ok jm' w'.
  unfold ok, jm', w', JobManager.background.
  destruct (JobManager.getJob jm id) as [job|] eqn:Hjob.
  2: { cbn [fst snd]. split; [|split]; [| done | done].
       split; [done|]. by intros (job & Hnone & _). }
  pose proof (BG_CMD_valid (state job)) as Hvalid.
  destruct (valid (StateMachine.transition (state job) BG_CMD)) eqn:Hv;
    cbn [negb fst snd].
  2: { split; [|split]; [| done | done].
       split; [done|]. intros (job' & [= <-] & Hst).
       by apply Hvalid in Hst. }
  split; [|split]; [| done |].
  { split; [|done]. intros _. exists job. split; [done|]. by apply Hvalid. }
  intros job0 [= <-] _.
  assert (Hnew : newState (StateMachine.transition (state job) BG_CMD)
                 = BACKGROUND).
  { destruct (proj1 Hvalid eq_refl) as [-> | ->]; reflexivity. }
  rewrite Hnew. split; [by rewrite getJob_set_job, decide_True|].
  split; [intros id' Hne; by rewrite getJob_set_job, decide_False|].
  unfold JobManager.notifyStatusChange.
  destruct (resume && bool_decide (state job = STOPPED)), (hasTty jm);
    cbn; by rewrite ?app_nil_r.
Qed.

(** X26. [background(jobId, false)] on a stopped job succeeds and marks
    the job [BACKGROUND] with buffered streams, but sends no signal: the
    processes stay stopped.  [SIGCONT] is sent to the process group
    exactly when [resume] is true. *)
Theorem background_marks_a_stopped_job_running_without_resuming_it :
  forall (jm : JobManager) (w : World) (id : Z) (job : JobControlBlock),
    JobManager.getJob jm id = Some job ->
    state job = STOPPED ->
    let r := JobManager.background jm w id false in
    r.1.1 = true /\
    (exists job', JobManager.getJob r.1.2 id = Some job' /\
                  state job' = BACKGROUND /\
                  foregroundMode (streams job') = false /\
                  pgid job' = pgid job) /\
    signals_sent r.2 = signals_sent w /\
    (forall resume,
       signals_sent (JobManager.background jm w id resume).2 =
         signals_sent w ++
         (if resume then [(- pgid job, SIGCONT)] else [])).
Proof.
  intros jm w id job Hjob Hst r. subst r.
  destruct (background_spec jm w id false) as (Hok & _ & Hjob').
  assert (Htrue : (JobManager.background jm w id false).1.1 = true)
    by (apply Hok; exists job; split; [done | by right]).
  destruct (Hjob' job Hjob Htrue) as (Hget & _ & Hsig & _).
  split; [done|]. split.
  { eexists. split; [exact Hget|]. done. }
  cbn [andb] in Hsig. split; [by rewrite Hsig, app_nil_r|].
  intros resume.
  destruct (background_spec jm w id resume) as (Hok' & _ & Hjob'').
  destruct (Hjob'' job Hjob) as (_ & _ & Hsig' & _).
  { apply Hok'. exists job. split; [done | by right]. }
  rewrite Hsig', Hst. by destruct resume.
Qed.

Lemma background_marks_a_stopped_job_running_without_resuming_it_witness :
  let modes := mkTermios 0 0 0 0 [] in
  let job :=
    mkJobControlBlock 1 "sleep" 4242 [mkProcessHandle 7 4242] STOPPED
      false modes true 0 true false 0 blank_controller 10 20 in
  let jm := mkJobManager {[1 := job]} 2 [0%nat] 3 100 modes false true in
  let w := mkWorld 100 modes [] [] in
  (JobManager.background jm w 1 false).1.1 = true /\
  signals_sent (JobManager.background jm w 1 false).2 = [].
Proof.
  intros modes job jm w.
  destruct (background_marks_a_stopped_job_running_without_resuming_it
              jm w 1 job (lookup_singleton_eq _ _) eq_refl)
    as (Hok & _ & Hsig & _).
  split; [exact Hok | exact Hsig].
Defined.

(** X27. A job that [foreground] has just put in the foreground cannot
    be sent to the background with [background], with or without
    [resume], and a second [foreground] fails too: [FG_CMD] and [BG_CMD]
    are refused in state [FOREGROUND], and nothing changes. *)
Theorem a_foreground_job_cannot_be_sent_to_the_background :
  forall (jm : JobManager) (w : World) (id : Z),
    (JobManager.foreground jm w id).1.1 = true ->
    let jm1 := (JobManager.foreground jm w id).1.2 in
    let w1 := (JobManager.foreground jm w id).2 in
    (forall resume,
       JobManager.background jm1 w1 id resume = (false, jm1, w1)) /\
    JobManager.foreground jm1 w1 id = (false, jm1, w1).
Proof.
  intros jm w id Hok jm1 w1.
  destruct (foreground_spec jm w id) as (Hiff & _ & Hjob).
  destruct (proj1 Hiff Hok) as (job & Hget & _).
  destruct (Hjob job Hget Hok) as (Hget1 & _). fold jm1 in Hget1.
  split.
  - intros resume. unfold JobManager.background. by rewrite Hget1.
  - unfold JobManager.foreground. by rewrite Hget1.
Qed.

Lemma a_foreground_job_cannot_be_sent_to_the_background_witness :
  let modes := mkTermios 0 0 0 0 [] in
  let job :=
    mkJobControlBlock 1 "sleep" 4242 [mkProcessHandle 7 4242] STOPPED
      false modes true 0 true false 0 blank_controller 10 20 in
  let jm := mkJobManager {[1 := job]} 2 [0%nat] 3 100 modes false true in
  let w := mkWorld 100 modes [] [] in
  JobManager.foreground (JobManager.foreground jm w 1).1.2
    (JobManager.foreground jm w 1).2 1 =
  (false, (JobManager.foreground jm w 1).1.2, (JobManager.foreground jm w 1).2).
Proof.
  intros modes job jm w.
  assert (Hok : (JobManager.foreground jm w 1).1.1 = true).
  { unfold JobManager.foreground, JobManager.getJob. cbn [jobs jm].
    rewrite lookup_singleton_eq. reflexivity. }
  exact (proj2 (a_foreground_job_cannot_be_sent_to_the_background
                  jm w 1 Hok)).
Defined.

Lemma reap_fold_fields job pas :
  let job' := foldl JobManager.reap_one job pas in
  jobId job' = jobId job /\ pgid job' = pgid job /\
  processes job' = processes job /\ state job' = state job /\
  streams job' = streams job /\ startTime job' = startTime job /\
  endTime job' = endTime job.
Proof.
  revert job. induction pas as [|[proc [ret status]] pas IH]; intros job;
    [done|].
  cbn [foldl].
  destruct (IH (JobManager.reap_one job (proc, (ret, status))))
    as (H1 & H2 & H3 & H4 & H5 & H6 & H7).
  cbn zeta. rewrite H1, H2, H3, H4, H5, H6, H7.
  unfold JobManager.reap_one.
  destruct (pid proc >? 0), (ret >? 0), (WIFEXITED status),
    (WIFSIGNALED status); done.
Qed.

Lemma reap_fold_nothing job pas :
  Forall (fun pa => pid pa.1 <= 0 \/ pa.2.1 <= 0) pas ->
  foldl JobManager.reap_one job pas = job.
Proof.
  revert job. induction pas as [|[proc [ret status]] pas IH]; intros job Hall;
    [done|].
  apply Forall_cons in Hall as [Hone Hall]. cbn [foldl fst snd] in *.
  rewrite <- (IH job Hall) at 2. f_equal.
  unfold JobManager.reap_one.
  destruct (Z.gtb_spec (pid proc) 0); [|done].
  destruct (Z.gtb_spec ret 0); [lia | done].
Qed.

(** X28. [reapJob] always ends the job: the state becomes [TERMINATED]
    and [endTime] the current time, whatever [waitpid] reports, and every
    status callback is told once, with the state the job had.  Identity,
    process group, processes and streams are unchanged, no signal is sent
    and the terminal is not touched.  If [waitpid] reports no process,
    the exit code stays as it was. *)
Theorem reapJob_always_ends_the_job :
  forall (jm : JobManager) (w : World) (job : JobControlBlock)
         (answers : list (Z * Z)) (now : Z),
    let job' := (JobManager.reapJob jm w job answers now).1 in
    let w' := (JobManager.reapJob jm w job answers now).2 in
    state job' = TERMINATED /\
    endTime job' = now /\
    jobId job' = jobId job /\ pgid job' = pgid job /\
    processes job' = processes job /\ streams job' = streams job /\
    notifications w' =
      notifications w ++
      map (fun cb => (cb, jobId job, state job, TERMINATED))
        (statusCallbacks jm) /\
    signals_sent w' = signals_sent w /\
    tty_pgrp w' = tty_pgrp w /\ tty_modes w' = tty_modes w /\
    (Forall (fun a => a.1 <= 0) answers ->
       exitCode job' = exitCode job /\
       exitedNormally job' = exitedNormally job).
Proof.
  intros jm w job answers now job' w'.
  unfold job', w', JobManager.reapJob.
  destruct (reap_fold_fields job (zip (processes job) answers))
    as (H1 & H2 & H3 & H4 & H5 & H6 & H7).
  cbn [fst snd state endTime jobId pgid processes streams exitCode
       exitedNormally JobControlBlock.set_state JobControlBlock.set_endTime
       JobManager.notifyStatusChange World.notify notifications signals_sent
       tty_pgrp tty_modes].
  rewrite H4. do 10 (split; [done|]).
  intros Hnone. rewrite reap_fold_nothing; [done|].
  apply Forall_forall. intros [proc [ret status]] Hin.
  apply elem_of_zip_r in Hin. rewrite Forall_forall in Hnone.
  right. by apply (Hnone (ret, status)).
Qed.

End JobManagerProofs.

Section TerminalProofs.

Lemma testbit_above (f : Z) (i : Z) :
  0 <= f < 2 ^ 32 -> 32 <= i -> Z.testbit f i = false.
Proof.
  intros Hf Hi. destruct (Z.eq_dec f 0) as [-> | Hnz];
    [apply Z.bits_0|].
  apply Z.bits_above_log2; [lia|].
  assert (Z.log2 f < 32) by (apply Z.log2_lt_pow2; lia). lia.
Qed.

(** [flags & ~mask] on 32 bits removes the bits of the mask and nothing
    else. *)
Lemma clear_flags_ldiff flags mask :
  0 <= flags < 2 ^ 32 -> clear_flags flags mask = Z.ldiff flags mask.
Proof.
  intros Hf. unfold clear_flags. apply Z.bits_inj'. intros i Hi.
  rewrite Z.land_spec, Z.ldiff_spec.
  destruct (Z.lt_ge_cases i 32) as [Hlow | Hhigh].
  - rewrite Z.mod_pow2_bits_low by lia. by rewrite Z.lnot_spec by lia.
  - by rewrite (testbit_above flags i Hf Hhigh).
Qed.

Lemma clear_flags_spec flags mask :
  0 <= flags < 2 ^ 32 ->
  Z.land (clear_flags flags mask) mask = 0 /\
  Z.lor (clear_flags flags mask) (Z.land flags mask) = flags /\
  0 <= clear_flags flags mask < 2 ^ 32.
Proof.
  intros Hf. rewrite clear_flags_ldiff by done.
  split; [|split].
  - apply Z.bits_inj'. intros i Hi.
    rewrite Z.land_spec, Z.ldiff_spec, Z.bits_0.
    by destruct (Z.testbit flags i), (Z.testbit mask i).
  - apply Z.bits_inj'. intros i Hi.
    rewrite Z.lor_spec, Z.land_spec, Z.ldiff_spec.
    by destruct (Z.testbit flags i), (Z.testbit mask i).
  - assert (Hnn : 0 <= Z.ldiff flags mask)
      by (apply Z.ldiff_nonneg; lia).
    split; [done|].
    destruct (Z.eq_dec (Z.ldiff flags mask) 0) as [-> | Hnz]; [lia|].
    apply Z.log2_lt_pow2; [lia|].
    destruct (Z.lt_ge_cases (Z.log2 (Z.ldiff flags mask)) 32) as [|Hge];
      [done|].
    exfalso.
    pose proof (Z.bit_log2 (Z.ldiff flags mask) ltac:(lia)) as Hbit.
    rewrite Z.ldiff_spec, (testbit_above flags _ Hf Hge) in Hbit. done.
Qed.

(** X29. With a terminal, [enterRawMode] sets modes that differ from
    the shell's saved modes only by [ICANON], [ECHO], [ISIG], [IXON] and
    [ICRNL] cleared, [VMIN = 1] and [VTIME = 0]; the saved modes are
    kept, so [exitRawMode] puts the terminal back exactly, and entering
    twice is the same as once.  Without a terminal both calls succeed and
    do nothing; when [tcsetattr] fails they return false and change
    nothing.  [restoreTerminalModes] sets the modes [saveTerminalModes]
    saw. *)
Theorem raw_mode_clears_five_flags_and_is_undone_by_exit :
  forall (jm : JobManager) (w : World),
    termios_ok (shellModes jm) ->
    let shell := shellModes jm in
    let entered := JobManagerTerminal.enterRawMode jm w true in
    let left := JobManagerTerminal.exitRawMode entered.1.2 entered.2 true in
    (hasTty jm = true ->
       let raw := tty_modes entered.2 in
       entered.1.1 = true /\
       inRawMode entered.1.2 = true /\
       shellModes entered.1.2 = shell /\
       Z.land (c_lflag raw) (Z.lor (Z.lor ICANON ECHO) ISIG) = 0 /\
       Z.lor (c_lflag raw)
         (Z.land (c_lflag shell) (Z.lor (Z.lor ICANON ECHO) ISIG))
         = c_lflag shell /\
       Z.land (c_iflag raw) (Z.lor IXON ICRNL) = 0 /\
       Z.lor (c_iflag raw) (Z.land (c_iflag shell) (Z.lor IXON ICRNL))
         = c_iflag shell /\
       c_oflag raw = c_oflag shell /\ c_cflag raw = c_cflag shell /\
       c_cc raw !! VMIN = Some 1 /\ c_cc raw !! VTIME = Some 0 /\
       (forall i, i <> VMIN -> i <> VTIME ->
          c_cc raw !! i = c_cc shell !! i) /\
       left.1.1 = true /\
       inRawMode left.1.2 = false /\
       tty_modes left.2 = shell /\
       JobManagerTerminal.enterRawMode entered.1.2 entered.2 true = entered) /\
    (hasTty jm = false ->
       entered = (true, jm, w) /\
       JobManagerTerminal.exitRawMode jm w true = (true, jm, w)) /\
    (hasTty jm = true ->
       JobManagerTerminal.enterRawMode jm w false = (false, jm, w) /\
       JobManagerTerminal.exitRawMode jm w false = (false, jm, w)) /\
    (hasTty jm = true ->
       forall later : World,
         let saved := JobManagerTerminal.saveTerminalModes jm w true in
         saved.1 = true /\
         JobManagerTerminal.restoreTerminalModes saved.2 later true =
           (true, World.tcsetattr later (tty_modes w))).
Proof.
  intros jm w (Hi & Hl & Hcc) shell entered left.
  unfold left, entered, JobManagerTerminal.enterRawMode,
    JobManagerTerminal.exitRawMode, JobManagerTerminal.saveTerminalModes,
    JobManagerTerminal.restoreTerminalModes.
  split; [|split; [|split]]; intros Htty; rewrite Htty; cbn [negb fst snd];
    [|done|done|].
  2: { intros later.
       cbn [negb fst snd hasTty shellModes
            JobManagerTerminal.set_shellModes].
       by rewrite Htty. }
  cbn [hasTty JobManagerTerminal.set_inRawMode negb fst snd].
  rewrite Htty. cbn [negb fst snd tty_modes World.tcsetattr inRawMode
    shellModes JobManagerTerminal.set_inRawMode c_lflag c_iflag c_oflag
    c_cflag c_cc JobManagerTerminal.raw_modes].
  destruct (clear_flags_spec (c_lflag (shellModes jm))
              (Z.lor (Z.lor ICANON ECHO) ISIG) Hl) as (L1 & L2 & _).
  destruct (clear_flags_spec (c_iflag (shellModes jm))
              (Z.lor IXON ICRNL) Hi) as (I1 & I2 & _).
  unfold NCCS in Hcc.
  do 9 (split; [done|]). split; [|split; [|split]].
  - rewrite list_lookup_insert_ne by (unfold VTIME, VMIN; lia).
    apply list_lookup_insert_eq. unfold VMIN. lia.
  - apply list_lookup_insert_eq. rewrite length_insert. unfold VTIME. lia.
  - intros i H1 H2. by rewrite !list_lookup_insert_ne.
  - done.
Qed.

End TerminalProofs.

Lemma raw_mode_clears_five_flags_and_is_undone_by_exit_witness :
  let entered :=
    JobManagerTerminal.enterRawMode one_job_manager quiet_world true in
  c_lflag (tty_modes entered.2) = 35376 /\
  c_iflag (tty_modes entered.2) = 0 /\
  tty_modes
    (JobManagerTerminal.exitRawMode entered.1.2 entered.2 true).2 =
    shellModes one_job_manager.
Proof.
  intros entered.
  assert (Hok : termios_ok (shellModes one_job_manager))
    by (repeat split; vm_compute; easy).
  destruct (proj1 (raw_mode_clears_five_flags_and_is_undone_by_exit
                     one_job_manager quiet_world Hok) eq_refl)
    as (_ & _ & _ & _ & _ & _ & _ & _ & _ & _ & _ & _ & _ & _ & Hback & _).
  split; [reflexivity|]. split; [reflexivity | exact Hback].
Defined.

Section SpawnProofs.

(** [createPipes] neither reads nor writes the rings. *)
Lemma close_set_buffers sc bs h :
  StreamController.close (StreamController.set_buffers sc bs) h =
    (StreamController.set_buffers (StreamController.close sc h).1 bs,
     (StreamController.close sc h).2).
Proof.
  unfold StreamController.close.
  cbn [pipes StreamController.stopDraining StreamController.set_drainers
       StreamController.set_buffers].
  by destruct (HexStreamPipes.close (pipes sc) h).
Qed.

Lemma createPipes_from_set_buffers todo :
  forall sc bs h,
    StreamController.createPipes_from todo
      (StreamController.set_buffers sc bs) h =
    ((StreamController.createPipes_from todo sc h).1.1,
     StreamController.set_buffers
       (StreamController.createPipes_from todo sc h).1.2 bs,
     (StreamController.createPipes_from todo sc h).2).
Proof.
  induction todo as [|i todo IH]; intros sc bs h; [done|].
  cbn [StreamController.createPipes_from].
  destruct (Sys.pipe2 h true) as [[[r w]|] h1].
  - cbn [pipes StreamController.set_buffers].
    rewrite <- IH. done.
  - rewrite close_set_buffers.
    by destruct (StreamController.close sc h1).
Qed.

Lemma createPipes_new h :
  StreamController.createPipes StreamController.new h =
    ((StreamController.createPipes blank_controller h).1.1,
     StreamController.set_buffers
       (StreamController.createPipes blank_controller h).1.2
       (buffers StreamController.new),
     (StreamController.createPipes blank_controller h).2).
Proof.
  unfold StreamController.createPipes.
  rewrite <- createPipes_from_set_buffers. reflexivity.
Qed.

Lemma new_pipes_length : length (fds (pipes StreamController.new)) = 12%nat.
Proof. reflexivity. Qed.

Lemma new_pipes_closed j :
  (j < 12)%nat -> HexStreamPipes.get (pipes StreamController.new) j < 0.
Proof.
  intros Hj. do 12 (destruct j as [|j]; [cbn; lia|]). lia.
Qed.

(** X30. [spawn] in the shell.  Every call uses up one job id, and none
    notifies a status callback or sends a signal.  When [createPipes] or
    [fork] fails, 0 is returned, no job is added, the terminal is not
    touched, nothing is registered with [epoll] and the shell holds the
    descriptors it held before the call, no other.  Otherwise the
    returned id is the old [nextJobId] and the job stored under it is
    [FOREGROUND] or [BACKGROUND] as asked, its process group is the
    child's pid, its streams hold the parent's ends with four drainers
    started; other jobs are unchanged, and the terminal goes to the child
    only for a foreground job of a shell with a terminal.  The shell then
    holds the descriptors it had, the parent's six pipe ends and, unless
    [pidfd_open] failed, one more: the pidfd of the child.  That one is
    the lowest descriptor that was free once the pipes were made, none
    of the twelve pipe descriptors, it is the one stored in the job's
    process handle, and [epoll_ctl] is asked to add it under the job id
    when the shell has an epoll instance.  When [pidfd_open] failed the
    handle stores -1 and nothing is added. *)
Theorem spawn_registers_the_job_or_leaks_nothing :
  forall (jm : JobManager) (h : Host) (w : World) (options : SpawnOptions)
         (pid : Z) (granted : bool) (epollFd now : Z),
    let made := StreamController.createPipes StreamController.new h in
    let parent := StreamController.setupParent made.1.2 made.2 in
    let childfd := JobManagerSpawn.pidfd_open made.2 granted in
    let r := JobManagerSpawn.spawn jm h w options pid granted epollFd now in
    nextJobId (sp_manager r) = (nextJobId jm + 1) mod 2 ^ 32 /\
    notifications (sp_world r) = notifications w /\
    signals_sent (sp_world r) = signals_sent w /\
    (made.1.1 = false \/ pid < 0 ->
       sp_jobId r = 0 /\ jobs (sp_manager r) = jobs jm /\
       fdtable (sp_host r) = fdtable h /\
       sp_files r = PipeFile <$> fdtable h /\
       sp_registered r = None /\ sp_world r = w) /\
    (made.1.1 = true -> 0 < pid ->
       sp_jobId r = nextJobId jm /\
       (exists job,
          JobManager.getJob (sp_manager r) (nextJobId jm) = Some job /\
          jobId job = nextJobId jm /\
          state job =
            (if opt_background options then BACKGROUND else FOREGROUND) /\
          pgid job = pid /\
          processes job = [mkProcessHandle childfd pid] /\
          exitCode job = 0 /\ startTime job = now /\
          hasSavedModes job = negb (opt_background options) && hasTty jm /\
          foregroundMode (streams job) = negb (opt_background options) /\
          pipes (streams job) = pipes parent.1.2 /\
          drainers (streams job) =
            [Some (StreamDrainer.new STDOUT
                     (HexStreamPipes.get (pipes made.1.2) 2) false);
             Some (StreamDrainer.new STDERR
                     (HexStreamPipes.get (pipes made.1.2) 4) false);
             Some (StreamDrainer.new STDDBG
                     (HexStreamPipes.get (pipes made.1.2) 6) true);
             Some (StreamDrainer.new STDDATO
                     (HexStreamPipes.get (pipes made.1.2) 10) false)]) /\
       (forall id', id' <> nextJobId jm ->
          JobManager.getJob (sp_manager r) id' = JobManager.getJob jm id') /\
       sp_host r = parent.2 /\
       tty_pgrp (sp_world r) =
         (if negb (opt_background options) && hasTty jm
          then pid else tty_pgrp w) /\
       tty_modes (sp_world r) = tty_modes w /\
       (granted = true ->
        Sys.alloc_fd (fdtable made.2) < nofile made.2 ->
          childfd = Sys.alloc_fd (fdtable made.2) /\
          0 <= childfd /\
          fdtable made.2 !! childfd = None /\
          fdtable parent.2 !! childfd = None /\
          (forall j, (j < 12)%nat ->
             HexStreamPipes.get (pipes made.1.2) j <> childfd) /\
          sp_files r =
            <[childfd := PidFile pid]> (PipeFile <$> fdtable parent.2) /\
          size (sp_files r) = S (size (fdtable parent.2)) /\
          sp_registered r =
            (if epollFd >=? 0 then Some (childfd, nextJobId jm) else None)) /\
       (granted = false \/
        nofile made.2 <= Sys.alloc_fd (fdtable made.2) ->
          childfd = -1 /\
          sp_files r = PipeFile <$> fdtable parent.2 /\
          sp_registered r = None)).
Proof.
  intros jm h w options pid granted epollFd now made parent childfd r.
  assert (Hcases :
    (made.1.1 = false /\
     r = mkSpawned 0
           (JobManagerSpawn.set_nextJobId jm ((nextJobId jm + 1) mod 2 ^ 32))
           (StreamController.close made.1.2 made.2).2
           (PipeFile <$> fdtable (StreamController.close made.1.2 made.2).2)
           None w) \/
    (made.1.1 = true /\ pid < 0 /\
     r = mkSpawned 0
           (JobManagerSpawn.set_nextJobId jm ((nextJobId jm + 1) mod 2 ^ 32))
           (StreamController.close made.1.2 made.2).2
           (PipeFile <$> fdtable (StreamController.close made.1.2 made.2).2)
           None w) \/
    (made.1.1 = true /\ 0 <= pid /\
     r = mkSpawned (nextJobId jm)
          (JobManager.set_job
            (JobManagerSpawn.set_nextJobId jm
               ((nextJobId jm + 1) mod 2 ^ 32))
            (nextJobId jm)
            (mkJobControlBlock (nextJobId jm) (opt_command options) pid
               [mkProcessHandle childfd pid]
               (if opt_background options then BACKGROUND else FOREGROUND)
               false
               (if negb (opt_background options) && hasTty jm
                then tty_modes w else zero_termios)
               (negb (opt_background options) && hasTty jm)
               0 false false 0
               (StreamController.setForegroundMode
                  (StreamController.startDraining parent.1.2).2
                  (negb (opt_background options))) now 0))
          parent.2
          (if childfd >=? 0
           then <[childfd := PidFile pid]> (PipeFile <$> fdtable parent.2)
           else PipeFile <$> fdtable parent.2)
          (if (childfd >=? 0) && (epollFd >=? 0)
           then Some (childfd, nextJobId jm) else None)
          (if negb (opt_background options) && hasTty jm
           then World.tcsetpgrp w pid else w))).
  { unfold r, JobManagerSpawn.spawn, parent, childfd. fold made.
    destruct made as [[[|] sc1] h1]; cbn [fst snd].
    - destruct (Z.ltb_spec pid 0); [right; left; done|].
      right; right. split; [done|]. split; [done|].
      by destruct (StreamController.setupParent sc1 h1) as [[? ?] ?].
    - by left. }
  assert (Hmade : StreamController.createPipes StreamController.new h =
                  (made.1.1, made.1.2, made.2))
    by (unfold made; by destruct (StreamController.createPipes _ h)
                          as [[? ?] ?]).
  assert (Hfail_table : made.1.1 = false ->
            fdtable (StreamController.close made.1.2 made.2).2 = fdtable h).
  { intros Hf. rewrite Hf in Hmade.
    assert (H1 : forall j, (2 * 0 <= j < 12)%nat ->
              HexStreamPipes.get (pipes StreamController.new) j < 0)
      by (intros j Hj; apply new_pipes_closed; lia).
    assert (H2 : forall j, (j < 2 * 0)%nat ->
              0 <= HexStreamPipes.get (pipes StreamController.new) j /\
              fdtable h !! HexStreamPipes.get (pipes StreamController.new) j
                = None /\
              is_Some (fdtable h !!
                         HexStreamPipes.get (pipes StreamController.new) j))
      by (intros j Hj; lia).
    assert (H3 : forall k, (forall j, (j < 2 * 0)%nat ->
                HexStreamPipes.get (pipes StreamController.new) j ≠ k) ->
              fdtable h !! k = fdtable h !! k) by done.
    destruct (createPipes_from_fail 6 0 StreamController.new h made.1.2
                made.2 (fdtable h) ltac:(lia) new_pipes_length H1 H2 H3 Hmade)
      as (Ht & Hneg & _).
    unfold StreamController.close.
    cbn [pipes StreamController.stopDraining StreamController.set_drainers].
    destruct (pipes_close_spec (pipes made.1.2) made.2)
      as (_ & _ & _ & Hother & _).
    destruct (HexStreamPipes.close (pipes made.1.2) made.2) as [p' h'].
    cbn [fst snd] in *. rewrite <- Ht. apply map_eq. intros k.
    apply Hother. intros j Hj Hopen. specialize (Hneg j Hj). lia. }
  assert (Hfork_table : made.1.1 = true ->
            fdtable (StreamController.close made.1.2 made.2).2 = fdtable h).
  { intros Ht. rewrite Ht in Hmade.
    unfold StreamController.close.
    cbn [pipes StreamController.stopDraining StreamController.set_drainers].
    pose proof (close_restores StreamController.new h made.1.2 made.2
                  (pipes made.1.2) made.2 new_pipes_length Hmade) as Hres.
    destruct (HexStreamPipes.close (pipes made.1.2) made.2) as [p' h'].
    cbn [fst snd] in *. apply Hres; [by left | done]. }
  destruct Hcases as [[Hf ->] | [(Ht & Hpid & ->) | (Ht & Hpid & ->)]];
    cbn [sp_jobId sp_manager sp_host sp_files sp_registered sp_world
         nextJobId JobManagerSpawn.set_nextJobId JobManager.set_job jobs].
  - split; [done|]. split; [done|]. split; [done|]. split.
    + intros _. rewrite (Hfail_table Hf). done.
    + intros Htrue. congruence.
  - split; [done|]. split; [done|]. split; [done|]. split.
    + intros _. rewrite (Hfork_table Ht). done.
    + intros _ Hpos. lia.
  - split; [done|].
    split; [by destruct (negb (opt_background options) && hasTty jm)|].
    split; [by destruct (negb (opt_background options) && hasTty jm)|].
    split; [intros [Hf | Hneg]; [congruence | lia]|].
    intros _ _. rewrite Ht in Hmade.
    split; [done|].
    split; [|split; [|split; [done|split; [|split]]]].
    + eexists. split.
      { unfold JobManager.getJob. cbn [jobs]. apply lookup_insert_eq. }
      cbn [jobId state pgid processes exitCode startTime hasSavedModes
           streams foregroundMode pipes drainers
           StreamController.setForegroundMode].
      do 8 (split; [done|]). split; [apply startDraining_pipes|].
      destruct (four_drainers_spec StreamController.new
                  made.1.2 h made.2 new_pipes_length Hmade) as (_ & Hdr & _).
      exact Hdr.
    + intros id' Hne. unfold JobManager.getJob. cbn [jobs].
      by apply lookup_insert_ne.
    + by destruct (negb (opt_background options) && hasTty jm).
    + by destruct (negb (opt_background options) && hasTty jm).
    + destruct (alloc_fd_fresh (fdtable made.2)) as [Hnn Hfree].
      split.
      * intros Hgranted Hlimit.
        assert (Hfd : childfd = Sys.alloc_fd (fdtable made.2)).
        { unfold childfd, JobManagerSpawn.pidfd_open. rewrite Hgranted.
          destruct (Z.ltb_spec (Sys.alloc_fd (fdtable made.2))
                      (nofile made.2)); [done | lia]. }
        assert (Hpos : (childfd >=? 0) = true)
          by (rewrite Hfd; apply Z.geb_le; lia).
        assert (Hparent : fdtable parent.2 !! childfd = None).
        { pose proof Hmade as Hmade'.
          unfold StreamController.createPipes in Hmade'.
          destruct (createPipes_from_ok 6 0 StreamController.new h made.1.2
                      made.2 ltac:(lia) new_pipes_length Hmade')
            as (Hl1 & _).
          destruct (setupParent_spec made.1.2 made.2 Hl1)
            as (_ & _ & _ & Ht2 & _).
          fold parent in Ht2. rewrite Ht2, Hfd. by case_decide. }
        rewrite Hpos. cbn [andb].
        split; [done|]. split; [lia|]. split; [by rewrite Hfd|].
        split; [done|]. split; [|split; [done|split; [|done]]].
        -- intros j Hj Heq.
           destruct (createPipes_spec StreamController.new made.1.2 h made.2
                       new_pipes_length Hmade) as (Hends & _).
           assert (Hi : exists i, (i < 6)%nat /\
                                  (j = 2 * i \/ j = 2 * i + 1)%nat).
           { exists (j / 2)%nat.
             pose proof (Nat.div_mod_eq j 2).
             pose proof (Nat.mod_upper_bound j 2).
             split; [apply Nat.Div0.div_lt_upper_bound; lia | lia]. }
           rewrite Hfd in Heq.
           destruct Hi as (i & Hi & [-> | ->]);
             destruct (Hends i Hi) as [Hr Hw]; congruence.
        -- rewrite map_size_insert_None, map_size_fmap; [done|].
           by rewrite lookup_fmap, Hparent.
      * intros Hnot.
        assert (Hfd : childfd = -1).
        { unfold childfd, JobManagerSpawn.pidfd_open.
          destruct Hnot as [-> | Hlimit]; [done|].
          destruct (Z.ltb_spec (Sys.alloc_fd (fdtable made.2))
                      (nofile made.2)); [lia|].
          by rewrite andb_false_r. }
        by rewrite Hfd.
Qed.

Lemma spawn_registers_the_job_or_leaks_nothing_witness :
  let options := mkSpawnOptions "ls" [] false true in
  let r := JobManagerSpawn.spawn one_job_manager (host_with 4) quiet_world
             options 4243 true 3 99 in
  sp_jobId r = 2 /\ nextJobId (sp_manager r) = 3 /\
  tty_pgrp (sp_world r) = 4243 /\
  sp_files r !! 16 = Some (PidFile 4243) /\
  sp_registered r = Some (16, 2).
Proof.
  intros options r.
  set (made := StreamController.createPipes StreamController.new
                 (host_with 4)).
  assert (Hmade : made.1.1 = true).
  { unfold made. rewrite createPipes_new. cbn [fst]. vm_compute.
    reflexivity. }
  assert (Hfd : Sys.alloc_fd (fdtable made.2) = 16).
  { unfold made. rewrite createPipes_new. cbn [snd]. vm_compute.
    reflexivity. }
  assert (Hlimit : Sys.alloc_fd (fdtable made.2) < nofile made.2).
  { rewrite Hfd. unfold made. rewrite createPipes_new. cbn [snd].
    vm_compute. reflexivity. }
  destruct (spawn_registers_the_job_or_leaks_nothing one_job_manager
              (host_with 4) quiet_world options 4243 true 3 99)
    as (Hnext & _ & _ & _ & Hok).
  destruct (Hok Hmade ltac:(lia))
    as (Hid & _ & _ & _ & Htty & _ & Hgranted & _).
  destruct (Hgranted eq_refl Hlimit)
    as (Hchild & _ & _ & _ & _ & Hfiles & _ & Hreg).
  fold made in Hchild, Hfiles, Hreg. rewrite Hfd in Hchild.
  fold r in Hfiles, Hreg. rewrite Hchild in Hfiles, Hreg.
  split; [exact Hid|]. split; [exact Hnext|]. split; [exact Htty|].
  split; [|exact Hreg].
  rewrite Hfiles. apply lookup_insert_eq.
Defined.

End SpawnProofs.
